(** * Smart-CLIR-System: the indexing and BM25 retrieval kernel

    A shallow embedding of [src/indexing/build_index.py]
    ([DocumentPreprocessor], [InvertedIndex]) and of
    [src/retrieval/lexical_bm25.py] ([BM25Retriever]), followed by the
    properties of the specification that concern them.

    Conventions of the embedding:
    - a Python [str] is the list of its Unicode code points ([pystr]);
    - a Python [int] is a [Z]; a Python [float] is a real number of [R]
      (rounding, overflow and NaN are outside the model);
    - a [dict] is a [gmap]; the insertion order of a dict is kept in an
      association list where the code iterates over it;
    - a raised exception is the [Raise] case of [result];
    - console output ([print]) and wall-clock timing are left out. *)

From Stdlib Require Import Ascii Reals Lra.
From Stdlib Require DecimalString DecimalZ.
From stdpp Require Import gmap strings list fin_maps sorting.

Open Scope Z_scope.

(* ===================================================================== *)
(** * Part I. The embedding                                               *)
(* ===================================================================== *)

(** ** Python values *)

Abbreviation pystr := (list N).

(** An ASCII literal as a Python string. *)
Definition py (s : string) : pystr :=
  (fun a => Ascii.N_of_ascii a) <$> String.list_ascii_of_string s.

(** The values a caller can hand to [preprocess] or store as metadata:
    what [json.load] produces, without floats and objects. *)
#[warnings="-register-all"]
Inductive PyValue :=
| PyNone
| PyBool (b : bool)
| PyInt (z : Z)
| PyStr (s : pystr)
| PyList (l : list PyValue).

(** Truth value testing ([not text]). *)
Definition truthy (v : PyValue) : bool :=
  match v with
  | PyNone => false
  | PyBool b => b
  | PyInt z => negb (z =? 0)
  | PyStr s => match s with [] => false | _ => true end
  | PyList l => match l with [] => false | _ => true end
  end.

(** The exceptions the kernel can raise. *)
Inductive PyError :=
| ValueError
| ZeroDivisionError
| KeyError
| TypeError
| FileNotFoundError
| UnpicklingError.

Inductive result (A : Type) :=
| Ok (a : A)
| Raise (e : PyError).
Arguments Ok {A} a.
Arguments Raise {A} e.

#[global] Instance result_ret : MRet result := fun A a => Ok a.

#[global] Instance result_bind : MBind result := fun A B k m =>
  match m with
  | Ok a => k a
  | Raise e => Raise e
  end.

(** [d[key]] on a dict: [KeyError] when the key is missing. *)
Definition getitem `{Countable K} {V} (d : gmap K V) (key : K) : result V :=
  match d !! key with
  | Some v => Ok v
  | None => Raise KeyError
  end.

(* --------------------------------------------------------------------- *)
(** ** Characters                                                         *)
(* --------------------------------------------------------------------- *)

Definition between (lo hi c : N) : bool := ((lo <=? c) && (c <=? hi))%N.

(** Unicode white space: the characters matched by [\s] in a [str]
    pattern, split on by [str.split()] and removed by [str.strip()]. *)
Definition isspace (c : N) : bool :=
  between 0x09 0x0D c || between 0x1C 0x1F c || (c =? 0x20)%N
  || (c =? 0x85)%N || (c =? 0xA0)%N || (c =? 0x1680)%N
  || between 0x2000 0x200A c || (c =? 0x2028)%N || (c =? 0x2029)%N
  || (c =? 0x202F)%N || (c =? 0x205F)%N || (c =? 0x3000)%N.

(** [[\u0980-\u09FF]] *)
Definition is_bangla_char (c : N) : bool := between 0x0980 0x09FF c.

(** [[a-zA-Z0-9]] *)
Definition is_ascii_alnum (c : N) : bool :=
  between 0x61 0x7A c || between 0x41 0x5A c || between 0x30 0x39 c.

(** [str.lower()] on one character. After the script filter of
    [tokenize] a text holds ASCII letters and digits, Bangla characters
    and white space only; there lowering changes [A-Z] and nothing else. *)
Definition lower_char (c : N) : N :=
  if between 0x41 0x5A c then (c + 32)%N else c.

Definition lower (s : pystr) : pystr := lower_char <$> s.

(* --------------------------------------------------------------------- *)
(** ** The regular-expression substitutions of [tokenize]                 *)
(* --------------------------------------------------------------------- *)

(** A match of [http\S+|www\S+] begins at the head of [s]: the literal,
    then at least one character that is not white space. *)
Definition starts_url (s : pystr) : bool :=
  match s with
  | 0x68%N :: 0x74%N :: 0x74%N :: 0x70%N :: c :: _ => negb (isspace c)
  | 0x77%N :: 0x77%N :: 0x77%N :: c :: _ => negb (isspace c)
  | _ => false
  end.

(** [re.sub(r'http\S+|www\S+', '', text)]. The scan goes left to right;
    a match, once begun, swallows the rest of the run of non-space
    characters ([\S+] is greedy), and the scan resumes at the white space
    that ended it. [inside] says that the scan is inside a match. *)
Fixpoint strip_urls_from (inside : bool) (s : pystr) : pystr :=
  match s with
  | [] => []
  | c :: s' =>
      if inside then
        if isspace c then c :: strip_urls_from false s'
        else strip_urls_from true s'
      else if starts_url s then strip_urls_from true s'
      else c :: strip_urls_from false s'
  end.

Definition strip_urls (text : pystr) : pystr := strip_urls_from false text.

(** Some position of [s] begins a match of the URL pattern. *)
Fixpoint has_url (s : pystr) : bool :=
  match s with
  | [] => false
  | _ :: s' => starts_url s || has_url s'
  end.

(** A run of non-space characters contains a match of [\S+@\S+] exactly
    when it has an [@] that is neither its first nor its last character;
    the leftmost match then begins with the run and, both [\S+] being
    greedy, ends with it. *)
Definition is_email_run (run : pystr) : bool :=
  match run with
  | [] => false
  | _ :: rest => existsb (N.eqb 0x40) (removelast rest)
  end.

Definition flush_email_run (run : pystr) : pystr :=
  if is_email_run run then [] else run.

(** [re.sub(r'\S+@\S+', '', text)]; [run] is the run of non-space
    characters read so far. *)
Fixpoint strip_emails_from (run : pystr) (s : pystr) : pystr :=
  match s with
  | [] => flush_email_run run
  | c :: s' =>
      if isspace c then flush_email_run run ++ c :: strip_emails_from [] s'
      else strip_emails_from (run ++ [c]) s'
  end.

Definition strip_emails (text : pystr) : pystr := strip_emails_from [] text.

(** [re.sub(r'[^\u0980-\u09FF\s]', ' ', text)] *)
Definition keep_bangla (text : pystr) : pystr :=
  (fun c => if is_bangla_char c || isspace c then c else 0x20%N) <$> text.

(** [re.sub(r'[^a-zA-Z0-9\s]', ' ', text)] *)
Definition keep_english (text : pystr) : pystr :=
  (fun c => if is_ascii_alnum c || isspace c then c else 0x20%N) <$> text.

(* --------------------------------------------------------------------- *)
(** ** [str.split], [str.strip], [str.join]                               *)
(* --------------------------------------------------------------------- *)

Definition emit_run (run : pystr) : list pystr :=
  match run with [] => [] | _ => [run] end.

(** [s.split()]: the maximal runs of non-space characters. *)
Fixpoint split_from (run : pystr) (s : pystr) : list pystr :=
  match s with
  | [] => emit_run run
  | c :: s' =>
      if isspace c then emit_run run ++ split_from [] s'
      else split_from (run ++ [c]) s'
  end.

Definition split (s : pystr) : list pystr := split_from [] s.

Fixpoint lstrip (s : pystr) : pystr :=
  match s with
  | [] => []
  | c :: s' => if isspace c then lstrip s' else s
  end.

Definition strip (s : pystr) : pystr := rev (lstrip (rev (lstrip s))).

(** [' '.join(tokens)] *)
Fixpoint join_space (tokens : list pystr) : pystr :=
  match tokens with
  | [] => []
  | [t] => t
  | t :: rest => t ++ 0x20%N :: join_space rest
  end.

(* --------------------------------------------------------------------- *)
(** ** [DocumentPreprocessor]                                             *)
(* --------------------------------------------------------------------- *)

Definition english_stopwords : list pystr :=
  py <$> [ "a"; "an"; "and"; "are"; "as"; "at"; "be"; "by"; "for"; "from";
           "has"; "he"; "in"; "is"; "it"; "its"; "of"; "on"; "that"; "the";
           "to"; "was"; "will"; "with"; "this"; "but"; "they"; "have"; "had";
           "what"; "when"; "where"; "who"; "which"; "why"; "how" ]%string.

(** The Bangla stop words, as the code points of the source literals. *)
Definition bangla_stopwords : list pystr :=
  [ [0x98f; 0x9ac; 0x982]; [0x9ac; 0x9be]; [0x9af; 0x9c7]; [0x98f; 0x987];
    [0x9b8; 0x9c7; 0x987]; [0x9af; 0x9be]; [0x9a4; 0x9be]; [0x98f; 0x995];
    [0x98f; 0x995; 0x99f; 0x9bf]; [0x995; 0x9bf; 0x99b; 0x9c1];
    [0x995; 0x9cb; 0x9a8]; [0x995; 0x9b0; 0x9be]; [0x9b9; 0x9af; 0x9bc];
    [0x9b9; 0x9ac; 0x9c7]; [0x99b; 0x9bf; 0x9b2]; [0x986; 0x99b; 0x9c7];
    [0x9a5; 0x9c7; 0x995; 0x9c7]; [0x9b8; 0x999; 0x9cd; 0x997; 0x9c7];
    [0x9a6; 0x9cd; 0x9ac; 0x9be; 0x9b0; 0x9be]; [0x99c; 0x9a8; 0x9cd; 0x9af];
    [0x9ae; 0x9a7; 0x9cd; 0x9af; 0x9c7]; [0x989; 0x9aa; 0x9b0];
    [0x9a8; 0x9bf; 0x99a; 0x9c7]; [0x986; 0x997; 0x9c7]; [0x9aa; 0x9b0; 0x9c7];
    [0x9ae; 0x9a4]; [0x9b8; 0x9be; 0x9a5; 0x9c7];
    [0x995; 0x9bf; 0x9a8; 0x9cd; 0x9a4; 0x9c1]; [0x9af; 0x9a6; 0x9bf];
    [0x9a4; 0x9ac; 0x9c7]; [0x9a8; 0x9be]; [0x9a8; 0x9af; 0x9bc];
    [0x9b9; 0x9af; 0x9bc; 0x9c7; 0x99b; 0x9c7];
    [0x9b9; 0x9af; 0x9bc; 0x9c7; 0x99b; 0x9bf; 0x9b2];
    [0x995; 0x9b0; 0x9c7; 0x99b; 0x9c7];
    [0x995; 0x9b0; 0x9c7; 0x99b; 0x9bf; 0x9b2]; [0x9ac; 0x9b2; 0x9c7; 0x9a8];
    [0x9ac; 0x9b2; 0x9c7]; [0x9ac; 0x9b2; 0x9be]; [0x99c; 0x9be; 0x9a8; 0x9be];
    [0x99c; 0x9be; 0x9a8; 0x9be; 0x9af; 0x9bc]; [0x9a6; 0x9c7; 0x9af; 0x9bc];
    [0x9a6; 0x9c7; 0x993; 0x9af; 0x9bc; 0x9be]; [0x9a8; 0x9c7; 0x9af; 0x9bc];
    [0x9a8; 0x9c7; 0x993; 0x9af; 0x9bc; 0x9be] ]%N.

(** [t in stopwords] *)
Definition str_in (t : pystr) (words : list pystr) : bool :=
  bool_decide (t ∈ words).

Definition is_bangla (text : pystr) : bool := existsb is_bangla_char text.

Definition tokenize (text : pystr) (language : pystr) : list pystr :=
  let language :=
    if bool_decide (language = py "auto")
    then (if is_bangla text then py "bn" else py "en")
    else language in
  let text := strip_urls text in
  let text := strip_emails text in
  let text :=
    if bool_decide (language = py "bn") then keep_bangla text
    else keep_english text in
  strip <$> List.filter (fun t => truthy (PyStr (strip t))) (split (lower text)).

Definition remove_stopwords (tokens : list pystr) (language : pystr)
  : list pystr :=
  let language :=
    if bool_decide (language = py "auto")
    then match tokens with
         | t0 :: _ => if is_bangla t0 then py "bn" else py "en"
         | [] => py "en"
         end
    else language in
  let stopwords :=
    if bool_decide (language = py "bn") then bangla_stopwords
    else english_stopwords in
  List.filter (fun t => negb (str_in t stopwords)) tokens.

(** [preprocess]: anything that is falsy or not a [str] gives no token. *)
Definition preprocess (text : PyValue) (language : pystr) : list pystr :=
  match text with
  | PyStr s =>
      if negb (truthy text) then []
      else
        let tokens := tokenize s language in
        let tokens := remove_stopwords tokens language in
        List.filter (fun t => (1 <? Z.of_nat (length t))) tokens
  | _ => []
  end.


(* --------------------------------------------------------------------- *)
(** ** [InvertedIndex]                                                    *)
(* --------------------------------------------------------------------- *)

(** A posting: document identifier and term frequency. *)
Abbreviation Posting := (pystr * Z)%type.

(** Document metadata: a dict with string keys. *)
Abbreviation Metadata := (gmap string PyValue).

Record InvertedIndex := {
  index : gmap pystr (list Posting);   (* term -> [(doc_id, term_freq), ...] *)
  doc_lengths : gmap pystr Z;          (* doc_id -> document length *)
  doc_count : Z;
  avg_doc_length : R;
  term_doc_freq : gmap pystr Z;        (* term -> number of docs with term *)
  documents : gmap pystr Metadata      (* doc_id -> document metadata *)
}.

(** [InvertedIndex()] *)
Definition empty_index : InvertedIndex :=
  {| index := ∅; doc_lengths := ∅; doc_count := 0; avg_doc_length := 0%R;
     term_doc_freq := ∅; documents := ∅ |}.

(** [term_freq[token] += 1] on a dict that keeps insertion order. *)
Fixpoint bump (token : pystr) (term_freq : list (pystr * Z))
  : list (pystr * Z) :=
  match term_freq with
  | [] => [(token, 0 + 1)]
  | (t, n) :: rest =>
      if bool_decide (t = token) then (t, n + 1) :: rest
      else (t, n) :: bump token rest
  end.

(** The first loop of [add_document]. *)
Definition count_terms (tokens : list pystr) : list (pystr * Z) :=
  fold_left (fun term_freq token => bump token term_freq) tokens [].

(** One round of the second loop: [self.index[term].append((doc_id, freq))]
    and [self.term_doc_freq[term] += 1], both on a [defaultdict]. *)
Definition add_posting (doc_id : pystr) (idx : InvertedIndex)
  (entry : pystr * Z) : InvertedIndex :=
  let '(term, freq) := entry in
  {| index := <[term := default [] (index idx !! term) ++ [(doc_id, freq)]]>
                (index idx);
     doc_lengths := doc_lengths idx;
     doc_count := doc_count idx;
     avg_doc_length := avg_doc_length idx;
     term_doc_freq := <[term := default 0 (term_doc_freq idx !! term) + 1]>
                        (term_doc_freq idx);
     documents := documents idx |}.

Definition add_document (idx : InvertedIndex) (doc_id : pystr)
  (tokens : list pystr) (metadata : Metadata) : InvertedIndex :=
  let term_freq := count_terms tokens in
  let idx := fold_left (add_posting doc_id) term_freq idx in
  let doc_length := Z.of_nat (length tokens) in
  {| index := index idx;
     doc_lengths := <[doc_id := doc_length]> (doc_lengths idx);
     doc_count := doc_count idx + 1;
     avg_doc_length := avg_doc_length idx;
     term_doc_freq := term_doc_freq idx;
     documents := <[doc_id := metadata]> (documents idx) |}.

(** [sum(d.values())] *)
Definition sum_values (d : gmap pystr Z) : Z :=
  map_fold (fun _ v acc => v + acc) 0 d.

Definition finalize (idx : InvertedIndex) : InvertedIndex :=
  {| index := index idx;
     doc_lengths := doc_lengths idx;
     doc_count := doc_count idx;
     avg_doc_length :=
       if 0 <? doc_count idx
       then (IZR (sum_values (doc_lengths idx)) / IZR (doc_count idx))%R
       else avg_doc_length idx;
     term_doc_freq := term_doc_freq idx;
     documents := documents idx |}.

Definition get_postings (idx : InvertedIndex) (term : pystr) : list Posting :=
  default [] (index idx !! term).

Definition get_document_frequency (idx : InvertedIndex) (term : pystr) : Z :=
  default 0 (term_doc_freq idx !! term).

(** A document handed to [add_document]. *)
Record Doc := {
  d_id : pystr;
  d_tokens : list pystr;
  d_meta : Metadata
}.

(** A build phase: the documents added, in order, to a new index. *)
Definition build (docs : list Doc) : InvertedIndex :=
  fold_left (fun idx d => add_document idx (d_id d) (d_tokens d) (d_meta d))
            docs empty_index.

(* --------------------------------------------------------------------- *)
(** ** Persistence: [save] and [load]                                     *)
(* --------------------------------------------------------------------- *)

(** The values of the dict that [save] pickles. *)
Inductive Pickled :=
| PPostings (m : gmap pystr (list Posting))
| PInts (m : gmap pystr Z)
| PInt (z : Z)
| PNumber (r : R)
| PMetas (m : gmap pystr Metadata).

Definition save_data (idx : InvertedIndex) : gmap string Pickled :=
  <["index" := PPostings (index idx)]>
  (<["doc_lengths" := PInts (doc_lengths idx)]>
  (<["doc_count" := PInt (doc_count idx)]>
  (<["avg_doc_length" := PNumber (avg_doc_length idx)]>
  (<["term_doc_freq" := PInts (term_doc_freq idx)]>
  (<["documents" := PMetas (documents idx)]> ∅))))).

Definition as_postings (v : Pickled) : result (gmap pystr (list Posting)) :=
  match v with PPostings m => Ok m | _ => Raise TypeError end.
Definition as_ints (v : Pickled) : result (gmap pystr Z) :=
  match v with PInts m => Ok m | _ => Raise TypeError end.
Definition as_int (v : Pickled) : result Z :=
  match v with PInt z => Ok z | _ => Raise TypeError end.
Definition as_number (v : Pickled) : result R :=
  match v with PNumber r => Ok r | PInt z => Ok (IZR z) | _ => Raise TypeError end.
Definition as_metas (v : Pickled) : result (gmap pystr Metadata) :=
  match v with PMetas m => Ok m | _ => Raise TypeError end.

Definition load_data (data : gmap string Pickled) : result InvertedIndex :=
  i ← getitem data "index" ≫= as_postings;
  l ← getitem data "doc_lengths" ≫= as_ints;
  n ← getitem data "doc_count" ≫= as_int;
  a ← getitem data "avg_doc_length" ≫= as_number;
  f ← getitem data "term_doc_freq" ≫= as_ints;
  d ← getitem data "documents" ≫= as_metas;
  Ok {| index := i; doc_lengths := l; doc_count := n; avg_doc_length := a;
        term_doc_freq := f; documents := d |}.

(** The pickle codec and the file system. [pickle] is not part of the
    repository: it is a pair of functions on an abstract type of file
    contents, of which the theorems assume that loading undoes dumping. *)
Section Persistence.
Context {Bytes : Type}.
Variable pickle_dumps : gmap string Pickled -> Bytes.
Variable pickle_loads : Bytes -> option (gmap string Pickled).

(** The file system maps a path to the contents of the file. *)

(** [save]: writes the pickled dict at [filepath]. *)
Definition save (idx : InvertedIndex) (filepath : pystr) (fs : gmap pystr Bytes)
  : gmap pystr Bytes :=
  <[filepath := pickle_dumps (save_data idx)]> fs.

(** [load]: reads it back. *)
Definition load (filepath : pystr) (fs : gmap pystr Bytes)
  : result InvertedIndex :=
  match fs !! filepath with
  | None => Raise FileNotFoundError
  | Some bytes =>
      match pickle_loads bytes with
      | None => Raise UnpicklingError
      | Some data => load_data data
      end
  end.
End Persistence.

(* --------------------------------------------------------------------- *)
(** ** [BM25Retriever]                                                    *)
(* --------------------------------------------------------------------- *)

(** The retriever object: [self.k1], [self.b] and [self.index] ([None]
    until [load_index] ran). An [InvertedIndex] object defines neither
    [__bool__] nor [__len__], so [not self.index] holds for [None] only. *)
Record BM25Retriever := {
  bm_k1 : R;
  bm_b : R;
  bm_index : option InvertedIndex
}.

(** [BM25Retriever(k1=1.5, b=0.75)] after [load_index]. *)
Definition default_retriever (idx : InvertedIndex) : BM25Retriever :=
  {| bm_k1 := 1.5; bm_b := 0.75; bm_index := Some idx |}.

(** Float division and [math.log], with the exceptions Python raises. *)
Definition py_div (x y : R) : result R :=
  if Req_dec_T y 0 then Raise ZeroDivisionError else Ok (x / y)%R.

Definition py_log (x : R) : result R :=
  if Rlt_dec 0 x then Ok (ln x) else Raise ValueError.

Definition compute_idf (self : BM25Retriever) (term : pystr) : result R :=
  match bm_index self with
  | None => Ok 0%R
  | Some idx =>
      let N := doc_count idx in
      let df := get_document_frequency idx term in
      if df =? 0 then Ok 0%R
      else
        q ← py_div (IZR N - IZR df + 0.5) (IZR df + 0.5);
        py_log (q + 1.0)
  end.

(** The inner loop of [compute_bm25_score]: the frequency of the first
    posting of the document, 0 when there is none. *)
Fixpoint find_tf (postings : list Posting) (doc_id : pystr) : Z :=
  match postings with
  | [] => 0
  | (posting_doc_id, freq) :: rest =>
      if bool_decide (posting_doc_id = doc_id) then freq
      else find_tf rest doc_id
  end.

(** One round of the loop over the query terms. *)
Definition score_term (self : BM25Retriever) (idx : InvertedIndex)
  (doc_id : pystr) (doc_length : Z) (avgdl : R) (score : R) (term : pystr)
  : result R :=
  idf ← compute_idf self term;
  if Req_dec_T idf 0 then Ok score
  else
    let tf := find_tf (get_postings idx term) doc_id in
    if tf =? 0 then Ok score
    else
      let numerator := (IZR tf * (bm_k1 self + 1))%R in
      ratio ← py_div (IZR doc_length) avgdl;
      let denominator :=
        (IZR tf + bm_k1 self * (1 - bm_b self + bm_b self * ratio))%R in
      q ← py_div numerator denominator;
      Ok (score + idf * q)%R.

Fixpoint score_terms (self : BM25Retriever) (idx : InvertedIndex)
  (doc_id : pystr) (doc_length : Z) (avgdl : R) (query_terms : list pystr)
  (score : R) : result R :=
  match query_terms with
  | [] => Ok score
  | term :: rest =>
      score ← score_term self idx doc_id doc_length avgdl score term;
      score_terms self idx doc_id doc_length avgdl rest score
  end.

Definition compute_bm25_score (self : BM25Retriever)
  (query_terms : list pystr) (doc_id : pystr) : result R :=
  match bm_index self with
  | None => Ok 0%R
  | Some idx =>
      let doc_length := default 0 (doc_lengths idx !! doc_id) in
      if doc_length =? 0 then Ok 0%R
      else
        let avgdl := avg_doc_length idx in
        score_terms self idx doc_id doc_length avgdl query_terms 0%R
  end.

(** An entry of [scored_docs]. *)
Record ScoredDoc := {
  sd_doc_id : pystr;
  sd_score : R;
  sd_title : PyValue;
  sd_url : PyValue;
  sd_language : PyValue
}.

(** An entry of [results]: a scored document with its annotations. *)
Record Hit := {
  hit_doc : ScoredDoc;
  hit_confidence : R;
  hit_caution : bool
}.

(** The dict that [search] returns, without its timing. The early return
    for an empty query has no [query_terms] entry. *)
Record SearchResults := {
  sr_query : PyValue;
  sr_query_terms : option (list pystr);
  sr_results : list Hit;
  sr_total_results : Z
}.

(** The sequence of [candidate_docs.add(doc_id)] calls. *)
Definition candidate_insertions (idx : InvertedIndex)
  (query_terms : list pystr) : list pystr :=
  term ← query_terms; fst <$> get_postings idx term.

(** [scored_docs.sort(key=lambda x: x['score'], reverse=True)]: a stable
    sort, equal scores keep their order. *)
Fixpoint insert_desc (x : ScoredDoc) (l : list ScoredDoc) : list ScoredDoc :=
  match l with
  | [] => [x]
  | y :: l' =>
      if Rlt_dec (sd_score x) (sd_score y) then y :: insert_desc x l'
      else x :: l
  end.

Definition sort_desc (l : list ScoredDoc) : list ScoredDoc :=
  foldr insert_desc [] l.

(** [l[:k]], for negative [k] too. *)
Definition slice_to {A} (l : list A) (k : Z) : list A :=
  if 0 <=? k then take (Z.to_nat k) l
  else take (Z.to_nat (Z.of_nat (length l) + k)) l.

(** Confidence and caution flag of one result. *)
Definition annotate (max_score : R) (sd : ScoredDoc) : Hit :=
  let confidence :=
    if Rlt_dec 0 max_score then (sd_score sd / max_score)%R else 0%R in
  {| hit_doc := sd;
     hit_confidence := confidence;
     hit_caution := if Rlt_dec confidence 0.3 then true else false |}.

Definition annotate_all (top_results : list ScoredDoc) : list Hit :=
  match top_results with
  | [] => []
  | first :: _ => annotate (sd_score first) <$> top_results
  end.

Section Search.
(** [candidate_docs] is a [set] of strings: the order in which the loop
    over it visits the identifiers is a function of the insertions that
    Python does not fix (it follows the hashes of the strings). *)
Variable set_order : list pystr -> list pystr.

(** The loop that scores the candidates. *)
Fixpoint score_candidates (self : BM25Retriever) (idx : InvertedIndex)
  (query_terms : list pystr) (candidate_docs : list pystr)
  : result (list ScoredDoc) :=
  match candidate_docs with
  | [] => Ok []
  | doc_id :: rest =>
      score ← compute_bm25_score self query_terms doc_id;
      if Rlt_dec 0 score then
        metadata ← getitem (documents idx) doc_id;
        title ← getitem metadata "title";
        url ← getitem metadata "url";
        language ← getitem metadata "language";
        scored_docs ← score_candidates self idx query_terms rest;
        Ok ({| sd_doc_id := doc_id; sd_score := score; sd_title := title;
               sd_url := url; sd_language := language |} :: scored_docs)
      else score_candidates self idx query_terms rest
  end.

Definition search (self : BM25Retriever) (query : PyValue) (top_k : Z)
  (language : pystr) : result SearchResults :=
  match bm_index self with
  | None => Raise ValueError
  | Some idx =>
      let query_terms := preprocess query language in
      match query_terms with
      | [] => Ok {| sr_query := query; sr_query_terms := None;
                    sr_results := []; sr_total_results := 0 |}
      | _ =>
          let candidate_docs :=
            set_order (candidate_insertions idx query_terms) in
          scored_docs ← score_candidates self idx query_terms candidate_docs;
          let scored_docs := sort_desc scored_docs in
          let top_results := slice_to scored_docs top_k in
          Ok {| sr_query := query; sr_query_terms := Some query_terms;
                sr_results := annotate_all top_results;
                sr_total_results := Z.of_nat (length scored_docs) |}
      end
  end.
End Search.

(* --------------------------------------------------------------------- *)
(** ** Reference notions used by the statements                           *)
(* --------------------------------------------------------------------- *)

Arguments build : simpl never.

(** The number of occurrences of a term in a token sequence. *)
Definition tf_in (term : pystr) (tokens : list pystr) : Z :=
  Z.of_nat (length (filter (fun t => t = term) tokens)).

(** The entries of a term in the table that [count_terms] builds. *)
Definition entries_of (term : pystr) (seen : list pystr) : list (pystr * Z) :=
  if decide (term ∈ seen) then [(term, tf_in term seen)] else [].

(** The documents of a corpus that contain a term. *)
Definition docs_with (term : pystr) (docs : list Doc) : list Doc :=
  filter (fun d => term ∈ d_tokens d) docs.

(** The number of tokens of a corpus. *)
Definition total_length (docs : list Doc) : Z :=
  foldr Z.add 0 ((fun d => Z.of_nat (length (d_tokens d))) <$> docs).

(** The first document of a corpus with a given identifier, and its
    tokens (none when there is no such document). *)
Definition find_doc (doc_id : pystr) (docs : list Doc) : option Doc :=
  List.find (fun d => bool_decide (d_id d = doc_id)) docs.

Definition tokens_of (doc_id : pystr) (docs : list Doc) : list pystr :=
  from_option d_tokens [] (find_doc doc_id docs).

(** A term has an entry in the postings map. *)
Definition indexed (idx : InvertedIndex) (term : pystr) : Prop :=
  is_Some (index idx !! term).

(** No term is indexed with an empty posting list. *)
Definition postings_nonempty (idx : InvertedIndex) : Prop :=
  forall term l, index idx !! term = Some l -> l <> [].

(** Every document of a corpus stores the metadata that [search] reads. *)
Definition searchable_metadata (docs : list Doc) : Prop :=
  Forall (fun d => is_Some (d_meta d !! "title")
                   /\ is_Some (d_meta d !! "url")
                   /\ is_Some (d_meta d !! "language")) docs.

(* --------------------------------------------------------------------- *)
(** ** The BM25 formula of the specification                              *)
(* --------------------------------------------------------------------- *)

(** [IDF(term) = ln((N - df + 0.5) / (df + 0.5) + 1.0)], 0 when [df = 0]. *)
Definition idf_formula (N df : Z) : R :=
  if df =? 0 then 0%R
  else ln ((IZR N - IZR df + 0.5) / (IZR df + 0.5) + 1.0).

(** The contribution of one query term to the score of a document. *)
Definition bm25_term (k1 b : R) (N df tf docLen : Z) (avgDocLen : R) : R :=
  (idf_formula N df
   * (IZR tf * (k1 + 1)
      / (IZR tf + k1 * (1 - b + b * (IZR docLen / avgDocLen)))))%R.

Definition sum_R (l : list R) : R := foldr Rplus 0%R l.
Arguments sum_R : simpl never.

(** The contribution of a term, read off an index. *)
Definition index_term (self : BM25Retriever) (idx : InvertedIndex)
  (doc_id : pystr) (term : pystr) : R :=
  bm25_term (bm_k1 self) (bm_b self) (doc_count idx)
            (get_document_frequency idx term)
            (find_tf (get_postings idx term) doc_id)
            (default 0 (doc_lengths idx !! doc_id))
            (avg_doc_length idx).

(** The denominator of that contribution. *)
Definition index_denominator (self : BM25Retriever) (idx : InvertedIndex)
  (doc_id : pystr) (term : pystr) : R :=
  (IZR (find_tf (get_postings idx term) doc_id)
   + bm_k1 self
     * (1 - bm_b self
        + bm_b self
          * (IZR (default 0%Z (doc_lengths idx !! doc_id))
             / avg_doc_length idx)))%R.

(** The contribution of a term, read off the corpus: [N] documents, [df]
    of them with the term, [tf] occurrences among the [docLen] tokens of
    the document. *)
Definition corpus_term (k1 b : R) (docs : list Doc) (avgDocLen : R)
  (doc_id : pystr) (term : pystr) : R :=
  bm25_term k1 b (Z.of_nat (length docs))
            (Z.of_nat (length (docs_with term docs)))
            (tf_in term (tokens_of doc_id docs))
            (Z.of_nat (length (tokens_of doc_id docs)))
            avgDocLen.

(* --------------------------------------------------------------------- *)
(** ** Changing one term frequency                                        *)
(* --------------------------------------------------------------------- *)

(** A posting list in which the postings of a document carry another
    frequency. *)
Definition set_freq (doc_id : pystr) (freq : Z) (postings : list Posting)
  : list Posting :=
  (fun p => if bool_decide (p.1 = doc_id) then (p.1, freq) else p)
    <$> postings.

(** The index in which the posting of [doc_id] for [term] carries the
    frequency [freq]; every other posting, the lengths, the counters and
    the average are those of [idx]. *)
Definition with_tf (idx : InvertedIndex) (term doc_id : pystr) (freq : Z)
  : InvertedIndex :=
  {| index := alter (set_freq doc_id freq) term (index idx);
     doc_lengths := doc_lengths idx;
     doc_count := doc_count idx;
     avg_doc_length := avg_doc_length idx;
     term_doc_freq := term_doc_freq idx;
     documents := documents idx |}.

(* --------------------------------------------------------------------- *)
(** ** Order of the results                                               *)
(* --------------------------------------------------------------------- *)

(** [x] does not come after [y] in a ranking by descending score. *)
Definition score_ge (x y : ScoredDoc) : Prop := (sd_score y <= sd_score x)%R.

(** The scored documents with a given score. *)
Definition with_score (s : R) (l : list ScoredDoc) : list ScoredDoc :=
  List.filter (fun sd => if Req_dec_T (sd_score sd) s then true else false) l.

(* --------------------------------------------------------------------- *)
(** ** Clean text                                                         *)
(* --------------------------------------------------------------------- *)

(** [[a-z0-9]]: what [tokenize] leaves of English text. *)
Definition is_lower_alnum (c : N) : bool :=
  between 0x61 0x7A c || between 0x30 0x39 c.

(** A token of clean text over an alphabet: not empty, all of its
    characters in the alphabet. *)
Definition clean_token (alphabet : N -> bool) (t : pystr) : Prop :=
  t <> [] /\ Forall (fun c => alphabet c = true) t.

(** The script that [tokenize] filters for. *)
Definition script_of (text : pystr) (language : pystr) : pystr :=
  if bool_decide (language = py "auto")
  then (if is_bangla text then py "bn" else py "en")
  else language.

(** The alphabet of the tokens of a script. *)
Definition alphabet_of (script : pystr) : N -> bool :=
  if bool_decide (script = py "bn") then is_bangla_char else is_lower_alnum.

(** The script filter of [tokenize] for a script. *)
Definition keep_script (script : pystr) (text : pystr) : pystr :=
  if bool_decide (script = py "bn") then keep_bangla text
  else keep_english text.

(** The stop words that [remove_stopwords] uses for tokens of a script. *)
Definition stopwords_for (script : pystr) (language : pystr) : list pystr :=
  let language :=
    if bool_decide (language = py "auto")
    then (if bool_decide (script = py "bn") then py "bn" else py "en")
    else language in
  if bool_decide (language = py "bn") then bangla_stopwords
  else english_stopwords.

(* --------------------------------------------------------------------- *)
(** ** Sample corpora and retrievers                                      *)
(* --------------------------------------------------------------------- *)

(** The metadata that [build_index_from_documents] stores. *)
Definition english_meta (title : string) (original_index : Z) : Metadata :=
  <["title" := PyStr (py title)]>
  (<["url" := PyStr []]>
  (<["language" := PyStr (py "en")]>
  (<["original_index" := PyInt original_index]> ∅))).

(** The document that [build_index_from_documents] adds for an English
    text at a position of the corpus. *)
Definition english_doc (i : string) (original_index : Z) (body : string)
  : Doc :=
  {| d_id := py "en_" ++ py i;
     d_tokens := preprocess (PyStr (py body)) (py "en");
     d_meta := english_meta body original_index |}.

(** One document with one token, with two and with three occurrences of
    its only term. *)
Definition single_car : list Doc := [ english_doc "0" 0 "car" ].
Definition double_car : list Doc := [ english_doc "0" 0 "car car" ].
Definition triple_car : list Doc := [ english_doc "0" 0 "car car car" ].

(** Two documents with the same text. *)
Definition two_cars : list Doc :=
  [ english_doc "0" 0 "car"; english_doc "1" 1 "car" ].

(** The corpus of the end-to-end example of the specification. *)
Definition dealers : list Doc :=
  [ english_doc "0" 0 "cheap car deals in dhaka";
    english_doc "1" 1 "expensive car dealership in chittagong" ].

(** A corpus that uses an identifier twice: the second document with the
    identifier [en_0] has no token. *)
Definition reused_id : list Doc :=
  [ english_doc "0" 0 "car"; english_doc "0" 1 ""; english_doc "1" 2 "bus" ].

(** A document without metadata. *)
Definition untitled : list Doc :=
  [ {| d_id := py "en_0"; d_tokens := [py "car"]; d_meta := ∅ |} ].

(** A retriever with chosen parameters. *)
Definition retriever (k1 b : R) (idx : InvertedIndex) : BM25Retriever :=
  {| bm_k1 := k1; bm_b := b; bm_index := Some idx |}.

(* --------------------------------------------------------------------- *)
(** ** Further operations of the retriever and of the index               *)
(* --------------------------------------------------------------------- *)

(** [BM25Retriever(index_path, k1, b)] and [load_index]: the retriever
    whose index is read from a file. *)
Definition load_index {Bytes : Type}
  (pickle_loads : Bytes -> option (gmap string Pickled))
  (self : BM25Retriever) (index_path : pystr) (fs : gmap pystr Bytes)
  : result BM25Retriever :=
  idx ← load pickle_loads index_path fs;
  Ok {| bm_k1 := bm_k1 self; bm_b := bm_b self; bm_index := Some idx |}.

(** A sequence of [add_document] calls on an index that exists already. *)
Definition extend (idx : InvertedIndex) (docs : list Doc) : InvertedIndex :=
  fold_left (fun idx d => add_document idx (d_id d) (d_tokens d) (d_meta d))
            docs idx.

(** An index with another average document length. *)
Definition with_avg (avg : R) (idx : InvertedIndex) : InvertedIndex :=
  {| index := index idx;
     doc_lengths := doc_lengths idx;
     doc_count := doc_count idx;
     avg_doc_length := avg;
     term_doc_freq := term_doc_freq idx;
     documents := documents idx |}.

(* --------------------------------------------------------------------- *)
(** ** Dicts in insertion order                                           *)
(* --------------------------------------------------------------------- *)

(** [d[key] = f(d.get(key))] on a dict that keeps insertion order: a key
    that is present keeps its place, a new key goes to the end. *)
Fixpoint odict_update {V : Type} (key : pystr) (f : option V -> V)
  (items : list (pystr * V)) : list (pystr * V) :=
  match items with
  | [] => [(key, f None)]
  | (k, v) :: rest =>
      if bool_decide (k = key) then (k, f (Some v)) :: rest
      else (k, v) :: odict_update key f rest
  end.

(** [self.index.items()] after the documents of a build phase: the
    insertions of [add_document] into [self.index], replayed on a dict in
    insertion order. *)
Definition index_items (docs : list Doc) : list (pystr * list Posting) :=
  fold_left
    (fun items d =>
       fold_left
         (fun items '(term, freq) =>
            odict_update term (fun o => default [] o ++ [(d_id d, freq)]) items)
         (count_terms (d_tokens d)) items)
    docs [].

(** [self.documents.items()] after the documents of a build phase. *)
Definition documents_items (docs : list Doc) : list (pystr * Metadata) :=
  fold_left (fun items d => odict_update (d_id d) (fun _ => d_meta d) items)
            docs [].

(* --------------------------------------------------------------------- *)
(** ** [build_index_from_documents] and [build_combined_index]            *)
(* --------------------------------------------------------------------- *)

(** [str(i)] of an [int]: its decimal numeral, with a sign when negative. *)
Definition str_int (i : Z) : pystr :=
  py (DecimalString.NilEmpty.string_of_int (Z.to_int i)).

(** [doc.get(key, '')] *)
Definition get_or_empty (doc : gmap string PyValue) (key : string) : PyValue :=
  default (PyStr []) (doc !! key).

Section Corpus.
(** The text of a list inside an f-string is made of the [repr] of its
    elements, which is not modelled. *)
Variable format_list : list PyValue -> pystr.

(** [f"{v}"] *)
Definition format (v : PyValue) : pystr :=
  match v with
  | PyNone => py "None"
  | PyBool true => py "True"
  | PyBool false => py "False"
  | PyInt i => str_int i
  | PyStr s => s
  | PyList l => format_list l
  end.

(** One round of the loop of [build_index_from_documents]: the identifier,
    the tokens and the metadata handed to [add_document] for the document
    at position [i]. *)
Definition indexed_document (language : pystr) (i : nat)
  (doc : gmap string PyValue) : Doc :=
  let doc_id := language ++ py "_" ++ str_int (Z.of_nat i) in
  let text := format (get_or_empty doc "title") ++ py " "
              ++ format (get_or_empty doc "body") in
  let tokens := preprocess (PyStr text) language in
  let metadata : Metadata :=
    <["title" := get_or_empty doc "title"]>
    (<["url" := get_or_empty doc "url"]>
    (<["language" := PyStr language]>
    (<["original_index" := PyInt (Z.of_nat i)]> ∅))) in
  {| d_id := doc_id; d_tokens := tokens; d_meta := metadata |}.

(** The [add_document] calls of [build_index_from_documents], in order,
    for the list of JSON objects that [load_documents] returns. *)
Definition corpus_of (documents : list (gmap string PyValue))
  (language : pystr) : list Doc :=
  imap (indexed_document language) documents.

Definition build_index_from_documents (documents : list (gmap string PyValue))
  (language : pystr) : InvertedIndex :=
  finalize (build (corpus_of documents language)).

(** The tokens that [build_combined_index] reads back from the postings:
    for each term of the index, in the order of the dict, as many copies of
    the term as the posting of the document says. *)
Definition reconstruct_tokens (items : list (pystr * list Posting))
  (doc_id : pystr) : list pystr :=
  '(term, postings) ← items;
  '(posting_doc_id, freq) ← postings;
  if bool_decide (posting_doc_id = doc_id)
  then replicate (Z.to_nat freq) term else [].

(** One of the two loops of [build_combined_index]: the documents of a
    language index are added to the combined index, each with the tokens
    read back from the postings. *)
Definition add_reconstructed (docs : list Doc) (combined_index : InvertedIndex)
  : InvertedIndex :=
  fold_left
    (fun combined_index '(doc_id, metadata) =>
       add_document combined_index doc_id
                    (reconstruct_tokens (index_items docs) doc_id) metadata)
    (documents_items docs) combined_index.

(** [build_combined_index], from the two document lists that
    [load_documents] has read. [path_join] is [output_path / name] of
    [pathlib]. The result is the three indices and the file system with the
    three files written. *)
Context {Bytes : Type}.
Variable pickle_dumps : gmap string Pickled -> Bytes.
Variable path_join : pystr -> pystr -> pystr.

Definition build_combined_index (bangla_docs english_docs
  : list (gmap string PyValue)) (output_dir : pystr) (fs : gmap pystr Bytes)
  : (InvertedIndex * InvertedIndex * InvertedIndex) * gmap pystr Bytes :=
  let bangla_index := build_index_from_documents bangla_docs (py "bn") in
  let english_index := build_index_from_documents english_docs (py "en") in
  let fs := save pickle_dumps bangla_index
                 (path_join output_dir (py "bangla_index.pkl")) fs in
  let fs := save pickle_dumps english_index
                 (path_join output_dir (py "english_index.pkl")) fs in
  let combined_index := empty_index in
  let combined_index :=
    add_reconstructed (corpus_of bangla_docs (py "bn")) combined_index in
  let combined_index :=
    add_reconstructed (corpus_of english_docs (py "en")) combined_index in
  let combined_index := finalize combined_index in
  let fs := save pickle_dumps combined_index
                 (path_join output_dir (py "combined_index.pkl")) fs in
  ((bangla_index, english_index, combined_index), fs).
End Corpus.

(** Two documents as [json.load] gives them, for examples. *)
Definition sample_documents : list (gmap string PyValue) :=
  [ <["title" := PyStr (py "Cheap car deals")]>
    (<["body" := PyStr (py "Visit http://cars.example for car deals in Dhaka")]>
    (<["url" := PyStr (py "http://cars.example/1")]> ∅));
    <["title" := PyInt 2024]>
    (<["body" := PyStr (py "Expensive car dealership in Chittagong")]> ∅) ].

(* ===================================================================== *)
(** * Part II. Properties                                                 *)
(* ===================================================================== *)

(** ** The build phase *)

Section BuildFacts.
Implicit Types (idx : InvertedIndex) (term doc_id : pystr)
               (tokens : list pystr) (docs : list Doc).

Lemma bump_filter_same token tf :
  filter (fun e => e.1 = token) (bump token tf)
  = match filter (fun e => e.1 = token) tf with
    | [] => [(token, 1)]
    | (t, n) :: rest => (t, n + 1) :: rest
    end.
Proof.
  induction tf as [|[t n] tf IH]; simpl.
  - rewrite filter_cons_True by done. done.
  - case_bool_decide as Ht.
    + subst t. rewrite !filter_cons_True by done. done.
    + rewrite !filter_cons_False by done. done.
Qed.

Lemma bump_filter_other token term tf :
  term <> token ->
  filter (fun e => e.1 = term) (bump token tf)
  = filter (fun e => e.1 = term) tf.
Proof.
  intros Hne. induction tf as [|[t n] tf IH]; simpl.
  - rewrite filter_cons_False by (simpl; congruence). done.
  - case_bool_decide as Ht.
    + subst t. rewrite !filter_cons_False by (simpl; congruence). done.
    + destruct (decide (t = term)) as [->|Hne'].
      * rewrite !filter_cons_True by done. by rewrite IH.
      * rewrite !filter_cons_False by done. done.
Qed.

Lemma tf_in_snoc term seen token :
  tf_in term (seen ++ [token])
  = tf_in term seen + (if decide (token = term) then 1 else 0).
Proof.
  unfold tf_in. rewrite filter_app, length_app.
  destruct (decide (token = term)) as [->|Hne].
  - rewrite filter_cons_True by done. simpl. lia.
  - rewrite filter_cons_False by done. simpl. lia.
Qed.

Lemma tf_in_not_elem term seen : term ∉ seen -> tf_in term seen = 0.
Proof.
  intros Hn. unfold tf_in.
  induction seen as [|t seen IH]; [done|].
  apply not_elem_of_cons in Hn as [Hne Hn].
  rewrite filter_cons_False by done. auto.
Qed.

Lemma tf_in_elem term seen : term ∈ seen -> 1 <= tf_in term seen.
Proof.
  unfold tf_in. induction seen as [|t seen IH]; [by intros ?%elem_of_nil|].
  intros Hin. destruct (decide (t = term)) as [->|Hne].
  - rewrite filter_cons_True by done. simpl. lia.
  - rewrite filter_cons_False by done.
    apply IH. apply elem_of_cons in Hin as [?|?]; [congruence|done].
Qed.

Lemma count_terms_from seen tokens tf :
  (forall term, filter (fun e => e.1 = term) tf = entries_of term seen) ->
  forall term,
    filter (fun e => e.1 = term)
           (fold_left (fun term_freq token => bump token term_freq) tokens tf)
    = entries_of term (seen ++ tokens).
Proof.
  revert seen tf. induction tokens as [|token tokens IH]; intros seen tf Htf term.
  - by rewrite app_nil_r.
  - simpl. replace (seen ++ token :: tokens) with ((seen ++ [token]) ++ tokens)
      by (by rewrite <- app_assoc).
    apply IH. clear term. intros term. unfold entries_of.
    destruct (decide (term = token)) as [->|Hne].
    + rewrite bump_filter_same, Htf. unfold entries_of.
      rewrite (decide_True (P := token ∈ seen ++ [token]))
        by (apply elem_of_app; right; apply list_elem_of_singleton; done).
      rewrite tf_in_snoc, (decide_True (P := token = token)) by done.
      destruct (decide (token ∈ seen)) as [Hin|Hnin]; [done|].
      by rewrite tf_in_not_elem.
    + rewrite bump_filter_other, Htf by done. unfold entries_of.
      rewrite tf_in_snoc, (decide_False (P := token = term)) by done.
      destruct (decide (term ∈ seen)) as [Hin|Hnin].
      * rewrite decide_True by (apply elem_of_app; by left). by rewrite Z.add_0_r.
      * rewrite decide_False; [done|].
        rewrite elem_of_app, list_elem_of_singleton. intros [?|?]; done.
Qed.

Lemma count_terms_entries tokens term :
  filter (fun e => e.1 = term) (count_terms tokens) = entries_of term tokens.
Proof. by apply (count_terms_from [] tokens []). Qed.

(** The second loop of [add_document] touches postings and counters only. *)
Lemma add_postings_fields doc_id tf idx :
  let idx' := fold_left (add_posting doc_id) tf idx in
  doc_lengths idx' = doc_lengths idx /\ doc_count idx' = doc_count idx /\
  avg_doc_length idx' = avg_doc_length idx /\ documents idx' = documents idx.
Proof.
  revert idx. induction tf as [|[term freq] tf IH]; intros idx; [done|].
  exact (IH (add_posting doc_id idx (term, freq))).
Qed.

Lemma add_postings_postings doc_id tf idx term :
  get_postings (fold_left (add_posting doc_id) tf idx) term
  = get_postings idx term
    ++ ((fun e => (doc_id, e.2)) <$> filter (fun e => e.1 = term) tf).
Proof.
  revert idx. induction tf as [|[t freq] tf IH]; intros idx; simpl.
  - by rewrite app_nil_r.
  - rewrite IH. unfold get_postings at 1. simpl.
    destruct (decide (t = term)) as [->|Hne].
    + rewrite lookup_insert_eq, filter_cons_True by done. simpl.
      by rewrite <- app_assoc.
    + rewrite lookup_insert_ne, filter_cons_False by done. done.
Qed.

Lemma add_postings_df doc_id tf idx term :
  get_document_frequency (fold_left (add_posting doc_id) tf idx) term
  = get_document_frequency idx term
    + Z.of_nat (length (filter (fun e => e.1 = term) tf)).
Proof.
  revert idx. induction tf as [|[t freq] tf IH]; intros idx; simpl.
  - lia.
  - rewrite IH. unfold get_document_frequency at 1. simpl.
    destruct (decide (t = term)) as [->|Hne].
    + rewrite lookup_insert_eq, filter_cons_True by done. simpl.
      unfold get_document_frequency. lia.
    + rewrite lookup_insert_ne, filter_cons_False by done. done.
Qed.

(** One [add_document] call, as seen through the accessors. *)
Lemma add_document_postings idx doc_id tokens metadata term :
  get_postings (add_document idx doc_id tokens metadata) term
  = get_postings idx term
    ++ (if decide (term ∈ tokens) then [(doc_id, tf_in term tokens)] else []).
Proof.
  unfold add_document, get_postings at 1. simpl.
  fold (get_postings (fold_left (add_posting doc_id) (count_terms tokens) idx) term).
  rewrite add_postings_postings, count_terms_entries. unfold entries_of.
  by destruct (decide (term ∈ tokens)).
Qed.

Lemma add_document_df idx doc_id tokens metadata term :
  get_document_frequency (add_document idx doc_id tokens metadata) term
  = get_document_frequency idx term
    + (if decide (term ∈ tokens) then 1 else 0).
Proof.
  unfold add_document, get_document_frequency at 1. simpl.
  fold (get_document_frequency
          (fold_left (add_posting doc_id) (count_terms tokens) idx) term).
  rewrite add_postings_df, count_terms_entries. unfold entries_of.
  by destruct (decide (term ∈ tokens)).
Qed.

Lemma add_document_lengths idx doc_id tokens metadata :
  doc_lengths (add_document idx doc_id tokens metadata)
  = <[doc_id := Z.of_nat (length tokens)]> (doc_lengths idx).
Proof.
  unfold add_document. simpl.
  by destruct (add_postings_fields doc_id (count_terms tokens) idx) as (-> & _).
Qed.

Lemma add_document_documents idx doc_id tokens metadata :
  documents (add_document idx doc_id tokens metadata)
  = <[doc_id := metadata]> (documents idx).
Proof.
  unfold add_document. simpl.
  by destruct (add_postings_fields doc_id (count_terms tokens) idx)
    as (_ & _ & _ & ->).
Qed.

Lemma add_document_count idx doc_id tokens metadata :
  doc_count (add_document idx doc_id tokens metadata) = doc_count idx + 1.
Proof.
  unfold add_document. simpl.
  by destruct (add_postings_fields doc_id (count_terms tokens) idx)
    as (_ & -> & _).
Qed.

Lemma add_document_avg idx doc_id tokens metadata :
  avg_doc_length (add_document idx doc_id tokens metadata)
  = avg_doc_length idx.
Proof.
  unfold add_document. simpl.
  by destruct (add_postings_fields doc_id (count_terms tokens) idx)
    as (_ & _ & -> & _).
Qed.

Lemma build_snoc docs d :
  build (docs ++ [d])
  = add_document (build docs) (d_id d) (d_tokens d) (d_meta d).
Proof. unfold build. by rewrite fold_left_app. Qed.

Lemma build_postings docs term :
  get_postings (build docs) term
  = (fun d => (d_id d, tf_in term (d_tokens d))) <$> docs_with term docs.
Proof.
  induction docs as [|d docs IH] using rev_ind; [done|].
  rewrite build_snoc, add_document_postings, IH.
  unfold docs_with. rewrite filter_app, fmap_app. f_equal.
  destruct (decide (term ∈ d_tokens d)).
  - by rewrite filter_cons_True.
  - by rewrite filter_cons_False.
Qed.

Lemma build_df docs term :
  get_document_frequency (build docs) term
  = Z.of_nat (length (docs_with term docs)).
Proof.
  induction docs as [|d docs IH] using rev_ind; [done|].
  rewrite build_snoc, add_document_df, IH.
  unfold docs_with. rewrite filter_app, length_app.
  destruct (decide (term ∈ d_tokens d)).
  - rewrite filter_cons_True by done. simpl. lia.
  - rewrite filter_cons_False by done. simpl. lia.
Qed.

Lemma build_count docs : doc_count (build docs) = Z.of_nat (length docs).
Proof.
  induction docs as [|d docs IH] using rev_ind; [done|].
  rewrite build_snoc, add_document_count, IH, length_app. simpl. lia.
Qed.

Lemma build_avg docs : avg_doc_length (build docs) = 0%R.
Proof.
  induction docs as [|d docs IH] using rev_ind; [done|].
  by rewrite build_snoc, add_document_avg.
Qed.

Lemma build_lengths_dom docs doc_id :
  is_Some (doc_lengths (build docs) !! doc_id) <-> doc_id ∈ d_id <$> docs.
Proof.
  induction docs as [|d docs IH] using rev_ind.
  - simpl. rewrite lookup_empty. split; [by intros [? ?]|by intros ?%elem_of_nil].
  - rewrite build_snoc, add_document_lengths, fmap_app, elem_of_app.
    rewrite lookup_insert_is_Some, IH. simpl. rewrite list_elem_of_singleton.
    destruct (decide (d_id d = doc_id)); intuition congruence.
Qed.

Lemma build_documents_dom docs doc_id :
  is_Some (documents (build docs) !! doc_id) <-> doc_id ∈ d_id <$> docs.
Proof.
  induction docs as [|d docs IH] using rev_ind.
  - simpl. rewrite lookup_empty. split; [by intros [? ?]|by intros ?%elem_of_nil].
  - rewrite build_snoc, add_document_documents, fmap_app, elem_of_app.
    rewrite lookup_insert_is_Some, IH. simpl. rewrite list_elem_of_singleton.
    destruct (decide (d_id d = doc_id)); intuition congruence.
Qed.
End BuildFacts.

(** ** The index invariants *)

Section IndexFacts.
Implicit Types (idx : InvertedIndex) (term doc_id : pystr)
               (docs : list Doc).

Lemma remove_dups_NoDup (l : list pystr) : NoDup l -> remove_dups l = l.
Proof.
  induction 1 as [|x l Hx Hl IH]; simpl; [done|].
  case_decide; [done|]. by rewrite IH.
Qed.

Lemma finalize_postings idx term :
  get_postings (finalize idx) term = get_postings idx term.
Proof. done. Qed.

Lemma finalize_df idx term :
  get_document_frequency (finalize idx) term
  = get_document_frequency idx term.
Proof. done. Qed.

Lemma build_posting_ids docs term :
  fst <$> get_postings (build docs) term = d_id <$> docs_with term docs.
Proof.
  rewrite build_postings, <- list_fmap_compose. done.
Qed.

Lemma build_posting_ids_NoDup docs term :
  NoDup (d_id <$> docs) -> NoDup (fst <$> get_postings (build docs) term).
Proof.
  intros Hnd. rewrite build_posting_ids.
  eapply sublist_NoDup; [exact Hnd|].
  apply fmap_sublist, sublist_filter.
Qed.

Lemma build_posting_known docs term doc_id :
  doc_id ∈ fst <$> get_postings (build docs) term -> doc_id ∈ d_id <$> docs.
Proof.
  rewrite build_posting_ids. intros Hin.
  eapply elem_of_sublist; [exact Hin|].
  apply fmap_sublist, sublist_filter.
Qed.

(** [sum] over the values of a dict. *)
Lemma sum_values_insert (m : gmap pystr Z) i x :
  m !! i = None -> sum_values (<[i := x]> m) = x + sum_values m.
Proof.
  intros Hi. unfold sum_values.
  rewrite map_fold_insert_L; [done| |done]. intros; lia.
Qed.

Lemma sum_values_delete (m : gmap pystr Z) i x :
  m !! i = Some x -> sum_values m = x + sum_values (delete i m).
Proof.
  intros Hi. unfold sum_values.
  rewrite (map_fold_delete_L _ _ i x m); [done| |done]. intros; lia.
Qed.

Lemma sum_values_nonneg (m : gmap pystr Z) :
  map_Forall (fun _ v => 0 <= v) m -> 0 <= sum_values m.
Proof.
  unfold sum_values.
  apply (map_fold_weak_ind
           (fun r m => map_Forall (fun _ v => 0 <= v) m -> 0 <= r)).
  - done.
  - intros i x m' r Hi IH Hall.
    apply map_Forall_insert in Hall as [Hx Hall]; [|done].
    specialize (IH Hall). lia.
Qed.

Lemma sum_values_ge (m : gmap pystr Z) i x :
  map_Forall (fun _ v => 0 <= v) m -> m !! i = Some x -> x <= sum_values m.
Proof.
  intros Hall Hi. rewrite (sum_values_delete m i x Hi).
  assert (0 <= sum_values (delete i m)); [|lia].
  apply sum_values_nonneg. intros j v Hj.
  apply lookup_delete_Some in Hj as [_ Hj]. by apply (Hall j).
Qed.

Lemma build_lengths_nonneg docs :
  map_Forall (fun _ v => 0 <= v) (doc_lengths (build docs)).
Proof.
  induction docs as [|d docs IH] using rev_ind; [done|].
  rewrite build_snoc, add_document_lengths.
  apply map_Forall_insert_2; [lia|done].
Qed.

(** The length recorded for a document of a corpus without repeated
    identifiers is the number of its tokens. *)
Lemma build_length_of docs d :
  NoDup (d_id <$> docs) -> d ∈ docs ->
  doc_lengths (build docs) !! d_id d = Some (Z.of_nat (length (d_tokens d))).
Proof.
  induction docs as [|d' docs IH] using rev_ind; [by intros _ ?%elem_of_nil|].
  rewrite fmap_app, build_snoc, add_document_lengths. simpl.
  intros [Hnd [Hdisj _]]%NoDup_app [Hin| ->%list_elem_of_singleton]%elem_of_app.
  - rewrite lookup_insert_ne; [by apply IH|].
    intros Heq. apply (Hdisj (d_id d)).
    + apply list_elem_of_fmap. eauto.
    + rewrite Heq. by apply list_elem_of_singleton.
  - by rewrite lookup_insert_eq.
Qed.

Lemma build_metadata_of docs d :
  NoDup (d_id <$> docs) -> d ∈ docs ->
  documents (build docs) !! d_id d = Some (d_meta d).
Proof.
  induction docs as [|d' docs IH] using rev_ind; [by intros _ ?%elem_of_nil|].
  rewrite fmap_app, build_snoc, add_document_documents. simpl.
  intros [Hnd [Hdisj _]]%NoDup_app [Hin| ->%list_elem_of_singleton]%elem_of_app.
  - rewrite lookup_insert_ne; [by apply IH|].
    intros Heq. apply (Hdisj (d_id d)).
    + apply list_elem_of_fmap. eauto.
    + rewrite Heq. by apply list_elem_of_singleton.
  - by rewrite lookup_insert_eq.
Qed.

(** The sum of the lengths of the documents of a corpus. *)
Lemma build_sum_lengths docs :
  NoDup (d_id <$> docs) ->
  sum_values (doc_lengths (build docs)) = total_length docs.
Proof.
  induction docs as [|d docs IH] using rev_ind; [done|].
  rewrite fmap_app, build_snoc, add_document_lengths. simpl.
  intros [Hnd [Hdisj _]]%NoDup_app.
  rewrite sum_values_insert.
  - rewrite IH by done. unfold total_length.
    rewrite fmap_app, foldr_app. simpl.
    generalize (Z.of_nat (length (d_tokens d))). intros z.
    induction ((fun d0 => Z.of_nat (length (d_tokens d0))) <$> docs) as [|y l IHl];
      simpl; lia.
  - apply eq_None_not_Some. rewrite build_lengths_dom. intros Hin.
    apply (Hdisj (d_id d)); [done|]. by apply list_elem_of_singleton.
Qed.
End IndexFacts.

(** C4. After each [add_document] call of a sequence with pairwise
    distinct identifiers, before and after [finalize]: the
    document-frequency counter of every term is the number of distinct
    document identifiers in its posting list, and every identifier in a
    posting list has a length entry and a metadata entry. *)
Theorem add_document_keeps_invariants (docs : list Doc) (calls : nat)
    (idx : InvertedIndex) :
  NoDup (d_id <$> docs) ->
  idx = build (take calls docs) \/ idx = finalize (build (take calls docs)) ->
  (forall term,
      get_document_frequency idx term
      = Z.of_nat (length (remove_dups (fst <$> get_postings idx term))))
  /\ (forall term doc_id,
        doc_id ∈ fst <$> get_postings idx term ->
        is_Some (doc_lengths idx !! doc_id)
        /\ is_Some (documents idx !! doc_id)).
Proof.
  intros Hnd Hidx.
  assert (NoDup (d_id <$> take calls docs)) as Hnd'.
  { eapply sublist_NoDup; [exact Hnd|]. apply fmap_sublist, sublist_take. }
  assert (forall term, get_postings idx term
                       = get_postings (build (take calls docs)) term) as Hp
    by (by destruct Hidx as [->| ->]).
  assert (forall term, get_document_frequency idx term
                       = get_document_frequency (build (take calls docs)) term)
    as Hf by (by destruct Hidx as [->| ->]).
  assert (doc_lengths idx = doc_lengths (build (take calls docs))) as Hl
    by (by destruct Hidx as [->| ->]).
  assert (documents idx = documents (build (take calls docs))) as Hd
    by (by destruct Hidx as [->| ->]).
  split.
  - intros term. rewrite Hf, Hp.
    rewrite remove_dups_NoDup by (by apply build_posting_ids_NoDup).
    rewrite build_df, build_posting_ids. by rewrite length_fmap.
  - intros term doc_id. rewrite Hp, Hl, Hd. intros Hin%build_posting_known.
    by rewrite build_lengths_dom, build_documents_dom.
Qed.

Lemma add_document_keeps_invariants_witness :
  get_document_frequency (build (take 1 two_cars)) (py "car")
  = Z.of_nat (length (remove_dups
                        (fst <$> get_postings (build (take 1 two_cars))
                                              (py "car")))).
Proof.
  refine (proj1 (add_document_keeps_invariants two_cars 1 _ _
                   (or_introl eq_refl)) _).
  apply (bool_decide_unpack _). vm_compute. exact I.
Defined.

(** What [finalize] stores as the average. *)
Lemma finalize_avg_value (docs : list Doc) :
  avg_doc_length (finalize (build docs))
  = if doc_count (build docs) =? 0 then 0%R
    else (IZR (sum_values (doc_lengths (build docs)))
          / IZR (doc_count (build docs)))%R.
Proof.
  simpl. rewrite build_count, build_avg.
  destruct docs as [|d docs]; [done|].
  replace (0 <? Z.of_nat (length (d :: docs))) with true
    by (symmetry; apply Z.ltb_lt; simpl; lia).
  replace (Z.of_nat (length (d :: docs)) =? 0) with false
    by (symmetry; apply Z.eqb_neq; simpl; lia).
  done.
Qed.


(** For a corpus without repeated identifiers the recorded lengths are the
    token counts of its documents, so the average is their mean. *)
Lemma finalize_average_of_corpus (docs : list Doc) :
  NoDup (d_id <$> docs) -> docs <> [] ->
  avg_doc_length (finalize (build docs))
  = (IZR (total_length docs) / IZR (Z.of_nat (length docs)))%R.
Proof.
  intros Hnd Hne.
  rewrite finalize_avg_value, build_count, build_sum_lengths by done.
  destruct docs as [|d docs]; [done|].
  replace (Z.of_nat (length (d :: docs)) =? 0) with false
    by (symmetry; apply Z.eqb_neq; simpl; lia).
  done.
Qed.

Lemma docs_with_absent (docs : list Doc) (term : pystr) :
  (forall d, d ∈ docs -> term ∉ d_tokens d) -> docs_with term docs = [].
Proof.
  unfold docs_with. induction docs as [|d docs IH]; intros Hterm; [done|].
  rewrite filter_cons_False.
  - apply IH. intros d' Hd'. apply Hterm. by right.
  - apply Hterm. by left.
Qed.

(** C9. A term that was never added has the empty posting list and
    document frequency 0, and [preprocess] gives no token for the empty
    string and for a value that is not a string; none of these can raise. *)
Theorem unknown_lookups_are_neutral (docs : list Doc) (term : pystr)
    (idx : InvertedIndex) (text : PyValue) (language : pystr) :
  (forall d, d ∈ docs -> term ∉ d_tokens d) ->
  idx = build docs \/ idx = finalize (build docs) ->
  text = PyStr [] \/ (forall s, text <> PyStr s) ->
  get_postings idx term = []
  /\ get_document_frequency idx term = 0
  /\ preprocess text language = [].
Proof.
  intros Hterm Hidx Htext.
  pose proof (docs_with_absent docs term Hterm) as Hnone.
  split; [|split].
  - destruct Hidx as [->| ->]; rewrite ?finalize_postings, build_postings;
      by rewrite Hnone.
  - destruct Hidx as [->| ->]; rewrite ?finalize_df, build_df; by rewrite Hnone.
  - destruct Htext as [->|Hns]; [done|].
    destruct text; try done. by destruct (Hns s).
Qed.

Lemma unknown_lookups_are_neutral_witness :
  get_postings (finalize (build two_cars)) (py "bus") = []
  /\ get_document_frequency (finalize (build two_cars)) (py "bus") = 0
  /\ preprocess PyNone (py "auto") = [].
Proof.
  apply (unknown_lookups_are_neutral two_cars (py "bus") _ PyNone (py "auto")).
  - intros d [->|[->|[]%elem_of_nil]%elem_of_cons]%elem_of_cons;
      apply (bool_decide_unpack _); vm_compute; exact I.
  - by right.
  - by right.
Defined.

(** ** Persistence *)

Lemma load_save_data (idx : InvertedIndex) : load_data (save_data idx) = Ok idx.
Proof.
  unfold load_data, save_data, getitem.
  repeat (rewrite ?lookup_insert_eq; rewrite ?lookup_insert_ne by done; simpl).
  by destruct idx.
Qed.

(** C6. Saving an index and loading the file again gives an index with the
    same posting lists, the same document frequencies and the same average
    document length; [pickle] is assumed to load what it dumped. *)
Theorem save_load_round_trip {Bytes : Type}
    (pickle_dumps : gmap string Pickled -> Bytes)
    (pickle_loads : Bytes -> option (gmap string Pickled))
    (idx : InvertedIndex) (filepath : pystr) (fs : gmap pystr Bytes) :
  (forall data, pickle_loads (pickle_dumps data) = Some data) ->
  exists idx',
    load pickle_loads filepath (save pickle_dumps idx filepath fs) = Ok idx'
    /\ (forall term, get_postings idx' term = get_postings idx term)
    /\ (forall term, get_document_frequency idx' term
                     = get_document_frequency idx term)
    /\ avg_doc_length idx' = avg_doc_length idx.
Proof.
  intros Hpickle. exists idx. split; [|done].
  unfold load, save. rewrite lookup_insert_eq, Hpickle. apply load_save_data.
Qed.

Lemma save_load_round_trip_witness :
  exists idx',
    load Some (py "index.pkl")
         (save (fun data => data) (finalize (build two_cars))
               (py "index.pkl") ∅) = Ok idx'
    /\ (forall term, get_postings idx' term
                     = get_postings (finalize (build two_cars)) term)
    /\ (forall term, get_document_frequency idx' term
                     = get_document_frequency (finalize (build two_cars)) term)
    /\ avg_doc_length idx' = avg_doc_length (finalize (build two_cars)).
Proof.
  apply (save_load_round_trip (fun data => data) Some). done.
Defined.

(** ** Scoring *)

Section ScoreFacts.
Implicit Types (self : BM25Retriever) (idx : InvertedIndex)
               (term doc_id : pystr) (docs : list Doc).
Open Scope R_scope.

Lemma py_div_ok x y : y <> 0 -> py_div x y = Ok (x / y).
Proof. intros Hy. unfold py_div. by destruct (Req_dec_T y 0). Qed.

Lemma py_div_zero x : py_div x 0 = Raise ZeroDivisionError.
Proof. unfold py_div. by destruct (Req_dec_T 0 0). Qed.

Lemma py_log_ok x : 0 < x -> py_log x = Ok (ln x).
Proof. intros Hx. unfold py_log. by destruct (Rlt_dec 0 x). Qed.

Lemma div_nonneg x y : 0 <= x -> 0 < y -> 0 <= x / y.
Proof. intros Hx Hy. unfold Rdiv. by apply Rle_mult_inv_pos. Qed.

Lemma IZR_ge_1 (z : Z) : (1 <= z)%Z -> 1 <= IZR z.
Proof. apply IZR_le. Qed.

Lemma IZR_nonneg (z : Z) : (0 <= z)%Z -> 0 <= IZR z.
Proof. apply IZR_le. Qed.

(** The argument of the logarithm is [(N + 1) / (df + 0.5)]. *)
Lemma idf_argument (N df : Z) :
  (1 <= df)%Z ->
  (IZR N - IZR df + 0.5) / (IZR df + 0.5) + 1.0
  = (IZR N + 1) / (IZR df + 0.5).
Proof.
  intros Hdf%IZR_ge_1.
  replace 0.5 with (1 / 2) by lra. replace 1.0 with 1 by lra. field. lra.
Qed.

Lemma compute_idf_formula self idx term :
  bm_index self = Some idx ->
  (0 <= doc_count idx)%Z ->
  (0 <= get_document_frequency idx term)%Z ->
  compute_idf self term
  = Ok (idf_formula (doc_count idx) (get_document_frequency idx term)).
Proof.
  intros Hidx HN Hdf. unfold compute_idf, idf_formula. rewrite Hidx.
  destruct (Z.eqb_spec (get_document_frequency idx term) 0) as [|Hne]; [done|].
  assert (1 <= get_document_frequency idx term)%Z as Hdf1 by lia.
  pose proof (IZR_ge_1 _ Hdf1). pose proof (IZR_nonneg _ HN).
  rewrite py_div_ok by lra. simpl.
  apply py_log_ok. rewrite idf_argument by done.
  apply Rdiv_lt_0_compat; lra.
Qed.

Lemma idf_formula_pos (N df : Z) :
  (1 <= df <= N)%Z -> 0 < idf_formula N df.
Proof.
  intros [Hdf HN]. unfold idf_formula.
  destruct (Z.eqb_spec df 0) as [|_]; [lia|].
  pose proof (IZR_ge_1 _ Hdf). pose proof (IZR_le _ _ HN).
  rewrite <- ln_1. apply ln_increasing; [lra|].
  assert (0 < (IZR N - IZR df + 0.5) / (IZR df + 0.5)); [|lra].
  apply Rdiv_lt_0_compat; lra.
Qed.

Lemma idf_formula_nonneg (N df : Z) :
  (0 <= df <= N)%Z -> 0 <= idf_formula N df.
Proof.
  intros [Hdf HN]. destruct (decide (df = 0%Z)) as [->|Hne]; [by right|].
  left. apply idf_formula_pos. lia.
Qed.

Lemma sum_R_nil : sum_R [] = 0.
Proof. done. Qed.

Lemma sum_R_cons (x : R) (l : list R) : sum_R (x :: l) = x + sum_R l.
Proof. done. Qed.


Lemma sum_R_nonneg (l : list R) : Forall (fun x => 0 <= x) l -> 0 <= sum_R l.
Proof.
  induction 1 as [|x l Hx _ IH]; [rewrite sum_R_nil; lra|].
  rewrite sum_R_cons. lra.
Qed.

Lemma sum_R_zero (l : list R) : Forall (fun x => x = 0) l -> sum_R l = 0.
Proof.
  induction 1 as [|x l Hx _ IH]; [done|].
  rewrite sum_R_cons, Hx, IH. lra.
Qed.

Lemma sum_R_le {A} (f g : A -> R) (l : list A) :
  (forall x, x ∈ l -> f x <= g x) -> sum_R (f <$> l) <= sum_R (g <$> l).
Proof.
  induction l as [|x l IH]; intros Hfg; [rewrite !fmap_nil, sum_R_nil; lra|].
  rewrite !fmap_cons, !sum_R_cons.
  assert (f x <= g x) by (apply Hfg; by left).
  assert (sum_R (f <$> l) <= sum_R (g <$> l)); [|lra].
  apply IH. intros y Hy. apply Hfg. by right.
Qed.

(** A term that is absent from the corpus or from the document
    contributes nothing. *)
Lemma bm25_term_no_df k1 b N tf docLen avg :
  bm25_term k1 b N 0 tf docLen avg = 0.
Proof. unfold bm25_term, idf_formula. simpl. lra. Qed.

Lemma bm25_term_no_tf k1 b N df docLen avg :
  bm25_term k1 b N df 0 docLen avg = 0.
Proof. unfold bm25_term, Rdiv. lra. Qed.

(** With parameters in their usual ranges the denominator is positive. *)
Lemma denominator_pos k1 b (tf docLen : Z) avg :
  0 <= k1 -> 0 <= b <= 1 -> (1 <= tf)%Z -> (0 <= docLen)%Z -> 0 < avg ->
  0 < IZR tf + k1 * (1 - b + b * (IZR docLen / avg)).
Proof.
  intros Hk Hb Htf%IZR_ge_1 Hlen%IZR_nonneg Havg.
  assert (0 <= IZR docLen / avg) by (apply div_nonneg; lra).
  assert (0 <= b * (IZR docLen / avg)) by (apply Rmult_le_pos; lra).
  assert (0 <= k1 * (1 - b + b * (IZR docLen / avg)))
    by (apply Rmult_le_pos; lra).
  lra.
Qed.

Lemma bm25_term_nonneg k1 b N df tf docLen avg :
  0 <= k1 -> 0 <= b <= 1 -> (0 <= df <= N)%Z -> (0 <= tf)%Z ->
  (0 <= docLen)%Z -> 0 < avg ->
  0 <= bm25_term k1 b N df tf docLen avg.
Proof.
  intros Hk Hb Hdf Htf Hlen Havg.
  destruct (decide (tf = 0%Z)) as [->|Hne]; [rewrite bm25_term_no_tf; lra|].
  unfold bm25_term. apply Rmult_le_pos; [by apply idf_formula_nonneg|].
  pose proof (denominator_pos k1 b tf docLen avg Hk Hb ltac:(lia) Hlen Havg).
  pose proof (IZR_nonneg tf Htf).
  apply div_nonneg; [|done]. apply Rmult_le_pos; lra.
Qed.

Lemma bm25_term_pos k1 b N df tf docLen avg :
  0 <= k1 -> 0 <= b <= 1 -> (1 <= df <= N)%Z -> (1 <= tf)%Z ->
  (0 <= docLen)%Z -> 0 < avg ->
  0 < bm25_term k1 b N df tf docLen avg.
Proof.
  intros Hk Hb Hdf Htf Hlen Havg.
  unfold bm25_term. apply Rmult_lt_0_compat; [by apply idf_formula_pos|].
  pose proof (denominator_pos k1 b tf docLen avg Hk Hb Htf Hlen Havg).
  pose proof (IZR_ge_1 tf Htf).
  apply Rdiv_lt_0_compat; [|done]. apply Rmult_lt_0_compat; lra.
Qed.

(** More occurrences, larger contribution. *)
Lemma bm25_term_mono k1 b N df tf tf' docLen avg :
  0 <= k1 -> 0 <= b <= 1 -> (0 <= df <= N)%Z -> (0 <= tf <= tf')%Z ->
  (0 <= docLen)%Z -> 0 < avg ->
  bm25_term k1 b N df tf docLen avg <= bm25_term k1 b N df tf' docLen avg.
Proof.
  intros Hk Hb Hdf [Htf Hle] Hlen Havg.
  destruct (decide (tf = 0%Z)) as [->|Hne].
  { rewrite bm25_term_no_tf. apply bm25_term_nonneg; try done. }
  unfold bm25_term. apply Rmult_le_compat_l; [by apply idf_formula_nonneg|].
  pose proof (denominator_pos k1 b tf docLen avg Hk Hb ltac:(lia) Hlen Havg) as Hd.
  pose proof (denominator_pos k1 b tf' docLen avg Hk Hb ltac:(lia) Hlen Havg) as Hd'.
  pose proof (IZR_le _ _ Hle) as Hle'. pose proof (IZR_ge_1 tf ltac:(lia)).
  set (K := k1 * (1 - b + b * (IZR docLen / avg))) in *.
  assert (0 <= K).
  { unfold K. apply Rmult_le_pos; [lra|].
    assert (0 <= IZR docLen / avg)
      by (apply div_nonneg; [by apply IZR_nonneg|lra]).
    assert (0 <= b * (IZR docLen / avg)) by (apply Rmult_le_pos; lra). lra. }
  apply (Rmult_le_reg_r (IZR tf + K)); [done|].
  apply (Rmult_le_reg_r (IZR tf' + K)); [done|].
  replace (IZR tf * (k1 + 1) / (IZR tf + K) * (IZR tf + K) * (IZR tf' + K))
    with (IZR tf * (k1 + 1) * (IZR tf' + K)) by (field; lra).
  replace (IZR tf' * (k1 + 1) / (IZR tf' + K) * (IZR tf + K) * (IZR tf' + K))
    with (IZR tf' * (k1 + 1) * (IZR tf + K)) by (field; lra).
  assert (IZR tf * K <= IZR tf' * K) by (apply Rmult_le_compat_r; lra).
  nra.
Qed.
End ScoreFacts.

Section ScoreOnIndex.
Implicit Types (self : BM25Retriever) (idx : InvertedIndex)
               (term doc_id : pystr) (docs : list Doc).
Open Scope R_scope.

Lemma score_term_formula self idx doc_id score term :
  bm_index self = Some idx ->
  (0 <= doc_count idx)%Z ->
  (0 <= get_document_frequency idx term)%Z ->
  avg_doc_length idx <> 0 ->
  (find_tf (get_postings idx term) doc_id <> 0%Z ->
   index_denominator self idx doc_id term <> 0) ->
  score_term self idx doc_id (default 0%Z (doc_lengths idx !! doc_id))
             (avg_doc_length idx) score term
  = Ok (score + index_term self idx doc_id term).
Proof.
  intros Hidx HN Hdf Havg Hden. unfold score_term.
  rewrite (compute_idf_formula self idx term Hidx HN Hdf). simpl.
  unfold index_term, bm25_term.
  destruct (Req_dec_T _ 0) as [Hz|Hnz].
  { rewrite Hz. f_equal. lra. }
  destruct (Z.eqb_spec (find_tf (get_postings idx term) doc_id) 0) as [Hz|Htf].
  { rewrite Hz. f_equal. unfold Rdiv. lra. }
  rewrite py_div_ok by done. simpl.
  rewrite py_div_ok by (by apply Hden). done.
Qed.

Lemma score_terms_formula self idx doc_id query_terms score :
  bm_index self = Some idx ->
  (0 <= doc_count idx)%Z ->
  (forall term, (0 <= get_document_frequency idx term)%Z) ->
  avg_doc_length idx <> 0 ->
  (forall term, term ∈ query_terms ->
     find_tf (get_postings idx term) doc_id <> 0%Z ->
     index_denominator self idx doc_id term <> 0) ->
  score_terms self idx doc_id (default 0%Z (doc_lengths idx !! doc_id))
              (avg_doc_length idx) query_terms score
  = Ok (score + sum_R (index_term self idx doc_id <$> query_terms)).
Proof.
  intros Hidx HN Hdf Havg. revert score.
  induction query_terms as [|term rest IH]; intros score Hden.
  - simpl. rewrite sum_R_nil. f_equal. lra.
  - rewrite fmap_cons, sum_R_cons. simpl.
    rewrite score_term_formula; try done; [|apply Hden; by left]. simpl.
    rewrite IH by (intros t Ht; apply Hden; by right).
    f_equal. lra.
Qed.

Lemma compute_bm25_score_formula self idx doc_id query_terms :
  bm_index self = Some idx ->
  (0 <= doc_count idx)%Z ->
  (forall term, (0 <= get_document_frequency idx term)%Z) ->
  default 0%Z (doc_lengths idx !! doc_id) <> 0%Z ->
  avg_doc_length idx <> 0 ->
  (forall term, term ∈ query_terms ->
     find_tf (get_postings idx term) doc_id <> 0%Z ->
     index_denominator self idx doc_id term <> 0) ->
  compute_bm25_score self query_terms doc_id
  = Ok (sum_R (index_term self idx doc_id <$> query_terms)).
Proof.
  intros Hidx HN Hdf Hlen Havg Hden. unfold compute_bm25_score.
  rewrite Hidx. simpl.
  destruct (Z.eqb_spec (default 0%Z (doc_lengths idx !! doc_id)) 0); [done|].
  rewrite score_terms_formula by done. f_equal. lra.
Qed.

Lemma compute_bm25_score_no_length self idx doc_id query_terms :
  bm_index self = Some idx ->
  default 0%Z (doc_lengths idx !! doc_id) = 0%Z ->
  compute_bm25_score self query_terms doc_id = Ok 0.
Proof.
  intros Hidx Hlen. unfold compute_bm25_score. rewrite Hidx. simpl.
  by rewrite Hlen.
Qed.

(** *** The statistics of a built index *)

Lemma build_df_bounds docs term :
  (0 <= get_document_frequency (build docs) term <= doc_count (build docs))%Z.
Proof.
  rewrite build_df, build_count. unfold docs_with.
  pose proof (length_filter (fun d => term ∈ d_tokens d) docs). lia.
Qed.

Lemma built_df_nonneg docs term :
  (0 <= get_document_frequency (finalize (build docs)) term)%Z.
Proof. rewrite finalize_df. apply build_df_bounds. Qed.

Lemma built_count_nonneg docs : (0 <= doc_count (finalize (build docs)))%Z.
Proof. simpl. rewrite build_count. lia. Qed.

Lemma find_tf_bounds (l : list Doc) term doc_id :
  (0 <= find_tf ((fun d => (d_id d, tf_in term (d_tokens d))) <$> l) doc_id)%Z.
Proof.
  induction l as [|d l IH]; simpl; [done|].
  case_bool_decide; [|done]. unfold tf_in. lia.
Qed.

Lemma build_find_tf_nonneg docs term doc_id :
  (0 <= find_tf (get_postings (build docs) term) doc_id)%Z.
Proof. rewrite build_postings. apply find_tf_bounds. Qed.

Lemma build_length_nonneg docs doc_id :
  (0 <= default 0 (doc_lengths (build docs) !! doc_id))%Z.
Proof.
  destruct (doc_lengths (build docs) !! doc_id) as [v|] eqn:Hv; [|done].
  by apply (build_lengths_nonneg docs doc_id v).
Qed.

(** After [finalize] the average is positive as soon as some document
    has a length other than 0. *)
Lemma finalize_avg_pos docs doc_id :
  default 0%Z (doc_lengths (build docs) !! doc_id) <> 0%Z ->
  0 < avg_doc_length (finalize (build docs)).
Proof.
  intros Hlen.
  destruct (doc_lengths (build docs) !! doc_id) as [v|] eqn:Hv; [|done].
  simpl in Hlen.
  pose proof (build_lengths_nonneg docs doc_id v Hv) as Hv0. simpl in Hv0.
  pose proof (sum_values_ge _ _ _ (build_lengths_nonneg docs) Hv) as Hsum.
  rewrite finalize_avg_value, build_count.
  destruct docs as [|d docs]; [done|].
  replace (Z.of_nat (length (d :: docs)) =? 0)%Z with false
    by (symmetry; apply Z.eqb_neq; simpl; lia).
  apply Rdiv_lt_0_compat; apply IZR_lt; simpl; lia.
Qed.
End ScoreOnIndex.

(** ** The score, read off the corpus *)

Section ScoreOnCorpus.
Implicit Types (self : BM25Retriever) (term doc_id : pystr)
               (docs : list Doc).
Open Scope R_scope.

Lemma find_doc_Some doc_id docs d :
  find_doc doc_id docs = Some d -> d ∈ docs /\ d_id d = doc_id.
Proof.
  intros [Hin Hid]%find_some. split; [by apply list_elem_of_In|].
  by apply bool_decide_eq_true in Hid.
Qed.

Lemma find_doc_None doc_id docs :
  find_doc doc_id docs = None -> doc_id ∉ d_id <$> docs.
Proof.
  intros Hnone (d & -> & Hin)%list_elem_of_fmap.
  apply list_elem_of_In in Hin.
  pose proof (find_none _ _ Hnone d Hin) as Hd. simpl in Hd.
  by apply bool_decide_eq_false in Hd.
Qed.

Lemma find_tf_absent (g : Doc -> Z) (l : list Doc) doc_id :
  doc_id ∉ d_id <$> l ->
  find_tf ((fun d => (d_id d, g d)) <$> l) doc_id = 0%Z.
Proof.
  induction l as [|d l IH]; [done|]. rewrite fmap_cons.
  intros [Hne Hnin]%not_elem_of_cons. simpl.
  rewrite bool_decide_eq_false_2 by done. by apply IH.
Qed.

Lemma build_find_tf docs term doc_id :
  NoDup (d_id <$> docs) ->
  find_tf (get_postings (build docs) term) doc_id
  = tf_in term (tokens_of doc_id docs).
Proof.
  rewrite build_postings. unfold tokens_of, find_doc, docs_with.
  induction docs as [|d docs IH]; [done|].
  rewrite fmap_cons. intros [Hd Hnd]%NoDup_cons. simpl.
  specialize (IH Hnd).
  destruct (decide (term ∈ d_tokens d)) as [Hin|Hnin].
  - rewrite filter_cons_True by done. simpl.
    case_bool_decide; [done|]. apply IH.
  - rewrite filter_cons_False by done.
    case_bool_decide as Hid; [|apply IH]. simpl.
    rewrite tf_in_not_elem by done. apply find_tf_absent.
    intros Hin. apply Hd. rewrite Hid.
    eapply elem_of_sublist; [exact Hin|].
    apply fmap_sublist, sublist_filter.
Qed.

Lemma build_doc_length docs doc_id :
  NoDup (d_id <$> docs) ->
  default 0%Z (doc_lengths (build docs) !! doc_id)
  = Z.of_nat (length (tokens_of doc_id docs)).
Proof.
  intros Hnd. unfold tokens_of.
  destruct (find_doc doc_id docs) as [d|] eqn:Hfind.
  - apply find_doc_Some in Hfind as [Hin <-].
    by rewrite build_length_of.
  - apply find_doc_None in Hfind.
    destruct (doc_lengths (build docs) !! doc_id) eqn:Hl; [|done].
    exfalso. apply Hfind, build_lengths_dom. by rewrite Hl.
Qed.

Lemma index_term_of_corpus self docs doc_id term :
  NoDup (d_id <$> docs) ->
  index_term self (finalize (build docs)) doc_id term
  = corpus_term (bm_k1 self) (bm_b self) docs
                (avg_doc_length (finalize (build docs))) doc_id term.
Proof.
  intros Hnd. unfold index_term, corpus_term.
  rewrite finalize_postings, finalize_df.
  change (doc_count (finalize (build docs))) with (doc_count (build docs)).
  change (doc_lengths (finalize (build docs))) with (doc_lengths (build docs)).
  by rewrite build_count, build_df, build_find_tf, build_doc_length.
Qed.
End ScoreOnCorpus.

(** C3 (amended). For an index built from documents with pairwise
    distinct identifiers and finalized, with a positive average document
    length, and for parameters [0 <= k1] and [0 <= b <= 1]:
    [compute_bm25_score] returns the sum over the query terms of
    [IDF * (tf * (k1 + 1)) / (tf + k1 * (1 - b + b * docLen / avgDocLen))];
    a term with [df = 0] or [tf = 0] contributes 0 and the score is not
    negative. *)
Theorem bm25_score_is_the_formula (docs : list Doc) (self : BM25Retriever)
    (query_terms : list pystr) (doc_id : pystr) :
  NoDup (d_id <$> docs) ->
  bm_index self = Some (finalize (build docs)) ->
  (0 < avg_doc_length (finalize (build docs)))%R ->
  (0 <= bm_k1 self)%R ->
  (0 <= bm_b self <= 1)%R ->
  let contribution :=
    corpus_term (bm_k1 self) (bm_b self) docs
                (avg_doc_length (finalize (build docs))) doc_id in
  compute_bm25_score self query_terms doc_id
  = Ok (sum_R (contribution <$> query_terms))
  /\ (forall term,
        docs_with term docs = [] \/ tf_in term (tokens_of doc_id docs) = 0 ->
        contribution term = 0%R)
  /\ (0 <= sum_R (contribution <$> query_terms))%R.
Proof.
  intros Hnd Hidx Havg Hk Hb contribution.
  assert (forall term, (0 <= contribution term)%R) as Hpos.
  { intros term. unfold contribution, corpus_term.
    apply bm25_term_nonneg; try done; try lia.
    - split; [lia|]. unfold docs_with.
      pose proof (length_filter (fun d => term ∈ d_tokens d) docs). lia.
    - unfold tf_in. lia. }
  assert (forall term,
            docs_with term docs = [] \/ tf_in term (tokens_of doc_id docs) = 0 ->
            contribution term = 0%R) as Hzero.
  { intros term [Hdf|Htf]; unfold contribution, corpus_term.
    - rewrite Hdf. apply bm25_term_no_df.
    - rewrite Htf. apply bm25_term_no_tf. }
  split; [|split; [done|]].
  - destruct (decide (tokens_of doc_id docs = [])) as [Hnil|Hsome].
    + rewrite (compute_bm25_score_no_length self (finalize (build docs)));
        [|done|].
      * f_equal. symmetry. apply sum_R_zero, Forall_fmap, Forall_forall.
        intros term _. apply Hzero. right. by rewrite Hnil.
      * change (doc_lengths (finalize (build docs)))
          with (doc_lengths (build docs)).
        rewrite build_doc_length by done. by rewrite Hnil.
    + assert (default 0 (doc_lengths (build docs) !! doc_id) <> 0) as Hlen.
      { rewrite build_doc_length by done.
        destruct (tokens_of doc_id docs); [done|simpl; lia]. }
      rewrite (compute_bm25_score_formula self (finalize (build docs)));
        try done.
      * f_equal. f_equal. apply list_fmap_ext. intros i term _.
        by apply index_term_of_corpus.
      * apply built_count_nonneg.
      * apply built_df_nonneg.
      * lra.
      * intros term _ Htf. unfold index_denominator.
        rewrite finalize_postings in *.
        change (doc_lengths (finalize (build docs)))
          with (doc_lengths (build docs)).
        pose proof (build_find_tf_nonneg docs term doc_id).
        apply Rgt_not_eq, Rlt_gt, denominator_pos; try done; try lia.
        apply build_length_nonneg.
  - apply sum_R_nonneg, Forall_fmap, Forall_forall. intros term _. apply Hpos.
Qed.

(** Evaluation of a closed integer expression. *)
Ltac eval_Z t :=
  let v := eval vm_compute in t in
  replace t with v by (vm_compute; reflexivity).

Ltac eval_index :=
  repeat match goal with
  | |- context [doc_count (finalize ?i)] =>
      change (doc_count (finalize i)) with (doc_count i)
  | |- context [doc_lengths (finalize ?i)] =>
      change (doc_lengths (finalize i)) with (doc_lengths i)
  | |- context [get_postings (finalize ?i) ?t] =>
      change (get_postings (finalize i) t) with (get_postings i t)
  | |- context [get_document_frequency (finalize ?i) ?t] =>
      change (get_document_frequency (finalize i) t)
        with (get_document_frequency i t)
  | |- context [doc_count (build ?d)] => eval_Z (doc_count (build d))
  | |- context [get_document_frequency (build ?d) ?t] =>
      eval_Z (get_document_frequency (build d) t)
  | |- context [find_tf (get_postings (build ?d) ?t) ?i] =>
      eval_Z (find_tf (get_postings (build d) t) i)
  | |- context [default 0 (doc_lengths (build ?d) !! ?i)] =>
      eval_Z (default 0 (doc_lengths (build d) !! i))
  end.

(** The average document length of the sample corpora. *)
Lemma triple_car_avg : avg_doc_length (finalize (build triple_car)) = 3%R.
Proof.
  rewrite (finalize_avg_value triple_car). eval_index.
  eval_Z (sum_values (doc_lengths (build triple_car))). simpl. lra.
Qed.

Lemma reused_id_avg_pos :
  (0 < avg_doc_length (finalize (build reused_id)))%R.
Proof.
  apply (finalize_avg_pos reused_id (py "en_1")). vm_compute. discriminate.
Qed.

Lemma dealers_avg_pos : (0 < avg_doc_length (finalize (build dealers)))%R.
Proof.
  apply (finalize_avg_pos dealers (py "en_0")). vm_compute. discriminate.
Qed.

Lemma dealers_NoDup : NoDup (d_id <$> dealers).
Proof. apply (bool_decide_unpack _). vm_compute. exact I. Qed.

Lemma bm25_score_is_the_formula_witness :
  compute_bm25_score (default_retriever (finalize (build dealers)))
                     [py "cheap"; py "car"] (py "en_0")
  = Ok (sum_R (corpus_term 1.5 0.75 dealers
                           (avg_doc_length (finalize (build dealers)))
                           (py "en_0")
               <$> [py "cheap"; py "car"])).
Proof.
  refine (proj1 (bm25_score_is_the_formula dealers
                   (default_retriever (finalize (build dealers)))
                   [py "cheap"; py "car"] (py "en_0") _ _ _ _ _)).
  - apply (bool_decide_unpack _). vm_compute. exact I.
  - reflexivity.
  - exact dealers_avg_pos.
  - simpl. lra.
  - simpl. lra.
Defined.

(** C3, as stated, fails in two ways. With [k1 = -2] and [b = 0] a
    document that holds the query term three times gets a negative score.
    And when an identifier was used twice, the second time for a document
    without tokens, the score is 0 although the formula, read with the
    posting and the statistics of the index, is positive. *)
Lemma bm25_score_formula_counterexample :
  ((0 < avg_doc_length (finalize (build triple_car)))%R
   /\ exists score,
        compute_bm25_score (retriever (-2) 0 (finalize (build triple_car)))
                           [py "car"] (py "en_0") = Ok score
        /\ (score < 0)%R)
  /\ ((0 < avg_doc_length (finalize (build reused_id)))%R
      /\ compute_bm25_score (default_retriever (finalize (build reused_id)))
                            [py "car"] (py "en_0") = Ok 0%R
      /\ (0 < sum_R (index_term (default_retriever (finalize (build reused_id)))
                                (finalize (build reused_id)) (py "en_0")
                     <$> [py "car"]))%R).
Proof.
  split; [split|split; [|split]].
  - rewrite triple_car_avg. lra.
  - eexists. split.
    + apply (compute_bm25_score_formula _ (finalize (build triple_car)));
        [done| | | | |].
      * exact (built_count_nonneg triple_car).
      * exact (built_df_nonneg triple_car).
      * eval_index. discriminate.
      * rewrite triple_car_avg. lra.
      * intros term ->%list_elem_of_singleton _. unfold index_denominator.
        rewrite triple_car_avg. eval_index. cbn [bm_k1 bm_b retriever]. lra.
    + rewrite fmap_cons, fmap_nil, sum_R_cons, sum_R_nil.
      unfold index_term, bm25_term. rewrite triple_car_avg. eval_index.
      cbn [bm_k1 bm_b retriever].
      pose proof (idf_formula_pos 1 1 ltac:(lia)).
      replace (3 * (-2 + 1) / (3 + -2 * (1 - 0 + 0 * (3 / 3))))%R with (-3)%R
        by lra.
      lra.
  - apply reused_id_avg_pos.
  - apply (compute_bm25_score_no_length _ (finalize (build reused_id)));
      [done|]. eval_index. reflexivity.
  - rewrite fmap_cons, fmap_nil, sum_R_cons, sum_R_nil.
    unfold index_term. eval_index. cbn [bm_k1 bm_b default_retriever].
    pose proof reused_id_avg_pos.
    pose proof (bm25_term_pos 1.5 0.75 3 1 1 0
                  (avg_doc_length (finalize (build reused_id)))
                  ltac:(lra) ltac:(lra) ltac:(lia) ltac:(lia) ltac:(lia) H).
    lra.
Qed.

(** ** Monotonicity in the term frequency *)

Section Monotone.
Implicit Types (self : BM25Retriever) (idx : InvertedIndex)
               (term doc_id : pystr) (docs : list Doc).

Lemma with_tf_postings idx term doc_id freq term' :
  get_postings (with_tf idx term doc_id freq) term'
  = if decide (term = term') then set_freq doc_id freq (get_postings idx term')
    else get_postings idx term'.
Proof.
  unfold get_postings, with_tf. simpl. rewrite lookup_alter.
  destruct (decide (term = term')) as [->|Hne]; [|done].
  by destruct (index idx !! term').
Qed.

Lemma find_tf_set_freq (l : list Posting) doc_id freq :
  find_tf (set_freq doc_id freq l) doc_id
  = if decide (doc_id ∈ l.*1) then freq else 0.
Proof.
  induction l as [|[d f] l IH]; [done|].
  unfold set_freq in *. rewrite !fmap_cons. simpl.
  destruct (decide (d = doc_id)) as [->|Hne].
  - rewrite ?bool_decide_eq_true_2 by done. simpl.
    rewrite ?bool_decide_eq_true_2 by done.
    rewrite decide_True; [done|by left].
  - rewrite ?bool_decide_eq_false_2 by done. simpl.
    rewrite ?bool_decide_eq_false_2 by done. rewrite IH.
    destruct (decide (doc_id ∈ l.*1)) as [Hin|Hnin].
    + rewrite decide_True; [done|by right].
    + rewrite decide_False; [done|].
      intros [?|?]%elem_of_cons; [congruence|done].
Qed.

Lemma find_tf_no_posting (l : list Posting) doc_id :
  doc_id ∉ l.*1 -> find_tf l doc_id = 0.
Proof.
  induction l as [|[d f] l IH]; [done|]. rewrite fmap_cons. simpl.
  intros [Hne Hnin]%not_elem_of_cons.
  rewrite bool_decide_eq_false_2 by done. by apply IH.
Qed.

(** The frequency found after the change is the new one, or still 0. *)
Lemma with_tf_find_tf idx term doc_id freq term' :
  0 <= find_tf (get_postings idx term') doc_id ->
  find_tf (get_postings idx term) doc_id <= freq ->
  find_tf (get_postings idx term') doc_id
  <= find_tf (get_postings (with_tf idx term doc_id freq) term') doc_id.
Proof.
  intros Hpos Hle. rewrite with_tf_postings.
  destruct (decide (term = term')) as [->|Hne]; [|done].
  rewrite find_tf_set_freq.
  destruct (decide (doc_id ∈ (get_postings idx term').*1)) as [Hin|Hnin];
    [done|].
  by rewrite find_tf_no_posting.
Qed.
End Monotone.

(** C7 (amended). For an index built by [add_document] calls and
    finalized, and for parameters [0 <= k1] and [0 <= b <= 1]: raising the
    term frequency in the posting of a document for a term, everything
    else unchanged, does not lower the score of that document. *)
Theorem more_occurrences_never_lower_the_score (docs : list Doc)
    (self : BM25Retriever) (term doc_id : pystr) (freq : Z)
    (query_terms : list pystr) :
  bm_index self = Some (finalize (build docs)) ->
  (0 <= bm_k1 self)%R ->
  (0 <= bm_b self <= 1)%R ->
  find_tf (get_postings (finalize (build docs)) term) doc_id <= freq ->
  exists score score',
    compute_bm25_score self query_terms doc_id = Ok score
    /\ compute_bm25_score
         (retriever (bm_k1 self) (bm_b self)
                    (with_tf (finalize (build docs)) term doc_id freq))
         query_terms doc_id = Ok score'
    /\ (score <= score')%R.
Proof.
  intros Hidx Hk Hb Hfreq.
  set (idx := finalize (build docs)) in *.
  set (idx' := with_tf idx term doc_id freq).
  set (self' := retriever (bm_k1 self) (bm_b self) idx').
  destruct (decide (default 0 (doc_lengths idx !! doc_id) = 0)) as [Hz|Hlen].
  { exists 0%R, 0%R. split; [|split; [|lra]].
    - by apply (compute_bm25_score_no_length self idx).
    - by apply (compute_bm25_score_no_length self' idx'). }
  assert (0 < avg_doc_length idx)%R as Havg
    by (by apply (finalize_avg_pos docs doc_id)).
  assert (forall t, 0 <= find_tf (get_postings idx t) doc_id) as Htf.
  { intros t. unfold idx. rewrite finalize_postings.
    apply build_find_tf_nonneg. }
  assert (forall t, find_tf (get_postings idx t) doc_id
                    <= find_tf (get_postings idx' t) doc_id) as Hup.
  { intros t. by apply with_tf_find_tf. }
  assert (0 <= default 0 (doc_lengths idx !! doc_id)) as Hlen0
    by apply build_length_nonneg.
  exists (sum_R (index_term self idx doc_id <$> query_terms)),
         (sum_R (index_term self' idx' doc_id <$> query_terms)).
  split; [|split].
  - apply compute_bm25_score_formula; try done.
    + apply built_count_nonneg.
    + apply built_df_nonneg.
    + lra.
    + intros t _ Hne. apply Rgt_not_eq, Rlt_gt.
      apply denominator_pos; try done. specialize (Htf t). lia.
  - apply compute_bm25_score_formula; try done.
    + apply built_count_nonneg.
    + apply built_df_nonneg.
    + change (avg_doc_length idx') with (avg_doc_length idx). lra.
    + intros t _ Hne. apply Rgt_not_eq, Rlt_gt.
      apply (denominator_pos (bm_k1 self) (bm_b self)); try done.
      specialize (Htf t). specialize (Hup t). lia.
  - apply sum_R_le. intros t _. unfold index_term.
    apply (bm25_term_mono (bm_k1 self) (bm_b self)); try done.
    apply (build_df_bounds docs).
Qed.

Lemma more_occurrences_never_lower_the_score_witness :
  exists score score',
    compute_bm25_score (default_retriever (finalize (build dealers)))
                       [py "cheap"; py "car"] (py "en_0") = Ok score
    /\ compute_bm25_score
         (retriever 1.5 0.75
                    (with_tf (finalize (build dealers)) (py "car")
                             (py "en_0") 2))
         [py "cheap"; py "car"] (py "en_0") = Ok score'
    /\ (score <= score')%R.
Proof.
  apply (more_occurrences_never_lower_the_score dealers
           (default_retriever (finalize (build dealers)))
           (py "car") (py "en_0") 2 [py "cheap"; py "car"]).
  - reflexivity.
  - simpl. lra.
  - simpl. lra.
  - rewrite finalize_postings. vm_compute. discriminate.
Defined.

Lemma single_car_avg : avg_doc_length (finalize (build single_car)) = 1%R.
Proof.
  rewrite (finalize_avg_value single_car). eval_index.
  eval_Z (sum_values (doc_lengths (build single_car))). simpl. lra.
Qed.

(** C7, as stated, fails for [k1 = -0.5] and [b = 0]: with one document
    of length 1, raising the frequency of its term from 1 to 2 lowers the
    score from [IDF] to two thirds of [IDF]. *)
Lemma score_monotonicity_counterexample :
  find_tf (get_postings (finalize (build single_car)) (py "car")) (py "en_0")
  <= 2
  /\ exists score score',
       compute_bm25_score (retriever (-0.5) 0 (finalize (build single_car)))
                          [py "car"] (py "en_0") = Ok score
       /\ compute_bm25_score
            (retriever (-0.5) 0
                       (with_tf (finalize (build single_car)) (py "car")
                                (py "en_0") 2))
            [py "car"] (py "en_0") = Ok score'
       /\ (score' < score)%R.
Proof.
  split; [rewrite finalize_postings; vm_compute; discriminate|].
  set (idx := finalize (build single_car)).
  set (idx' := with_tf idx (py "car") (py "en_0") 2).
  assert (find_tf (get_postings idx' (py "car")) (py "en_0") = 2) as Htf'.
  { unfold idx'. rewrite with_tf_postings, decide_True by done.
    unfold idx. rewrite finalize_postings. vm_compute. reflexivity. }
  exists (sum_R (index_term (retriever (-0.5) 0 idx) idx (py "en_0")
                 <$> [py "car"])),
         (sum_R (index_term (retriever (-0.5) 0 idx') idx' (py "en_0")
                 <$> [py "car"])).
  split; [|split].
  - apply compute_bm25_score_formula; [done| | | | |].
    + exact (built_count_nonneg single_car).
    + exact (built_df_nonneg single_car).
    + unfold idx. eval_index. discriminate.
    + unfold idx. rewrite single_car_avg. lra.
    + intros term ->%list_elem_of_singleton _. unfold index_denominator, idx.
      rewrite single_car_avg. eval_index. cbn [bm_k1 bm_b retriever]. lra.
  - apply compute_bm25_score_formula; [done| | | | |].
    + exact (built_count_nonneg single_car).
    + exact (built_df_nonneg single_car).
    + change (doc_lengths idx') with (doc_lengths idx).
      unfold idx. eval_index. discriminate.
    + change (avg_doc_length idx') with (avg_doc_length idx).
      unfold idx. rewrite single_car_avg. lra.
    + intros term ->%list_elem_of_singleton _. unfold index_denominator.
      rewrite Htf'.
      change (avg_doc_length idx') with (avg_doc_length idx).
      change (doc_lengths idx') with (doc_lengths idx).
      unfold idx. rewrite single_car_avg. eval_index.
      cbn [bm_k1 bm_b retriever]. lra.
  - rewrite !fmap_cons, !fmap_nil, !sum_R_cons, !sum_R_nil.
    unfold index_term, bm25_term. rewrite Htf'.
    change (avg_doc_length idx') with (avg_doc_length idx).
    change (doc_lengths idx') with (doc_lengths idx).
    change (doc_count idx') with (doc_count idx).
    change (get_document_frequency idx' (py "car"))
      with (get_document_frequency idx (py "car")).
    unfold idx. rewrite single_car_avg. eval_index.
    cbn [bm_k1 bm_b retriever].
    pose proof (idf_formula_pos 1 1 ltac:(lia)).
    replace (2 * (-0.5 + 1) / (2 + -0.5 * (1 - 0 + 0 * (1 / 1))))%R
      with (2 / 3)%R by lra.
    replace (1 * (-0.5 + 1) / (1 + -0.5 * (1 - 0 + 0 * (1 / 1))))%R
      with 1%R by lra.
    lra.
Qed.

(** ** Searching *)

Section SearchFacts.
Implicit Types (self : BM25Retriever) (idx : InvertedIndex)
               (term doc_id : pystr) (docs : list Doc)
               (l : list ScoredDoc).

Lemma bind_Ok {A B} (m : result A) (k : A -> result B) (b : B) :
  m ≫= k = Ok b -> exists a, m = Ok a /\ k a = Ok b.
Proof. destruct m as [a|e]; [by exists a|done]. Qed.

(** *** The sort *)

Lemma insert_desc_perm x l : insert_desc x l ≡ₚ x :: l.
Proof.
  induction l as [|y l IH]; simpl; [done|].
  destruct (Rlt_dec _ _); [|done]. rewrite IH. apply Permutation_swap.
Qed.

Lemma sort_desc_perm l : sort_desc l ≡ₚ l.
Proof.
  induction l as [|x l IH]; [done|]. unfold sort_desc in *. simpl.
  by rewrite insert_desc_perm, IH.
Qed.

Lemma insert_desc_sorted x l :
  StronglySorted score_ge l -> StronglySorted score_ge (insert_desc x l).
Proof.
  induction l as [|y l IH]; simpl; intros Hs.
  - repeat constructor.
  - apply StronglySorted_cons in Hs as Hs'. destruct Hs' as [Hy Hl].
    destruct (Rlt_dec (sd_score x) (sd_score y)) as [Hlt|Hge].
    + apply StronglySorted_cons. split; [|by apply IH].
      rewrite insert_desc_perm. constructor; [|done].
      unfold score_ge. lra.
    + apply StronglySorted_cons. split; [|done].
      assert (score_ge x y) as Hxy by (unfold score_ge; lra).
      constructor; [done|].
      eapply Forall_impl; [exact Hy|]. unfold score_ge in *.
      intros z Hz. simpl in Hz. lra.
Qed.

Lemma sort_desc_sorted l : StronglySorted score_ge (sort_desc l).
Proof.
  induction l as [|x l IH]; [constructor|].
  unfold sort_desc in *. simpl. by apply insert_desc_sorted.
Qed.

(** The sort is stable: documents with equal scores keep their order. *)
Lemma insert_desc_stable s x l :
  with_score s (insert_desc x l) = with_score s (x :: l).
Proof.
  induction l as [|y l IH]; [done|]. simpl.
  destruct (Rlt_dec (sd_score x) (sd_score y)) as [Hlt|Hge]; [|done].
  unfold with_score in *. simpl in *. rewrite IH.
  destruct (Req_dec_T (sd_score x) s), (Req_dec_T (sd_score y) s);
    try done. lra.
Qed.

Lemma sort_desc_stable s l : with_score s (sort_desc l) = with_score s l.
Proof.
  induction l as [|x l IH]; [done|]. unfold sort_desc in *. simpl.
  rewrite insert_desc_stable. unfold with_score in *. simpl.
  by rewrite IH.
Qed.

(** *** The slice *)

Lemma slice_to_take {A} (l : list A) (k : Z) :
  exists n, slice_to l k = take n l.
Proof. unfold slice_to. destruct (0 <=? k); eauto. Qed.

Lemma slice_to_length {A} (l : list A) (k : Z) :
  0 <= k -> Z.of_nat (length (slice_to l k)) <= k.
Proof.
  intros Hk. unfold slice_to.
  rewrite (proj2 (Z.leb_le 0 k) Hk), length_take. lia.
Qed.

Lemma with_score_take s n l :
  with_score s (take n l) `sublist_of` with_score s l.
Proof.
  rewrite <- (take_drop n l) at 2. unfold with_score.
  rewrite List.filter_app. by apply sublist_inserts_r.
Qed.

Lemma with_score_sublist s l : with_score s l `sublist_of` l.
Proof.
  unfold with_score. induction l as [|x l IH]; simpl; [done|].
  destruct (Req_dec_T _ _); [by apply sublist_skip|by apply sublist_cons].
Qed.

(** *** The annotation *)

Lemma annotate_all_docs l : hit_doc <$> annotate_all l = l.
Proof.
  destruct l as [|first l]; [done|]. unfold annotate_all.
  generalize (sd_score first). intros m.
  generalize (first :: l). clear. intros l.
  induction l as [|x l IH]; [done|]. rewrite !fmap_cons. by rewrite IH.
Qed.

(** *** The scoring loop *)

Lemma score_candidates_Ok self idx query_terms candidate_docs l :
  score_candidates self idx query_terms candidate_docs = Ok l ->
  sd_doc_id <$> l `sublist_of` candidate_docs
  /\ Forall (fun sd =>
               compute_bm25_score self query_terms (sd_doc_id sd)
               = Ok (sd_score sd)
               /\ (0 < sd_score sd)%R) l.
Proof.
  revert l. induction candidate_docs as [|doc_id rest IH]; intros l Hl;
    simpl in Hl.
  - inversion Hl. split; constructor.
  - apply bind_Ok in Hl as (score & Hscore & Hl).
    destruct (Rlt_dec 0 score) as [Hpos|Hneg].
    + apply bind_Ok in Hl as (metadata & _ & Hl).
      apply bind_Ok in Hl as (title & _ & Hl).
      apply bind_Ok in Hl as (url & _ & Hl).
      apply bind_Ok in Hl as (language & _ & Hl).
      apply bind_Ok in Hl as (scored & Hrest & Hl).
      inversion Hl; subst. destruct (IH _ Hrest) as [Hsub Hall].
      split; [by apply sublist_skip|]. by constructor.
    + destruct (IH _ Hl) as [Hsub Hall].
      split; [by apply sublist_cons|done].
Qed.

(** The loop keeps every candidate whose score is positive and whose
    metadata are complete. *)
Lemma score_candidates_all self idx query_terms candidate_docs :
  Forall (fun doc_id =>
            (exists score,
                compute_bm25_score self query_terms doc_id = Ok score
                /\ (0 < score)%R)
            /\ exists metadata,
                documents idx !! doc_id = Some metadata
                /\ is_Some (metadata !! "title")
                /\ is_Some (metadata !! "url")
                /\ is_Some (metadata !! "language")) candidate_docs ->
  exists l,
    score_candidates self idx query_terms candidate_docs = Ok l
    /\ sd_doc_id <$> l = candidate_docs.
Proof.
  induction 1 as [|doc_id rest Hd _ IH]; [by exists []|].
  destruct Hd as [(score & Hscore & Hpos)
                    (metadata & Hm & [t Ht] & [u Hu] & [lg Hlg])].
  destruct IH as (l & Hl & Hids).
  eexists. simpl. rewrite Hscore. simpl.
  destruct (Rlt_dec 0 score); [|done].
  unfold getitem. rewrite Hm. simpl. rewrite Ht, Hu, Hlg. simpl.
  rewrite Hl. simpl. split; [reflexivity|]. by rewrite fmap_cons, Hids.
Qed.

(** *** The candidates *)

Lemma elem_of_candidate_insertions idx query_terms doc_id :
  doc_id ∈ candidate_insertions idx query_terms
  <-> exists term,
        term ∈ query_terms /\ doc_id ∈ (get_postings idx term).*1.
Proof.
  unfold candidate_insertions. rewrite list_elem_of_bind.
  split; intros (term & ? & ?); exists term; done.
Qed.
End SearchFacts.

Section SearchOnCorpus.
Implicit Types (self : BM25Retriever) (term doc_id : pystr)
               (docs : list Doc).

Lemma sum_R_pos (l : list R) (x : R) :
  Forall (fun y => 0 <= y)%R l -> x ∈ l -> (0 < x)%R -> (0 < sum_R l)%R.
Proof.
  induction 1 as [|y l Hy Hl IH]; [by intros ?%elem_of_nil|].
  rewrite sum_R_cons. pose proof (sum_R_nonneg l Hl).
  intros [->|Hin]%elem_of_cons Hx; [lra|].
  specialize (IH Hin Hx). lra.
Qed.

Lemma find_tf_built_pos (l : list Doc) term doc_id :
  doc_id ∈ d_id <$> l ->
  (forall d, d ∈ l -> term ∈ d_tokens d) ->
  1 <= find_tf ((fun d => (d_id d, tf_in term (d_tokens d))) <$> l) doc_id.
Proof.
  induction l as [|d l IH]; [by intros ?%elem_of_nil|].
  rewrite !fmap_cons. simpl. intros Hin Hall.
  case_bool_decide as Hid.
  - apply tf_in_elem, Hall. by left.
  - apply IH.
    + apply elem_of_cons in Hin as [?|?]; [congruence|done].
    + intros d' Hd'. apply Hall. by right.
Qed.

(** A candidate holds a query term: its score is the sum of the
    contributions, and positive. *)
Lemma candidate_score_pos docs self query_terms doc_id :
  NoDup (d_id <$> docs) ->
  bm_index self = Some (finalize (build docs)) ->
  (0 <= bm_k1 self)%R ->
  (0 <= bm_b self <= 1)%R ->
  doc_id ∈ candidate_insertions (finalize (build docs)) query_terms ->
  compute_bm25_score self query_terms doc_id
  = Ok (sum_R (index_term self (finalize (build docs)) doc_id
               <$> query_terms))
  /\ (0 < sum_R (index_term self (finalize (build docs)) doc_id
                 <$> query_terms))%R.
Proof.
  intros Hnd Hidx Hk Hb (term & Hterm & Hin)%elem_of_candidate_insertions.
  set (idx := finalize (build docs)) in *.
  assert (doc_id ∈ d_id <$> docs_with term docs) as Hin'.
  { unfold idx in Hin. by rewrite finalize_postings, build_posting_ids in Hin. }
  apply list_elem_of_fmap in Hin' as Hd. destruct Hd as (d & -> & Hd).
  apply list_elem_of_filter in Hd as [Hterm_d Hd].
  assert (1 <= default 0 (doc_lengths idx !! d_id d)) as Hlen.
  { unfold idx. simpl. rewrite build_length_of by done. simpl.
    destruct (d_tokens d); [by apply elem_of_nil in Hterm_d|simpl; lia]. }
  assert (0 < avg_doc_length idx)%R as Havg.
  { apply (finalize_avg_pos docs (d_id d)).
    change (doc_lengths (build docs)) with (doc_lengths idx). lia. }
  assert (forall t, 0 <= find_tf (get_postings idx t) (d_id d)) as Htf.
  { intros t. unfold idx. rewrite finalize_postings.
    apply build_find_tf_nonneg. }
  assert (forall t, 0 <= get_document_frequency idx t <= doc_count idx)
    as Hdf by (intros t; apply (build_df_bounds docs)).
  split.
  - apply compute_bm25_score_formula; try done.
    + apply built_count_nonneg.
    + apply built_df_nonneg.
    + lia.
    + lra.
    + intros t _ Hne. apply Rgt_not_eq, Rlt_gt.
      apply denominator_pos; try done; [|lia]. specialize (Htf t). lia.
  - apply (sum_R_pos _ (index_term self idx (d_id d) term)).
    + apply Forall_fmap, Forall_forall. intros t _. unfold index_term.
      apply bm25_term_nonneg; try done. lia.
    + apply list_elem_of_fmap. eauto.
    + unfold index_term. apply bm25_term_pos; try done; [| |lia].
      * split; [|apply Hdf]. unfold idx. rewrite finalize_df, build_df.
        destruct (docs_with term docs); [by apply elem_of_nil in Hin'|].
        simpl. lia.
      * unfold idx. rewrite finalize_postings, build_postings.
        apply find_tf_built_pos; [done|].
        by intros d' [? _]%list_elem_of_filter.
Qed.

Variable set_order : list pystr -> list pystr.
Hypothesis set_order_perm : forall l, set_order l ≡ₚ remove_dups l.

Lemma elem_of_set_order (l : list pystr) (x : pystr) :
  x ∈ set_order l -> x ∈ l.
Proof. rewrite set_order_perm. apply elem_of_remove_dups. Qed.

(** On a finalized corpus with distinct identifiers and complete
    metadata, and with the parameters in their usual ranges, a search
    with some query term returns, and keeps every candidate. *)
Lemma search_on_corpus docs self query top_k language :
  NoDup (d_id <$> docs) ->
  searchable_metadata docs ->
  bm_index self = Some (finalize (build docs)) ->
  (0 <= bm_k1 self)%R ->
  (0 <= bm_b self <= 1)%R ->
  preprocess query language <> [] ->
  let idx := finalize (build docs) in
  let query_terms := preprocess query language in
  exists scored,
    search set_order self query top_k language
    = Ok {| sr_query := query;
            sr_query_terms := Some query_terms;
            sr_results := annotate_all (slice_to (sort_desc scored) top_k);
            sr_total_results := Z.of_nat (length scored) |}
    /\ sd_doc_id <$> scored
       = set_order (candidate_insertions idx query_terms)
    /\ Forall (fun sd =>
                 sd_score sd
                 = sum_R (index_term self idx (sd_doc_id sd) <$> query_terms)
                 /\ (0 < sd_score sd)%R) scored.
Proof.
  intros Hnd Hmeta Hidx Hk Hb Hterms. cbv zeta.
  remember (preprocess query language) as query_terms eqn:Hq.
  set (idx := finalize (build docs)).
  destruct (score_candidates_all self idx query_terms
              (set_order (candidate_insertions idx query_terms)))
    as (scored & Hscored & Hids).
  { apply Forall_forall. intros doc_id Hcand%elem_of_set_order.
    destruct (candidate_score_pos docs self query_terms doc_id)
      as [Hscore Hpos]; try done.
    split; [eauto|].
    apply elem_of_candidate_insertions in Hcand as (term & _ & Hin).
    unfold idx in Hin. rewrite finalize_postings in Hin.
    apply build_posting_known, list_elem_of_fmap in Hin as (d & -> & Hd).
    exists (d_meta d). split; [by apply build_metadata_of|].
    unfold searchable_metadata in Hmeta.
    rewrite Forall_forall in Hmeta. by apply Hmeta. }
  exists scored. split; [|split; [done|]].
  - unfold search. rewrite Hidx, <- Hq. fold idx.
    destruct query_terms as [|t ts]; [done|]. rewrite Hscored. simpl.
    by rewrite (Permutation_length (sort_desc_perm scored)).
  - apply score_candidates_Ok in Hscored as [Hsub Hall].
    apply Forall_forall. intros sd Hsd.
    rewrite Forall_forall in Hall. destruct (Hall sd Hsd) as [Hscore Hpos].
    split; [|done].
    assert (sd_doc_id sd ∈ candidate_insertions idx query_terms) as Hcand.
    { apply elem_of_set_order. rewrite <- Hids.
      by apply list_elem_of_fmap_2. }
    destruct (candidate_score_pos docs self query_terms (sd_doc_id sd))
      as [Hscore' _]; try done.
    rewrite Hscore in Hscore'. by inversion Hscore'.
Qed.
End SearchOnCorpus.

(** C2 (amended). For every index, query and [top_k >= 0], the results of
    a search that returns hold only documents that have a posting for some
    query term, are sorted by descending score, documents with equal
    scores following the order in which the candidate set is iterated
    (which Python does not fix), and are at most [top_k]. *)
Theorem search_results_are_ranked_candidates
    (set_order : list pystr -> list pystr) (self : BM25Retriever)
    (idx : InvertedIndex) (query : PyValue) (top_k : Z) (language : pystr)
    (res : SearchResults) :
  (forall l, set_order l ≡ₚ remove_dups l) ->
  bm_index self = Some idx ->
  search set_order self query top_k language = Ok res ->
  0 <= top_k ->
  let query_terms := preprocess query language in
  let ranking := hit_doc <$> sr_results res in
  (forall sd, sd ∈ ranking ->
     exists term,
       term ∈ query_terms /\ sd_doc_id sd ∈ (get_postings idx term).*1)
  /\ StronglySorted score_ge ranking
  /\ (forall s,
        sd_doc_id <$> with_score s ranking
        `sublist_of` set_order (candidate_insertions idx query_terms))
  /\ Z.of_nat (length (sr_results res)) <= top_k.
Proof.
  intros Hperm Hidx Hres Hk. cbv zeta.
  unfold search in Hres. rewrite Hidx in Hres.
  destruct (preprocess query language) as [|t ts] eqn:Hq.
  { inversion Hres; subst. simpl.
    split; [by intros sd ?%elem_of_nil|].
    split; [constructor|]. split; [|done].
    intros s. apply sublist_nil_l. }
  apply bind_Ok in Hres as (scored & Hscored & Hres).
  inversion Hres; subst; clear Hres. simpl.
  rewrite annotate_all_docs.
  apply score_candidates_Ok in Hscored as [Hsub _].
  destruct (slice_to_take (sort_desc scored) top_k) as [n Hn].
  split; [|split; [|split]].
  - intros sd Hsd. apply elem_of_candidate_insertions.
    apply (elem_of_set_order set_order Hperm).
    eapply elem_of_sublist; [|exact Hsub].
    apply list_elem_of_fmap_2. rewrite <- (sort_desc_perm scored).
    rewrite Hn in Hsd. eapply elem_of_sublist; [exact Hsd|].
    apply sublist_take.
  - rewrite Hn. pose proof (sort_desc_sorted scored) as Hs.
    rewrite <- (take_drop n (sort_desc scored)) in Hs.
    by apply StronglySorted_app_1_l in Hs.
  - intros s. etrans; [|exact Hsub]. apply fmap_sublist.
    rewrite Hn. etrans; [apply with_score_take|].
    rewrite sort_desc_stable. apply with_score_sublist.
  - rewrite <- (length_fmap hit_doc), annotate_all_docs.
    by apply slice_to_length.
Qed.

Lemma english_doc_searchable (docs : list Doc) :
  Forall (fun d => exists i n body, d = english_doc i n body) docs ->
  searchable_metadata docs.
Proof.
  intros Hdocs. unfold searchable_metadata.
  eapply Forall_impl; [exact Hdocs|].
  intros d (i & n & body & ->). simpl. unfold english_meta.
  repeat (rewrite ?lookup_insert_eq; rewrite ?lookup_insert_ne by done).
  eauto.
Qed.

Lemma dealers_searchable : searchable_metadata dealers.
Proof. apply english_doc_searchable. repeat constructor; eauto. Qed.

Lemma two_cars_searchable : searchable_metadata two_cars.
Proof. apply english_doc_searchable. repeat constructor; eauto. Qed.

Lemma two_cars_NoDup : NoDup (d_id <$> two_cars).
Proof. apply (bool_decide_unpack _). vm_compute. exact I. Qed.

Lemma search_results_are_ranked_candidates_witness :
  exists res,
    search remove_dups (default_retriever (finalize (build dealers)))
           (PyStr (py "cheap car")) 10 (py "auto") = Ok res
    /\ StronglySorted score_ge (hit_doc <$> sr_results res)
    /\ Z.of_nat (length (sr_results res)) <= 10.
Proof.
  destruct (search_on_corpus remove_dups (fun l => reflexivity _) dealers
              (default_retriever (finalize (build dealers)))
              (PyStr (py "cheap car")) 10 (py "auto")
              dealers_NoDup dealers_searchable eq_refl)
    as (scored & Hres & _).
  - simpl. lra.
  - simpl. lra.
  - vm_compute. discriminate.
  - eexists. split; [exact Hres|].
    destruct (search_results_are_ranked_candidates remove_dups
                (default_retriever (finalize (build dealers)))
                (finalize (build dealers)) _ 10 _ _
                (fun l => reflexivity _) eq_refl Hres ltac:(lia))
      as (_ & Hsorted & _ & Hlen).
    split; [exact Hsorted|exact Hlen].
Defined.

(** C2, as stated, fails in two ways. Two documents with equal scores
    come out as the candidate set is iterated: when the set yields [en_1]
    before [en_0], so does the result, against the order of insertion.
    And with [top_k = -1] the slice drops the last result only, so one
    result is returned. *)
Lemma search_ranking_counterexample :
  (exists res s,
      search (fun l => reverse (remove_dups l))
             (default_retriever (finalize (build two_cars)))
             (PyStr (py "car")) 10 (py "en") = Ok res
      /\ (fun h => (sd_doc_id (hit_doc h), sd_score (hit_doc h)))
           <$> sr_results res
         = [(py "en_1", s); (py "en_0", s)])
  /\ (exists res,
        search remove_dups (default_retriever (finalize (build two_cars)))
               (PyStr (py "car")) (-1) (py "en") = Ok res
        /\ Z.of_nat (length (sr_results res)) = 1).
Proof.
  assert (preprocess (PyStr (py "car")) (py "en") = [py "car"]) as Hq
    by (vm_compute; reflexivity).
  assert (candidate_insertions (finalize (build two_cars)) [py "car"]
          = [py "en_0"; py "en_1"]) as Hins.
  { change (candidate_insertions (finalize (build two_cars)) [py "car"])
      with (candidate_insertions (build two_cars) [py "car"]).
    vm_compute. reflexivity. }
  set (self := default_retriever (finalize (build two_cars))).
  assert (forall doc_id,
            doc_id = py "en_0" \/ doc_id = py "en_1" ->
            sum_R (index_term self (finalize (build two_cars)) doc_id
                   <$> [py "car"])
            = (bm25_term 1.5 0.75 2 2 1 1
                         (avg_doc_length (finalize (build two_cars))) + 0)%R)
    as Hscore.
  { intros doc_id Hid. rewrite fmap_cons, fmap_nil, sum_R_cons, sum_R_nil.
    unfold index_term. destruct Hid as [-> | ->]; eval_index; reflexivity. }
  split.
  - destruct (search_on_corpus (fun l => reverse (remove_dups l))
                (fun l => reverse_Permutation _) two_cars self
                (PyStr (py "car")) 10 (py "en")
                two_cars_NoDup two_cars_searchable eq_refl)
      as (scored & Hres & Hids & Hall).
    { simpl. lra. } { simpl. lra. } { rewrite Hq. discriminate. }
    rewrite Hq in *. rewrite Hins in Hids.
    destruct scored as [|sd1 [|sd0 [|? ?]]]; try discriminate Hids.
    injection Hids as Hid1 Hid0.
    apply Forall_cons in Hall as [[Hs1 _] Hall].
    apply Forall_cons in Hall as [[Hs0 _] _].
    rewrite Hid1, Hscore in Hs1 by (by right).
    rewrite Hid0, Hscore in Hs0 by (by left).
    eexists. exists (sd_score sd1). split; [exact Hres|].
    unfold sort_desc. simpl.
    destruct (Rlt_dec (sd_score sd1) (sd_score sd0)) as [Hlt|_]; [lra|].
    simpl. rewrite Hid1, Hid0. do 3 f_equal. congruence.
  - destruct (search_on_corpus remove_dups (fun l => reflexivity _) two_cars
                self (PyStr (py "car")) (-1) (py "en")
                two_cars_NoDup two_cars_searchable eq_refl)
      as (scored & Hres & Hids & _).
    { simpl. lra. } { simpl. lra. } { rewrite Hq. discriminate. }
    rewrite Hq in *. rewrite Hins in Hids.
    eexists. split; [exact Hres|]. simpl.
    rewrite <- (length_fmap hit_doc), annotate_all_docs.
    unfold slice_to. simpl. rewrite length_take.
    rewrite (Permutation_length (sort_desc_perm scored)).
    rewrite <- (length_fmap sd_doc_id), Hids. reflexivity.
Qed.

(** ** Positive scores *)

Section Indexed.
Implicit Types (idx : InvertedIndex) (term doc_id : pystr)
               (docs : list Doc).

Lemma add_postings_nonempty doc_id tf idx :
  postings_nonempty idx ->
  postings_nonempty (fold_left (add_posting doc_id) tf idx).
Proof.
  revert idx. induction tf as [|[t freq] tf IH]; intros idx Hidx; [done|].
  simpl. apply IH. intros term l. simpl.
  destruct (decide (t = term)) as [->|Hne].
  - rewrite lookup_insert_eq. intros [= <-].
    by destruct (default [] (index idx !! term)).
  - rewrite lookup_insert_ne by done. apply Hidx.
Qed.

Lemma build_postings_nonempty docs : postings_nonempty (build docs).
Proof.
  induction docs as [|d docs IH] using rev_ind; [by intros term l|].
  rewrite build_snoc. unfold add_document. intros term l. simpl.
  by apply add_postings_nonempty.
Qed.

(** An indexed term occurs in at least one and at most [N] documents. *)
Lemma indexed_df docs term :
  indexed (finalize (build docs)) term ->
  1 <= get_document_frequency (finalize (build docs)) term
    <= doc_count (finalize (build docs)).
Proof.
  intros [l Hl]. simpl in Hl.
  pose proof (build_postings_nonempty docs term l Hl) as Hne.
  split; [|apply (build_df_bounds docs)].
  rewrite finalize_df, build_df.
  pose proof (build_postings docs term) as Hp.
  unfold get_postings in Hp. rewrite Hl in Hp. simpl in Hp.
  destruct (docs_with term docs); [by destruct Hne|simpl; lia].
Qed.
End Indexed.

(** C10 (amended). For a finalized index built from documents with
    pairwise distinct identifiers and with title, url and language in
    their metadata, and for parameters [0 <= k1] and [0 <= b <= 1]: the
    IDF of every indexed term is positive, every candidate of a search
    gets a positive score, and [total_results] is the number of
    candidates. *)
Theorem every_candidate_is_returned
    (set_order : list pystr -> list pystr) (docs : list Doc)
    (self : BM25Retriever) (query : PyValue) (top_k : Z) (language : pystr) :
  (forall l, set_order l ≡ₚ remove_dups l) ->
  NoDup (d_id <$> docs) ->
  searchable_metadata docs ->
  bm_index self = Some (finalize (build docs)) ->
  (0 <= bm_k1 self)%R ->
  (0 <= bm_b self <= 1)%R ->
  let idx := finalize (build docs) in
  let query_terms := preprocess query language in
  (forall term,
      indexed idx term ->
      exists idf, compute_idf self term = Ok idf /\ (0 < idf)%R)
  /\ (forall doc_id,
        doc_id ∈ candidate_insertions idx query_terms ->
        exists score,
          compute_bm25_score self query_terms doc_id = Ok score
          /\ (0 < score)%R)
  /\ exists res,
       search set_order self query top_k language = Ok res
       /\ sr_total_results res
          = Z.of_nat (length (remove_dups
                                (candidate_insertions idx query_terms))).
Proof.
  intros Hperm Hnd Hmeta Hidx Hk Hb. cbv zeta.
  split; [|split].
  - intros term Hterm%indexed_df. eexists. split.
    + apply (compute_idf_formula _ _ _ Hidx); [apply built_count_nonneg|lia].
    + by apply idf_formula_pos.
  - intros doc_id Hcand.
    destruct (candidate_score_pos docs self _ doc_id Hnd Hidx Hk Hb Hcand).
    eauto.
  - destruct (decide (preprocess query language = [])) as [Hq|Hq].
    + eexists. unfold search. rewrite Hidx, Hq. done.
    + destruct (search_on_corpus set_order Hperm docs self query top_k
                  language Hnd Hmeta Hidx Hk Hb Hq)
        as (scored & Hres & Hids & _).
      eexists. split; [exact Hres|]. simpl.
      by rewrite <- (length_fmap sd_doc_id), Hids, (Hperm _).
Qed.

Lemma every_candidate_is_returned_witness :
  exists res,
    search remove_dups (default_retriever (finalize (build dealers)))
           (PyStr (py "cheap car")) 10 (py "auto") = Ok res
    /\ sr_total_results res
       = Z.of_nat
           (length (remove_dups
                      (candidate_insertions
                         (finalize (build dealers))
                         (preprocess (PyStr (py "cheap car")) (py "auto"))))).
Proof.
  refine (proj2 (proj2 (every_candidate_is_returned remove_dups dealers
                          (default_retriever (finalize (build dealers)))
                          (PyStr (py "cheap car")) 10 (py "auto")
                          (fun l => reflexivity _)
                          dealers_NoDup dealers_searchable eq_refl _ _))).
  - simpl. lra.
  - simpl. lra.
Defined.

(** *** Searches on the sample corpora *)

Section SearchSteps.
Implicit Types (self : BM25Retriever) (idx : InvertedIndex)
               (doc_id : pystr).

Lemma search_unfold set_order self idx query top_k language t ts :
  bm_index self = Some idx ->
  preprocess query language = t :: ts ->
  search set_order self query top_k language
  = (scored ← score_candidates self idx (t :: ts)
                (set_order (candidate_insertions idx (t :: ts)));
     Ok {| sr_query := query; sr_query_terms := Some (t :: ts);
           sr_results :=
             annotate_all (slice_to (sort_desc scored) top_k);
           sr_total_results := Z.of_nat (length (sort_desc scored)) |}).
Proof. intros Hidx Hq. unfold search. by rewrite Hidx, Hq. Qed.

Lemma score_candidates_skip self idx query_terms doc_id rest score :
  compute_bm25_score self query_terms doc_id = Ok score ->
  ~ (0 < score)%R ->
  score_candidates self idx query_terms (doc_id :: rest)
  = score_candidates self idx query_terms rest.
Proof.
  intros Hscore Hneg. simpl. rewrite Hscore. simpl.
  by destruct (Rlt_dec 0 score).
Qed.

Lemma score_candidates_raise self idx query_terms doc_id rest e :
  compute_bm25_score self query_terms doc_id = Raise e ->
  score_candidates self idx query_terms (doc_id :: rest) = Raise e.
Proof. intros Hscore. simpl. by rewrite Hscore. Qed.

Lemma score_candidates_no_title self idx query_terms doc_id rest score
    metadata :
  compute_bm25_score self query_terms doc_id = Ok score ->
  (0 < score)%R ->
  documents idx !! doc_id = Some metadata ->
  metadata !! "title" = None ->
  score_candidates self idx query_terms (doc_id :: rest) = Raise KeyError.
Proof.
  intros Hscore Hpos Hmeta Htitle. simpl. rewrite Hscore. simpl.
  destruct (Rlt_dec 0 score); [|done].
  unfold getitem. rewrite Hmeta. simpl. by rewrite Htitle.
Qed.

End SearchSteps.

Lemma double_car_avg : avg_doc_length (finalize (build double_car)) = 2%R.
Proof.
  rewrite (finalize_avg_value double_car). eval_index.
  eval_Z (sum_values (doc_lengths (build double_car))). simpl. lra.
Qed.

Lemma untitled_avg : avg_doc_length (finalize (build untitled)) = 1%R.
Proof.
  rewrite (finalize_avg_value untitled). eval_index.
  eval_Z (sum_values (doc_lengths (build untitled))). simpl. lra.
Qed.

(** C10, as stated, fails in three ways: a candidate is dropped,
    [total_results] being 0 for one candidate, with [k1 = -1], where every
    contribution is 0, and with the default parameters when the identifier
    of the candidate was used again for a document without tokens; and the
    search raises [KeyError] when the metadata of a candidate have no
    title. *)
Lemma candidate_score_counterexample :
  (length (remove_dups
             (candidate_insertions (finalize (build double_car)) [py "car"]))
   = 1%nat
   /\ exists res,
        search remove_dups (retriever (-1) 0.75 (finalize (build double_car)))
               (PyStr (py "car")) 10 (py "en") = Ok res
        /\ sr_total_results res = 0)
  /\ (length (remove_dups
                (candidate_insertions (finalize (build reused_id)) [py "car"]))
      = 1%nat
      /\ exists res,
           search remove_dups (default_retriever (finalize (build reused_id)))
                  (PyStr (py "car")) 10 (py "en") = Ok res
           /\ sr_total_results res = 0)
  /\ search remove_dups (default_retriever (finalize (build untitled)))
            (PyStr (py "car")) 10 (py "en") = Raise KeyError.
Proof.
  assert (preprocess (PyStr (py "car")) (py "en") = [py "car"]) as Hq
    by (vm_compute; reflexivity).
  split; [split|split; [split|]].
  - change (candidate_insertions (finalize (build double_car)) [py "car"])
      with (candidate_insertions (build double_car) [py "car"]).
    vm_compute. reflexivity.
  - eexists. rewrite (search_unfold remove_dups
             (retriever (-1) 0.75 (finalize (build double_car)))
             (finalize (build double_car)) _ _ _ _ _
             eq_refl Hq).
    change (candidate_insertions (finalize (build double_car)) [py "car"])
      with (candidate_insertions (build double_car) [py "car"]).
    replace (remove_dups (candidate_insertions (build double_car) [py "car"]))
      with [py "en_0"] by (vm_compute; reflexivity).
    rewrite (score_candidates_skip _ _ _ _ _
               (sum_R (index_term
                         (retriever (-1) 0.75 (finalize (build double_car)))
                         (finalize (build double_car)) (py "en_0")
                       <$> [py "car"]))).
    + done.
    + apply compute_bm25_score_formula; [done| | | | |].
      * exact (built_count_nonneg double_car).
      * exact (built_df_nonneg double_car).
      * eval_index. discriminate.
      * rewrite double_car_avg. lra.
      * intros term ->%list_elem_of_singleton _. unfold index_denominator.
        rewrite double_car_avg. eval_index. cbn [bm_k1 bm_b retriever]. lra.
    + rewrite fmap_cons, fmap_nil, sum_R_cons, sum_R_nil.
      unfold index_term, bm25_term. rewrite double_car_avg. eval_index.
      cbn [bm_k1 bm_b retriever].
      replace (2 * (-1 + 1) / (2 + -1 * (1 - 0.75 + 0.75 * (2 / 2))))%R
        with 0%R by lra.
      lra.
  - change (candidate_insertions (finalize (build reused_id)) [py "car"])
      with (candidate_insertions (build reused_id) [py "car"]).
    vm_compute. reflexivity.
  - eexists. rewrite (search_unfold remove_dups
             (default_retriever (finalize (build reused_id)))
             (finalize (build reused_id)) _ _ _ _ _
             eq_refl Hq).
    change (candidate_insertions (finalize (build reused_id)) [py "car"])
      with (candidate_insertions (build reused_id) [py "car"]).
    replace (remove_dups (candidate_insertions (build reused_id) [py "car"]))
      with [py "en_0"] by (vm_compute; reflexivity).
    rewrite (score_candidates_skip _ _ _ _ _ 0%R).
    + done.
    + apply (compute_bm25_score_no_length _ (finalize (build reused_id)));
        [done|]. eval_index. reflexivity.
    + lra.
  - rewrite (search_unfold remove_dups
             (default_retriever (finalize (build untitled)))
             (finalize (build untitled)) _ _ _ _ _
             eq_refl Hq).
    change (candidate_insertions (finalize (build untitled)) [py "car"])
      with (candidate_insertions (build untitled) [py "car"]).
    replace (remove_dups (candidate_insertions (build untitled) [py "car"]))
      with [py "en_0"] by (vm_compute; reflexivity).
    rewrite (score_candidates_no_title _ _ _ _ _
               (sum_R (index_term
                         (default_retriever (finalize (build untitled)))
                         (finalize (build untitled)) (py "en_0")
                       <$> [py "car"])) ∅).
    + done.
    + apply compute_bm25_score_formula; [done| | | | |].
      * exact (built_count_nonneg untitled).
      * exact (built_df_nonneg untitled).
      * eval_index. discriminate.
      * rewrite untitled_avg. lra.
      * intros term ->%list_elem_of_singleton _. unfold index_denominator.
        rewrite untitled_avg. eval_index.
        cbn [bm_k1 bm_b default_retriever]. lra.
    + rewrite fmap_cons, fmap_nil, sum_R_cons, sum_R_nil.
      unfold index_term. rewrite untitled_avg. eval_index.
      cbn [bm_k1 bm_b default_retriever].
      pose proof (bm25_term_pos 1.5 0.75 1 1 1 1 1
                    ltac:(lra) ltac:(lra) ltac:(lia) ltac:(lia) ltac:(lia)
                    ltac:(lra)).
      lra.
    + change (documents (finalize (build untitled)))
        with (documents (build untitled)).
      vm_compute. reflexivity.
    + done.
Qed.

(** ** Searching without an index, on an empty index, before [finalize] *)

Section Unfinalized.
Implicit Types (self : BM25Retriever) (term doc_id : pystr)
               (docs : list Doc).

Lemma search_without_index set_order self query top_k language :
  bm_index self = None ->
  search set_order self query top_k language = Raise ValueError.
Proof. intros Hidx. unfold search. by rewrite Hidx. Qed.

(** With no candidate the result is empty, whatever the statistics. *)
Lemma search_no_candidate set_order self idx query top_k language :
  (forall l, set_order l ≡ₚ remove_dups l) ->
  bm_index self = Some idx ->
  candidate_insertions idx (preprocess query language) = [] ->
  exists res,
    search set_order self query top_k language = Ok res
    /\ sr_results res = [] /\ sr_total_results res = 0.
Proof.
  intros Hperm Hidx Hnone. unfold search. rewrite Hidx.
  destruct (preprocess query language) as [|t ts]; [by eexists|].
  rewrite Hnone.
  pose proof (Hperm []) as Hnil. apply Permutation_nil_r in Hnil.
  rewrite Hnil. simpl. eexists. split; [reflexivity|]. simpl.
  split; [|done]. unfold slice_to.
  destruct (0 <=? top_k); by rewrite take_nil.
Qed.

Lemma search_empty_index set_order self idx query top_k language :
  (forall l, set_order l ≡ₚ remove_dups l) ->
  bm_index self = Some idx ->
  idx = empty_index \/ idx = finalize empty_index ->
  exists res,
    search set_order self query top_k language = Ok res
    /\ sr_results res = [] /\ sr_total_results res = 0.
Proof.
  intros Hperm Hidx Hempty. apply (search_no_candidate _ _ idx); try done.
  unfold candidate_insertions.
  induction (preprocess query language) as [|t ts IH]; [done|].
  rewrite bind_cons, IH.
  by destruct Hempty as [-> | ->].
Qed.

(** On a built index that was not finalized, the score of a document
    that holds a query term cannot be computed. *)
Lemma score_terms_unfinalized docs self doc_id query_terms score :
  bm_index self = Some (build docs) ->
  default 0 (doc_lengths (build docs) !! doc_id) <> 0 ->
  (exists term,
      term ∈ query_terms
      /\ find_tf (get_postings (build docs) term) doc_id <> 0) ->
  score_terms self (build docs) doc_id
              (default 0 (doc_lengths (build docs) !! doc_id))
              (avg_doc_length (build docs)) query_terms score
  = Raise ZeroDivisionError.
Proof.
  intros Hidx Hlen. revert score.
  induction query_terms as [|t ts IH]; intros score (term & Hin & Htf).
  { by apply elem_of_nil in Hin. }
  pose proof (build_df_bounds docs t) as Hdf.
  simpl. unfold score_term.
  rewrite (compute_idf_formula self (build docs) t Hidx);
    [|rewrite build_count; lia|lia].
  simpl.
  destruct (decide (find_tf (get_postings (build docs) t) doc_id = 0))
    as [Hz|Hnz].
  - assert (exists term, term ∈ ts
              /\ find_tf (get_postings (build docs) term) doc_id <> 0)
      as Hrest.
    { exists term. split; [|done].
      apply elem_of_cons in Hin as [->|?]; done. }
    destruct (Req_dec_T _ 0); [by apply IH|].
    rewrite Hz. simpl. by apply IH.
  - assert (1 <= get_document_frequency (build docs) t).
    { rewrite build_df. rewrite build_postings in Hnz.
      destruct (docs_with t docs); [done|simpl; lia]. }
    pose proof (idf_formula_pos (doc_count (build docs))
                  (get_document_frequency (build docs) t) ltac:(lia)).
    destruct (Req_dec_T _ 0) as [Hz|_]; [lra|].
    destruct (Z.eqb_spec (find_tf (get_postings (build docs) t) doc_id) 0);
      [done|].
    by rewrite build_avg, py_div_zero.
Qed.

Lemma find_tf_posting docs term doc_id :
  doc_id ∈ (get_postings (build docs) term).*1 ->
  find_tf (get_postings (build docs) term) doc_id <> 0.
Proof.
  rewrite build_posting_ids, build_postings. intros Hin.
  pose proof (find_tf_built_pos (docs_with term docs) term doc_id Hin) as Hp.
  assert (forall d, d ∈ docs_with term docs -> term ∈ d_tokens d) as Hall
    by (by intros d [? _]%list_elem_of_filter).
  specialize (Hp Hall). lia.
Qed.

Lemma candidate_length docs term doc_id :
  NoDup (d_id <$> docs) ->
  doc_id ∈ (get_postings (build docs) term).*1 ->
  default 0 (doc_lengths (build docs) !! doc_id) <> 0.
Proof.
  intros Hnd. rewrite build_posting_ids.
  intros (d & -> & [Hterm Hd]%list_elem_of_filter)%list_elem_of_fmap.
  rewrite build_length_of by done. simpl.
  destruct (d_tokens d); [by apply elem_of_nil in Hterm|simpl; lia].
Qed.
End Unfinalized.

(** C1. On an index to which documents with pairwise distinct identifiers
    were added and that was not finalized, a search with at least one
    candidate document does not return an empty result: it raises
    [ZeroDivisionError]. *)
Theorem search_unfinalized_index_raises
    (set_order : list pystr -> list pystr) (docs : list Doc)
    (self : BM25Retriever) (query : PyValue) (top_k : Z) (language : pystr) :
  (forall l, set_order l ≡ₚ remove_dups l) ->
  NoDup (d_id <$> docs) ->
  bm_index self = Some (build docs) ->
  candidate_insertions (build docs) (preprocess query language) <> [] ->
  search set_order self query top_k language = Raise ZeroDivisionError.
Proof.
  intros Hperm Hnd Hidx Hcand. unfold search. rewrite Hidx.
  destruct (preprocess query language) as [|t ts] eqn:Hq; [done|].
  rewrite <- Hq in *.
  set (query_terms := preprocess query language) in *.
  destruct (set_order (candidate_insertions (build docs) query_terms))
    as [|doc_id rest] eqn:Horder.
  { pose proof (Hperm (candidate_insertions (build docs) query_terms)) as Hp.
    rewrite Horder in Hp. symmetry in Hp. apply Permutation_nil_r in Hp.
    destruct (candidate_insertions (build docs) query_terms) as [|x l] eqn:Hc;
      [done|].
    assert (x ∈ remove_dups (x :: l)) as Hx
      by (apply elem_of_remove_dups; by left).
    rewrite Hp in Hx. by apply elem_of_nil in Hx. }
  assert (doc_id ∈ candidate_insertions (build docs) query_terms) as Hin.
  { apply (elem_of_set_order set_order Hperm). rewrite Horder. by left. }
  apply elem_of_candidate_insertions in Hin as (term & Hterm & Hpost).
  rewrite (score_candidates_raise _ _ _ _ _ ZeroDivisionError); [done|].
  unfold compute_bm25_score. rewrite Hidx. simpl.
  pose proof (candidate_length docs term doc_id Hnd Hpost) as Hlen.
  destruct (Z.eqb_spec (default 0 (doc_lengths (build docs) !! doc_id)) 0);
    [done|].
  apply score_terms_unfinalized; [done|done|].
  exists term. split; [done|]. by apply find_tf_posting.
Qed.

Lemma search_unfinalized_index_raises_witness :
  search remove_dups (default_retriever (build single_car))
         (PyStr (py "car")) 10 (py "auto")
  = Raise ZeroDivisionError.
Proof.
  apply (search_unfinalized_index_raises remove_dups single_car).
  - intros l. reflexivity.
  - apply (bool_decide_unpack _). vm_compute. exact I.
  - reflexivity.
  - vm_compute. discriminate.
Defined.

(** ** Text processing *)

Ltac chars :=
  unfold is_lower_alnum, is_ascii_alnum, is_bangla_char, isspace, lower_char,
    between in *;
  repeat match goal with
         | H : _ = true |- _ =>
             rewrite ?orb_true_iff, ?andb_true_iff, ?N.leb_le, ?N.eqb_eq in H
         | H : _ = false |- _ =>
             rewrite ?orb_false_iff, ?andb_false_iff, ?N.leb_gt, ?N.eqb_neq in H
         end;
  rewrite ?orb_true_iff, ?andb_true_iff, ?orb_false_iff, ?andb_false_iff,
    ?N.leb_le, ?N.leb_gt, ?N.eqb_eq, ?N.eqb_neq;
  try lia.

(** A run of the whole pipeline: the URL and the address go, [in] is a
    stop word, [a] is too short. *)
Example preprocess_cheap_car :
  preprocess (PyStr (py "Cheap car deals in Dhaka, see http://x.y or a@b.c!"))
             (py "auto")
  = [py "cheap"; py "car"; py "deals"; py "dhaka"; py "see"; py "or"].
Proof. vm_compute. reflexivity. Qed.

Section Characters.
Implicit Types c : N.

Lemma bangla_not_space c : is_bangla_char c = true -> isspace c = false.
Proof. intros H. chars. Qed.

Lemma lower_alnum_not_space c : is_lower_alnum c = true -> isspace c = false.
Proof. intros H. chars. Qed.

Lemma lower_alnum_is_alnum c :
  is_lower_alnum c = true -> is_ascii_alnum c = true.
Proof. intros H. chars. Qed.

Lemma lower_alnum_not_bangla c :
  is_lower_alnum c = true -> is_bangla_char c = false.
Proof. intros H. chars. Qed.


Lemma lower_char_space c : isspace c = true -> lower_char c = c.
Proof.
  intros H. unfold lower_char.
  destruct (between 65 90 c) eqn:Hb; [|done]. exfalso. chars.
Qed.

Lemma lower_char_bangla c : is_bangla_char c = true -> lower_char c = c.
Proof.
  intros H. unfold lower_char.
  destruct (between 65 90 c) eqn:Hb; [|done]. exfalso. chars.
Qed.

Lemma lower_char_lower c : is_lower_alnum c = true -> lower_char c = c.
Proof.
  intros H. unfold lower_char.
  destruct (between 65 90 c) eqn:Hb; [|done]. exfalso. chars.
Qed.

Lemma lower_char_alnum c :
  is_ascii_alnum c = true -> is_lower_alnum (lower_char c) = true.
Proof.
  intros H. unfold lower_char.
  destruct (between 65 90 c) eqn:Hb; chars.
Qed.

Lemma lower_alnum_not_at c : is_lower_alnum c = true -> c <> 0x40%N.
Proof. intros H. chars. Qed.

Lemma bangla_not_at c : is_bangla_char c = true -> c <> 0x40%N.
Proof. intros H. chars. Qed.
End Characters.

Section Strings.
Implicit Types (s run t : pystr) (ts : list pystr) (c : N).

(** *** [split] *)

Lemma split_from_token run t s :
  Forall (fun c => isspace c = false) t ->
  split_from run (t ++ s) = split_from (run ++ t) s.
Proof.
  intros Ht. revert run.
  induction Ht as [|c t Hc _ IH]; intros run; simpl.
  - by rewrite app_nil_r.
  - rewrite Hc, IH, <- app_assoc. done.
Qed.

Lemma split_from_space run s :
  split_from run (0x20%N :: s) = emit_run run ++ split_from [] s.
Proof. done. Qed.

Lemma split_join ts :
  Forall (fun t => t <> [] /\ Forall (fun c => isspace c = false) t) ts ->
  split (join_space ts) = ts.
Proof.
  unfold split. induction 1 as [|t ts [Hne Ht] Hts IH]; [done|].
  destruct ts as [|t' ts].
  - simpl. rewrite <- (app_nil_r t) at 1.
    rewrite split_from_token by done. simpl. by destruct t.
  - change (join_space (t :: t' :: ts))
      with (t ++ 0x20%N :: join_space (t' :: ts)).
    rewrite split_from_token, split_from_space, IH by done. simpl.
    by destruct t.
Qed.

(** The tokens of a text whose characters are white space or in an
    alphabet without white space. *)
Lemma split_from_clean (alphabet : N -> bool) run s :
  (forall c, alphabet c = true -> isspace c = false) ->
  Forall (fun c => alphabet c = true) run ->
  Forall (fun c => alphabet c = true \/ isspace c = true) s ->
  Forall (clean_token alphabet) (split_from run s).
Proof.
  intros Hns Hrun Hs. revert run Hrun.
  induction Hs as [|c s Hc _ IH]; intros run Hrun; simpl.
  - destruct run as [|c0 run']; [constructor|].
    constructor; [by split|constructor].
  - destruct (isspace c) eqn:Hsp.
    + apply Forall_app. split; [|by apply IH].
      destruct run as [|c0 run']; [constructor|].
      constructor; [by split|constructor].
    + apply IH. apply Forall_app. split; [done|].
      constructor; [|done]. destruct Hc as [?|?]; [done|congruence].
Qed.

(** *** [strip] *)

Lemma lstrip_nonspace t :
  Forall (fun c => isspace c = false) t -> lstrip t = t.
Proof. destruct 1 as [|c t Hc _]; simpl; [done|]. by rewrite Hc. Qed.

Lemma strip_nonspace t :
  Forall (fun c => isspace c = false) t -> strip t = t.
Proof.
  intros Ht. unfold strip. rewrite (lstrip_nonspace t Ht).
  rewrite lstrip_nonspace; [apply rev_involutive|].
  apply Forall_forall. intros c Hc. rewrite Forall_forall in Ht.
  apply Ht. apply list_elem_of_In, in_rev, list_elem_of_In in Hc. done.
Qed.

Lemma strip_tokens ts :
  Forall (fun t => t <> [] /\ Forall (fun c => isspace c = false) t) ts ->
  strip <$> List.filter (fun t => truthy (PyStr (strip t))) ts = ts.
Proof.
  induction 1 as [|t ts [Hne Ht] _ IH]; [done|].
  assert (truthy (PyStr (strip t)) = true) as Htruthy
    by (rewrite strip_nonspace by done; by destruct t).
  cbn [List.filter]. rewrite Htruthy, fmap_cons, IH.
  by rewrite strip_nonspace.
Qed.

(** *** The substitutions *)

Lemma strip_urls_none s : has_url s = false -> strip_urls s = s.
Proof.
  unfold strip_urls. induction s as [|c s IH]; [done|].
  intros [Hhead Htail]%orb_false_iff.
  change (strip_urls_from false (c :: s))
    with (if starts_url (c :: s) then strip_urls_from true s
          else c :: strip_urls_from false s).
  rewrite Hhead, IH by done. done.
Qed.

Lemma removelast_Forall {A} (P : A -> Prop) (l : list A) :
  Forall P l -> Forall P (removelast l).
Proof.
  induction 1 as [|x l Hx Hl IH]; [constructor|]. simpl.
  destruct l; [constructor|]. by constructor.
Qed.

Lemma no_at_no_email run :
  Forall (fun c => c <> 0x40%N) run -> flush_email_run run = run.
Proof.
  intros Hrun. unfold flush_email_run, is_email_run.
  destruct run as [|c rest]; [done|].
  apply Forall_cons in Hrun as [_ Hrest].
  apply removelast_Forall in Hrest.
  replace (existsb (N.eqb 64) (removelast rest)) with false; [done|].
  symmetry. induction Hrest as [|x l Hx _ IH]; [done|].
  cbn [existsb]. rewrite IH, orb_false_r. apply N.eqb_neq. congruence.
Qed.

Lemma strip_emails_from_none run s :
  Forall (fun c => c <> 0x40%N) run ->
  Forall (fun c => c <> 0x40%N) s ->
  strip_emails_from run s = run ++ s.
Proof.
  intros Hrun Hs. revert run Hrun.
  induction Hs as [|c s Hc _ IH]; intros run Hrun; simpl.
  - rewrite app_nil_r. by apply no_at_no_email.
  - destruct (isspace c).
    + rewrite IH by constructor. rewrite no_at_no_email by done. done.
    + rewrite IH by (apply Forall_app; split; [done|by constructor]).
      by rewrite <- app_assoc.
Qed.

Lemma strip_emails_none s :
  Forall (fun c => c <> 0x40%N) s -> strip_emails s = s.
Proof. intros Hs. by apply (strip_emails_from_none [] s). Qed.

Lemma fmap_fixed (f : N -> N) s :
  Forall (fun c => f c = c) s -> f <$> s = s.
Proof. induction 1 as [|c s Hc _ IH]; [done|]. by rewrite fmap_cons, Hc, IH. Qed.

(** *** [join] *)

Lemma join_space_chars (P : N -> Prop) ts :
  P 0x20%N -> Forall (Forall P) ts -> Forall P (join_space ts).
Proof.
  intros Hsp. induction 1 as [|t ts Ht Hts IH]; [constructor|].
  destruct ts as [|t' ts]; [done|].
  change (join_space (t :: t' :: ts))
    with (t ++ 0x20%N :: join_space (t' :: ts)).
  apply Forall_app. split; [done|]. by constructor.
Qed.

Lemma join_space_nil ts :
  Forall (fun t => t <> []) ts -> join_space ts = [] -> ts = [].
Proof.
  destruct 1 as [|t ts Ht _]; [done|]. destruct ts; simpl.
  - done.
  - destruct t; done.
Qed.

Lemma join_space_head t ts :
  exists rest, join_space (t :: ts) = t ++ rest.
Proof.
  destruct ts as [|t' ts]; [exists []; simpl; by rewrite app_nil_r|].
  by eexists.
Qed.

(** *** Filters *)

Lemma filter_all {A} (f : A -> bool) (l : list A) :
  Forall (fun x => f x = true) l -> List.filter f l = l.
Proof. induction 1 as [|x l Hx _ IH]; simpl; [done|]. by rewrite Hx, IH. Qed.

Lemma filter_Forall {A} (f : A -> bool) (l : list A) :
  Forall (fun x => f x = true) (List.filter f l).
Proof.
  induction l as [|x l IH]; simpl; [constructor|].
  destruct (f x) eqn:Hx; [by constructor|done].
Qed.

Lemma filter_keeps {A} (P : A -> Prop) (f : A -> bool) (l : list A) :
  Forall P l -> Forall P (List.filter f l).
Proof.
  induction 1 as [|x l Hx _ IH]; simpl; [constructor|].
  destruct (f x); [by constructor|done].
Qed.
End Strings.

(** ** Preprocessing clean text again *)

Section Idempotence.
Implicit Types (s t : pystr) (ts : list pystr) (c : N)
               (language script : pystr).

Lemma alphabet_not_space script c :
  alphabet_of script c = true -> isspace c = false.
Proof.
  unfold alphabet_of. case_bool_decide.
  - apply bangla_not_space.
  - apply lower_alnum_not_space.
Qed.

Lemma alphabet_lower script c :
  alphabet_of script c = true -> lower_char c = c.
Proof.
  unfold alphabet_of. case_bool_decide.
  - apply lower_char_bangla.
  - apply lower_char_lower.
Qed.

Lemma alphabet_not_at script c :
  alphabet_of script c = true -> c <> 0x40%N.
Proof.
  unfold alphabet_of. case_bool_decide.
  - apply bangla_not_at.
  - apply lower_alnum_not_at.
Qed.

Lemma clean_token_nonspace script t :
  clean_token (alphabet_of script) t ->
  t <> [] /\ Forall (fun c => isspace c = false) t.
Proof.
  intros [Hne Ht]. split; [done|].
  eapply Forall_impl; [exact Ht|]. apply alphabet_not_space.
Qed.

(** What the script filter and the lowering leave of a character. *)
Lemma filtered_char script c :
  let c' := lower_char (if bool_decide (script = py "bn")
                        then (if is_bangla_char c || isspace c
                              then c else 0x20%N)
                        else (if is_ascii_alnum c || isspace c
                              then c else 0x20%N)) in
  alphabet_of script c' = true \/ isspace c' = true.
Proof.
  unfold alphabet_of. case_bool_decide; simpl.
  - destruct (is_bangla_char c) eqn:Hb; simpl.
    + left. by rewrite lower_char_bangla.
    + right. destruct (isspace c) eqn:Hs.
      * by rewrite lower_char_space.
      * done.
  - destruct (is_ascii_alnum c) eqn:Ha; simpl.
    + left. by apply lower_char_alnum.
    + right. destruct (isspace c) eqn:Hs.
      * by rewrite lower_char_space.
      * done.
Qed.

Lemma filtered_text script s :
  Forall (fun c => alphabet_of script c = true \/ isspace c = true)
         (lower (keep_script script s)).
Proof.
  unfold lower, keep_script, keep_bangla, keep_english.
  apply Forall_forall. intros c' Hc'.
  pose proof (filtered_char script) as Hchar. simpl in Hchar.
  case_bool_decide;
    apply list_elem_of_fmap in Hc' as (c1 & -> & Hc1);
    apply list_elem_of_fmap in Hc1 as (c & -> & _);
    apply Hchar.
Qed.

Lemma tokenize_unfold s language :
  tokenize s language
  = strip <$> List.filter (fun t => truthy (PyStr (strip t)))
                (split (lower (keep_script (script_of s language)
                                 (strip_emails (strip_urls s))))).
Proof. done. Qed.

(** The tokens of any text are clean over the alphabet of its script. *)
Lemma tokenize_clean s language :
  Forall (clean_token (alphabet_of (script_of s language)))
         (tokenize s language).
Proof.
  rewrite tokenize_unfold.
  set (script := script_of s language).
  assert (Forall (clean_token (alphabet_of script))
            (split (lower (keep_script script
                             (strip_emails (strip_urls s)))))) as Hclean.
  { apply split_from_clean; [apply alphabet_not_space|constructor|].
    apply filtered_text. }
  rewrite strip_tokens; [done|].
  eapply Forall_impl; [exact Hclean|]. apply clean_token_nonspace.
Qed.

(** The space-joined rendering of clean tokens has the same script. *)
Lemma script_of_join s language ts :
  ts <> [] ->
  Forall (clean_token (alphabet_of (script_of s language))) ts ->
  script_of (join_space ts) language = script_of s language.
Proof.
  intros Hne Hts. unfold script_of in *.
  case_bool_decide as Hauto; [|done].
  destruct (is_bangla s) eqn:Hs.
  - destruct Hts as [|t ts [Ht Hchars] _]; [done|].
    destruct (join_space_head t ts) as [rest ->].
    destruct Hchars as [|c t Hc _]; [done|].
    unfold is_bangla. simpl. unfold alphabet_of in Hc. simpl in Hc.
    by rewrite Hc.
  - replace (is_bangla (join_space ts)) with false; [done|].
    symmetry. unfold is_bangla. apply not_true_is_false.
    intros (c & Hin & Hc)%existsb_exists.
    assert (Forall (fun c => is_bangla_char c = false) (join_space ts))
      as Hall.
    { apply join_space_chars; [done|].
      eapply Forall_impl; [exact Hts|]. intros t [_ Ht].
      eapply Forall_impl; [exact Ht|]. intros c'.
      unfold alphabet_of. simpl. apply lower_alnum_not_bangla. }
    rewrite Forall_forall in Hall.
    apply list_elem_of_In in Hin. rewrite (Hall c Hin) in Hc. done.
Qed.

(** Tokenizing the rendering of clean tokens gives the tokens back. *)
Lemma tokenize_join s language ts :
  ts <> [] ->
  Forall (clean_token (alphabet_of (script_of s language))) ts ->
  has_url (join_space ts) = false ->
  tokenize (join_space ts) language = ts.
Proof.
  intros Hne Hts Hurl. rewrite tokenize_unfold.
  rewrite (script_of_join s language ts Hne Hts).
  set (script := script_of s language) in *.
  assert (Forall (fun c => alphabet_of script c = true \/ c = 0x20%N)
            (join_space ts)) as Hchars.
  { apply join_space_chars; [by right|].
    eapply Forall_impl; [exact Hts|]. intros t [_ Ht].
    eapply Forall_impl; [exact Ht|]. by left. }
  rewrite strip_urls_none by done.
  rewrite strip_emails_none.
  2:{ eapply Forall_impl; [exact Hchars|].
      intros c [Hc| ->]; [by apply (alphabet_not_at script)|done]. }
  replace (keep_script script (join_space ts)) with (join_space ts).
  2:{ symmetry. unfold keep_script, keep_bangla, keep_english.
      unfold alphabet_of in Hchars.
      case_bool_decide; apply fmap_fixed;
        (eapply Forall_impl; [exact Hchars|]);
        intros c [Hc| ->]; try done.
      - by rewrite Hc.
      - by rewrite (lower_alnum_is_alnum c Hc). }
  unfold lower. rewrite fmap_fixed.
  2:{ eapply Forall_impl; [exact Hchars|].
      intros c [Hc| ->]; [by apply (alphabet_lower script)|done]. }
  assert (Forall (fun t => t <> []
                           /\ Forall (fun c => isspace c = false) t) ts)
    as Hns.
  { eapply Forall_impl; [exact Hts|]. apply clean_token_nonspace. }
  rewrite split_join by done. by apply strip_tokens.
Qed.

(** On clean tokens the stop words depend on the script only. *)
Lemma remove_stopwords_clean script language ts :
  Forall (clean_token (alphabet_of script)) ts ->
  remove_stopwords ts language
  = List.filter (fun t => negb (str_in t (stopwords_for script language)))
                ts.
Proof.
  intros Hts. unfold remove_stopwords, stopwords_for.
  destruct (bool_decide (language = py "auto")) eqn:Hauto; [|done].
  destruct Hts as [|t ts [Hne Ht] _]; [done|].
  replace (is_bangla t) with (bool_decide (script = py "bn")); [done|].
  destruct Ht as [|c t Hc Ht]; [done|].
  unfold alphabet_of in *. unfold is_bangla. revert Hc Ht.
  destruct (bool_decide (script = py "bn")); intros Hc Ht.
  - simpl. by rewrite Hc.
  - symmetry. apply not_true_is_false.
    intros (c' & Hin & Hc')%existsb_exists.
    apply list_elem_of_In in Hin.
    assert (Forall (fun c => is_lower_alnum c = true) (c :: t)) as Hall
      by (by constructor).
    rewrite Forall_forall in Hall.
    rewrite (lower_alnum_not_bangla c' (Hall c' Hin)) in Hc'. done.
Qed.
End Idempotence.

(** C8 (amended). If the space-joined rendering of the tokens that
    [preprocess] produced has no run of the form [http] or [www] followed
    by another character, then [preprocess] with the same language hint
    returns the same tokens for it. *)
Theorem preprocess_idempotent_on_clean_text (text : PyValue)
    (language : pystr) :
  has_url (join_space (preprocess text language)) = false ->
  preprocess (PyStr (join_space (preprocess text language))) language
  = preprocess text language.
Proof.
  intros Hurl.
  destruct (decide (preprocess text language = [])) as [Hnil|Hne].
  { by rewrite Hnil. }
  destruct text as [| | |s|]; try done.
  unfold preprocess in Hne, Hurl |- *.
  destruct (negb (truthy (PyStr s))) eqn:Hs; [done|].
  set (script := script_of s language).
  pose proof (tokenize_clean s language) as Hclean. fold script in Hclean.
  rewrite (remove_stopwords_clean script language _ Hclean) in *.
  set (stop := fun t => negb (str_in t (stopwords_for script language))) in *.
  set (long := fun t : pystr => 1 <? Z.of_nat (length t)) in *.
  set (tokens := List.filter long (List.filter stop (tokenize s language)))
    in *.
  assert (Forall (clean_token (alphabet_of script)) tokens) as Htokens
    by (by do 2 apply filter_keeps).
  assert (negb (truthy (PyStr (join_space tokens))) = false) as ->.
  { destruct (join_space tokens) eqn:Hj; [|done].
    apply join_space_nil in Hj; [done|].
    eapply Forall_impl; [exact Htokens|]. by intros t [? _]. }
  rewrite (tokenize_join s language tokens Hne Htokens Hurl).
  rewrite (remove_stopwords_clean script language _ Htokens).
  fold stop long.
  rewrite (filter_all stop tokens).
  - apply filter_all. apply filter_Forall.
  - apply filter_keeps. apply filter_Forall.
Qed.

Lemma preprocess_idempotent_on_clean_text_witness :
  preprocess
    (PyStr (join_space
              (preprocess (PyStr (py "Cheap car deals in Dhaka")) (py "auto"))))
    (py "auto")
  = preprocess (PyStr (py "Cheap car deals in Dhaka")) (py "auto").
Proof.
  apply (preprocess_idempotent_on_clean_text
           (PyStr (py "Cheap car deals in Dhaka")) (py "auto")).
  vm_compute. reflexivity.
Defined.

(** C8, as stated, fails: the URL pattern is matched before the text is
    lowered, so [HTTPS] becomes the token [https], which a second run
    removes as a URL. *)
Lemma preprocess_idempotence_counterexample :
  preprocess (PyStr (py "HTTPS")) (py "en") = [py "https"]
  /\ join_space [py "https"] = py "https"
  /\ preprocess (PyStr (py "https")) (py "en") = [].
Proof. vm_compute. done. Qed.

(* ===================================================================== *)
(** * Part III. Further properties of the code                            *)
(* ===================================================================== *)

(** ** The result of a search *)

Section ResultFacts.
Implicit Types (self : BM25Retriever) (idx : InvertedIndex)
               (l : list ScoredDoc).

(** What a search that gets past its guards returns. *)
Lemma search_Ok set_order self query top_k language res :
  search set_order self query top_k language = Ok res ->
  exists idx scored,
    bm_index self = Some idx
    /\ score_candidates self idx (preprocess query language)
         (match preprocess query language with
          | [] => []
          | _ => set_order (candidate_insertions idx
                              (preprocess query language))
          end) = Ok scored
    /\ sr_results res = annotate_all (slice_to (sort_desc scored) top_k)
    /\ sr_total_results res = Z.of_nat (length scored).
Proof.
  unfold search. destruct (bm_index self) as [idx|]; [|done].
  intros Hres. exists idx.
  destruct (preprocess query language) as [|t ts].
  - exists []. inversion Hres; subst. simpl.
    repeat split; try done. unfold slice_to.
    destruct (0 <=? top_k); by rewrite take_nil.
  - apply bind_Ok in Hres as (scored & Hscored & Hres).
    exists scored. inversion Hres; subst. simpl.
    by rewrite (Permutation_length (sort_desc_perm scored)).
Qed.

Lemma annotate_all_cons first rest :
  annotate_all (first :: rest)
  = annotate (sd_score first) <$> (first :: rest).
Proof. done. Qed.

Lemma annotate_all_length l : length (annotate_all l) = length l.
Proof. by rewrite <- (length_fmap hit_doc), annotate_all_docs. Qed.

Lemma slice_to_length_exact {A} (l : list A) (k : Z) :
  Z.of_nat (length (slice_to l k))
  = if 0 <=? k then Z.min k (Z.of_nat (length l))
    else Z.max 0 (Z.of_nat (length l) + k).
Proof. unfold slice_to. destruct (0 <=? k) eqn:Hk; rewrite length_take; lia. Qed.

Lemma slice_to_mono {A} (l : list A) (k k' : Z) :
  0 <= k <= k' -> slice_to l k `prefix_of` slice_to l k'.
Proof.
  intros [Hk Hk']. unfold slice_to.
  rewrite (proj2 (Z.leb_le 0 k)), (proj2 (Z.leb_le 0 k')) by lia.
  replace (Z.to_nat k) with (Z.to_nat k `min` Z.to_nat k')%nat by lia.
  rewrite <- take_take. apply prefix_take.
Qed.

Lemma positive_confidence (m s : R) :
  (0 < s <= m)%R -> (0 < s / m <= 1)%R.
Proof.
  intros [Hs Hm]. split; [apply Rdiv_lt_0_compat; lra|].
  apply (Rmult_le_reg_r m); [lra|]. unfold Rdiv.
  rewrite Rmult_assoc, Rinv_l by lra. lra.
Qed.
End ResultFacts.

(** A search of the sample corpus that returns. *)
Lemma dealers_search (top_k : Z) :
  exists res,
    search remove_dups (default_retriever (finalize (build dealers)))
           (PyStr (py "cheap car")) top_k (py "auto") = Ok res.
Proof.
  destruct (search_on_corpus remove_dups (fun l => reflexivity _) dealers
              (default_retriever (finalize (build dealers)))
              (PyStr (py "cheap car")) top_k (py "auto")
              dealers_NoDup dealers_searchable eq_refl)
    as (scored & Hres & _).
  - simpl. lra.
  - simpl. lra.
  - vm_compute. discriminate.
  - eauto.
Qed.

(** X1. Every result of a search has a positive score and a confidence,
    its score divided by the score of the first result, that is positive
    and at most 1; the first result has confidence 1, and the caution flag
    is set exactly when the confidence is below 0.3. *)
Theorem results_carry_normalized_confidence
    (set_order : list pystr -> list pystr) (self : BM25Retriever)
    (query : PyValue) (top_k : Z) (language : pystr) (res : SearchResults) :
  search set_order self query top_k language = Ok res ->
  Forall (fun h =>
            (0 < sd_score (hit_doc h))%R
            /\ (0 < hit_confidence h <= 1)%R
            /\ (hit_caution h = true <-> (hit_confidence h < 0.3)%R))
         (sr_results res)
  /\ (forall first,
        head (sr_results res) = Some first ->
        hit_confidence first = 1%R
        /\ Forall (fun h =>
                     hit_confidence h
                     = (sd_score (hit_doc h) / sd_score (hit_doc first))%R)
                  (sr_results res)).
Proof.
  intros (idx & scored & _ & Hscored & -> & _)%search_Ok.
  apply score_candidates_Ok in Hscored as [_ Hpos].
  assert (Forall (fun sd => 0 < sd_score sd)%R (sort_desc scored)) as Hpos'.
  { rewrite (sort_desc_perm scored).
    eapply Forall_impl; [exact Hpos|]. by intros sd [_ ?]. }
  destruct (slice_to_take (sort_desc scored) top_k) as [n ->].
  pose proof (sort_desc_sorted scored) as Hsorted.
  rewrite <- (take_drop n (sort_desc scored)) in Hsorted, Hpos'.
  apply StronglySorted_app_1_l in Hsorted.
  apply Forall_app in Hpos' as [Hpos' _].
  destruct (take n (sort_desc scored)) as [|first rest]; [by split|].
  rewrite annotate_all_cons.
  apply StronglySorted_cons in Hsorted as [Hfirst _].
  assert (Forall (fun sd => 0 < sd_score sd <= sd_score first)%R
                 (first :: rest)) as Hbounds.
  { apply Forall_cons in Hpos' as [Hp Hrest]. constructor; [lra|].
    apply Forall_forall. intros sd Hsd. rewrite Forall_forall in Hrest, Hfirst.
    split; [by apply Hrest|]. by apply Hfirst. }
  assert (0 < sd_score first)%R as Hmax
    by (by apply Forall_cons in Hpos' as [? _]).
  split.
  - apply Forall_fmap. eapply Forall_impl; [exact Hbounds|].
    intros sd Hsd. unfold annotate. simpl.
    destruct (Rlt_dec 0 (sd_score first)); [|done].
    pose proof (positive_confidence _ _ Hsd).
    split; [lra|]. split; [done|].
    destruct (Rlt_dec _ 0.3); split; done.
  - assert (Forall (fun h => hit_confidence h
                              = (sd_score (hit_doc h) / sd_score first)%R)
                   (annotate (sd_score first) <$> first :: rest)) as Hconf.
    { apply Forall_fmap, Forall_forall. intros sd _. unfold annotate. simpl.
      by destruct (Rlt_dec 0 (sd_score first)). }
    intros h Hh. rewrite fmap_cons in Hh, Hconf. injection Hh as <-.
    split; [|exact Hconf].
    unfold annotate. simpl.
    destruct (Rlt_dec 0 (sd_score first)); [|done]. field. lra.
Qed.

Lemma results_carry_normalized_confidence_witness :
  exists res,
    search remove_dups (default_retriever (finalize (build dealers)))
           (PyStr (py "cheap car")) 10 (py "auto") = Ok res
    /\ Forall (fun h =>
                 (0 < sd_score (hit_doc h))%R
                 /\ (0 < hit_confidence h <= 1)%R
                 /\ (hit_caution h = true <-> (hit_confidence h < 0.3)%R))
              (sr_results res).
Proof.
  destruct (dealers_search 10) as [res Hres].
  exists res. split; [exact Hres|].
  exact (proj1 (results_carry_normalized_confidence _ _ _ _ _ _ Hres)).
Defined.

(** X2. A search returns the first [top_k] of the documents it counts in
    [total_results]; for a negative [top_k] it returns all but the last
    [-top_k] of them. *)
Theorem results_are_cut_at_top_k
    (set_order : list pystr -> list pystr) (self : BM25Retriever)
    (query : PyValue) (top_k : Z) (language : pystr) (res : SearchResults) :
  search set_order self query top_k language = Ok res ->
  0 <= sr_total_results res
  /\ Z.of_nat (length (sr_results res))
     = if 0 <=? top_k then Z.min top_k (sr_total_results res)
       else Z.max 0 (sr_total_results res + top_k).
Proof.
  intros (idx & scored & _ & _ & -> & ->)%search_Ok.
  split; [lia|].
  rewrite annotate_all_length, slice_to_length_exact.
  by rewrite (Permutation_length (sort_desc_perm scored)).
Qed.

Lemma results_are_cut_at_top_k_witness :
  exists res,
    search remove_dups (default_retriever (finalize (build dealers)))
           (PyStr (py "cheap car")) 1 (py "auto") = Ok res
    /\ Z.of_nat (length (sr_results res))
       = Z.min 1 (sr_total_results res).
Proof.
  destruct (dealers_search 1) as [res Hres].
  exists res. split; [exact Hres|].
  exact (proj2 (results_are_cut_at_top_k _ _ _ _ _ _ Hres)).
Defined.

(** X3. No document is returned twice. *)
Theorem results_name_each_document_once
    (set_order : list pystr -> list pystr) (self : BM25Retriever)
    (query : PyValue) (top_k : Z) (language : pystr) (res : SearchResults) :
  (forall l, set_order l ≡ₚ remove_dups l) ->
  search set_order self query top_k language = Ok res ->
  NoDup ((fun h => sd_doc_id (hit_doc h)) <$> sr_results res).
Proof.
  intros Hperm (idx & scored & _ & Hscored & -> & _)%search_Ok.
  rewrite (list_fmap_compose hit_doc sd_doc_id), annotate_all_docs.
  apply score_candidates_Ok in Hscored as [Hsub _].
  destruct (slice_to_take (sort_desc scored) top_k) as [n ->].
  eapply sublist_NoDup; [|apply fmap_sublist, sublist_take].
  rewrite (sort_desc_perm scored).
  eapply sublist_NoDup; [|exact Hsub].
  destruct (preprocess query language); [constructor|].
  rewrite (Hperm _). apply NoDup_remove_dups.
Qed.

Lemma results_name_each_document_once_witness :
  exists res,
    search remove_dups (default_retriever (finalize (build dealers)))
           (PyStr (py "cheap car")) 10 (py "auto") = Ok res
    /\ NoDup ((fun h => sd_doc_id (hit_doc h)) <$> sr_results res).
Proof.
  destruct (dealers_search 10) as [res Hres].
  exists res. split; [exact Hres|].
  exact (results_name_each_document_once remove_dups _ _ _ _ _
           (fun l => reflexivity _) Hres).
Defined.

(** X4. With a smaller [top_k] a search returns a prefix of what it
    returns with a larger one, with the same confidences, and the same
    [total_results]. *)
Theorem smaller_top_k_gives_a_prefix
    (set_order : list pystr -> list pystr) (self : BM25Retriever)
    (query : PyValue) (top_k top_k' : Z) (language : pystr)
    (res res' : SearchResults) :
  0 <= top_k <= top_k' ->
  search set_order self query top_k language = Ok res ->
  search set_order self query top_k' language = Ok res' ->
  sr_results res `prefix_of` sr_results res'
  /\ sr_total_results res = sr_total_results res'.
Proof.
  intros Hk (idx & scored & Hidx & Hscored & -> & ->)%search_Ok
         (idx' & scored' & Hidx' & Hscored' & -> & ->)%search_Ok.
  assert (idx' = idx) as -> by congruence.
  assert (scored' = scored) as -> by congruence.
  split; [|done].
  destruct (slice_to_mono (sort_desc scored) top_k top_k' Hk) as [rest ->].
  destruct (slice_to (sort_desc scored) top_k) as [|first top]; simpl.
  - apply prefix_nil.
  - rewrite fmap_app. by eexists.
Qed.

Lemma smaller_top_k_gives_a_prefix_witness :
  exists res res',
    search remove_dups (default_retriever (finalize (build dealers)))
           (PyStr (py "cheap car")) 1 (py "auto") = Ok res
    /\ search remove_dups (default_retriever (finalize (build dealers)))
              (PyStr (py "cheap car")) 2 (py "auto") = Ok res'
    /\ sr_results res `prefix_of` sr_results res'.
Proof.
  destruct (dealers_search 1) as [res Hres].
  destruct (dealers_search 2) as [res' Hres'].
  exists res, res'. split; [exact Hres|]. split; [exact Hres'|].
  exact (proj1 (smaller_top_k_gives_a_prefix remove_dups _ _ 1 2 _ _ _
                  ltac:(lia) Hres Hres')).
Defined.

(** ** Scores and IDF on a built index *)

Section BuiltIndex.
Implicit Types (self : BM25Retriever) (idx : InvertedIndex)
               (term doc_id : pystr) (docs : list Doc).

(** The statistics that [compute_idf] reads are those of the build. *)
Lemma built_statistics docs idx term :
  idx = build docs \/ idx = finalize (build docs) ->
  doc_count idx = Z.of_nat (length docs)
  /\ get_document_frequency idx term = Z.of_nat (length (docs_with term docs))
  /\ get_postings idx term = get_postings (build docs) term.
Proof.
  intros [-> | ->].
  - by rewrite build_count, build_df.
  - rewrite finalize_df, finalize_postings, build_df.
    split; [|done]. simpl. apply build_count.
Qed.

Lemma built_compute_idf docs idx self term :
  idx = build docs \/ idx = finalize (build docs) ->
  bm_index self = Some idx ->
  compute_idf self term
  = Ok (idf_formula (Z.of_nat (length docs))
                    (Z.of_nat (length (docs_with term docs)))).
Proof.
  intros Hbuilt Hidx.
  destruct (built_statistics docs idx term Hbuilt) as (HN & Hdf & _).
  rewrite (compute_idf_formula self idx term Hidx) by lia.
  by rewrite HN, Hdf.
Qed.

Lemma docs_with_length docs term :
  (length (docs_with term docs) <= length docs)%nat.
Proof. apply length_filter. Qed.

Lemma docs_with_nil docs term :
  docs_with term docs = [] <-> forall d, d ∈ docs -> term ∉ d_tokens d.
Proof.
  split; [|apply docs_with_absent].
  intros Hnil d Hd Hterm.
  assert (d ∈ docs_with term docs) as Hin by (by apply list_elem_of_filter).
  rewrite Hnil in Hin. by apply elem_of_nil in Hin.
Qed.

(** The loop over the query terms leaves the score alone when the
    document has no posting for any of them. *)
Lemma score_terms_no_posting docs idx self doc_id doc_length avgdl
    query_terms score :
  idx = build docs \/ idx = finalize (build docs) ->
  bm_index self = Some idx ->
  (forall term, term ∈ query_terms -> doc_id ∉ (get_postings idx term).*1) ->
  score_terms self idx doc_id doc_length avgdl query_terms score = Ok score.
Proof.
  intros Hbuilt Hidx. revert score.
  induction query_terms as [|term rest IH]; intros score Hnone; [done|].
  simpl. unfold score_term.
  rewrite (built_compute_idf docs idx self term Hbuilt Hidx). simpl.
  assert (find_tf (get_postings idx term) doc_id = 0) as ->.
  { apply find_tf_no_posting, Hnone. by left. }
  simpl.
  destruct (Req_dec_T _ 0); apply IH; intros t Ht; apply Hnone; by right.
Qed.
End BuiltIndex.

(** X5. On an index built by [add_document] calls, finalized or not and
    whatever [k1] and [b] are, a document that has no posting for any query
    term has the score 0. *)
Theorem score_without_query_term_is_zero (docs : list Doc)
    (idx : InvertedIndex) (self : BM25Retriever) (query_terms : list pystr)
    (doc_id : pystr) :
  idx = build docs \/ idx = finalize (build docs) ->
  bm_index self = Some idx ->
  (forall term, term ∈ query_terms -> doc_id ∉ (get_postings idx term).*1) ->
  compute_bm25_score self query_terms doc_id = Ok 0%R.
Proof.
  intros Hbuilt Hidx Hnone. unfold compute_bm25_score. rewrite Hidx. simpl.
  destruct (_ =? 0); [done|].
  by apply (score_terms_no_posting docs).
Qed.

Lemma score_without_query_term_is_zero_witness :
  compute_bm25_score (default_retriever (build dealers))
                     [py "cheap"] (py "en_1") = Ok 0%R.
Proof.
  apply (score_without_query_term_is_zero dealers (build dealers)).
  - by left.
  - reflexivity.
  - intros term ->%list_elem_of_singleton.
    apply (bool_decide_unpack _). vm_compute. exact I.
Defined.

(** X6. On an index built by [add_document] calls, finalized or not,
    [compute_idf] does not raise; its value is 0 for a term that occurs in
    no document and positive for every other term. *)
Theorem idf_of_a_built_index (docs : list Doc) (idx : InvertedIndex)
    (self : BM25Retriever) (term : pystr) :
  idx = build docs \/ idx = finalize (build docs) ->
  bm_index self = Some idx ->
  exists idf,
    compute_idf self term = Ok idf
    /\ ((forall d, d ∈ docs -> term ∉ d_tokens d) -> idf = 0%R)
    /\ ((exists d, d ∈ docs /\ term ∈ d_tokens d) -> (0 < idf)%R).
Proof.
  intros Hbuilt Hidx. eexists. split; [by apply (built_compute_idf docs idx)|].
  split.
  - intros Hnone%docs_with_nil. by rewrite Hnone.
  - intros (d & Hd & Hterm). apply idf_formula_pos.
    pose proof (docs_with_length docs term).
    assert (d ∈ docs_with term docs) as Hin by (by apply list_elem_of_filter).
    destruct (docs_with term docs); [by apply elem_of_nil in Hin|].
    simpl in *. lia.
Qed.

Lemma idf_of_a_built_index_witness :
  exists idf,
    compute_idf (default_retriever (build dealers)) (py "car") = Ok idf
    /\ ((forall d, d ∈ dealers -> py "car" ∉ d_tokens d) -> idf = 0%R)
    /\ ((exists d, d ∈ dealers /\ py "car" ∈ d_tokens d) -> (0 < idf)%R).
Proof.
  apply (idf_of_a_built_index dealers (build dealers)); [by left|reflexivity].
Defined.

(** X7. On an index built by [add_document] calls, finalized or not and
    whatever [k1] and [b] are, a query none of whose terms occurs in a
    document returns no result, with [total_results = 0]. *)
Theorem search_for_unknown_terms_is_empty
    (set_order : list pystr -> list pystr) (docs : list Doc)
    (idx : InvertedIndex) (self : BM25Retriever) (query : PyValue)
    (top_k : Z) (language : pystr) :
  (forall l, set_order l ≡ₚ remove_dups l) ->
  idx = build docs \/ idx = finalize (build docs) ->
  bm_index self = Some idx ->
  (forall term d,
      term ∈ preprocess query language -> d ∈ docs -> term ∉ d_tokens d) ->
  exists res,
    search set_order self query top_k language = Ok res
    /\ sr_results res = [] /\ sr_total_results res = 0.
Proof.
  intros Hperm Hbuilt Hidx Hnone.
  apply (search_no_candidate _ _ idx); try done.
  unfold candidate_insertions.
  induction (preprocess query language) as [|t ts IH]; [done|].
  rewrite bind_cons, IH by (intros term d Hterm; apply Hnone; by right).
  destruct (built_statistics docs idx t Hbuilt) as (_ & _ & ->).
  rewrite build_postings, docs_with_absent; [done|].
  intros d. apply Hnone. by left.
Qed.

Lemma search_for_unknown_terms_is_empty_witness :
  exists res,
    search remove_dups (default_retriever (build dealers))
           (PyStr (py "bus timetable")) 10 (py "auto") = Ok res
    /\ sr_results res = [] /\ sr_total_results res = 0.
Proof.
  apply (search_for_unknown_terms_is_empty remove_dups dealers (build dealers)).
  - intros l. reflexivity.
  - by left.
  - reflexivity.
  - intros term d Hterm Hd. apply (bool_decide_unpack _).
    revert term Hterm. apply Forall_forall.
    revert d Hd. apply Forall_forall.
    apply (bool_decide_unpack _). vm_compute. exact I.
Defined.

(** ** The index after a build *)

Section TableFacts.
Implicit Types (tokens : list pystr) (term : pystr)
               (tf : list (pystr * Z)).

Lemma entries_of_elem term tokens e :
  e ∈ entries_of term tokens
  <-> term ∈ tokens /\ e = (term, tf_in term tokens).
Proof.
  unfold entries_of. destruct (decide (term ∈ tokens)) as [Hin|Hnin].
  - rewrite list_elem_of_singleton. split; [by intros ->|by intros [_ ->]].
  - split; [by intros ?%elem_of_nil|]. by intros [? _].
Qed.

(** Keys that each have at most one entry are pairwise distinct. *)
Lemma NoDup_keys tf :
  (forall term, (length (filter (fun e => e.1 = term) tf) <= 1)%nat) ->
  NoDup tf.*1.
Proof.
  induction tf as [|[t n] tf IH]; intros Hone; [constructor|].
  rewrite fmap_cons. apply NoDup_cons. split.
  - intros ((t' & n') & Heq & Hin)%list_elem_of_fmap. simpl in Heq. subst t'.
    specialize (Hone t). rewrite filter_cons_True in Hone by done.
    assert ((t, n') ∈ filter (fun e => e.1 = t) tf) as Hf
      by (by apply list_elem_of_filter).
    destruct (filter (fun e => e.1 = t) tf); [by apply elem_of_nil in Hf|].
    simpl in Hone. lia.
  - apply IH. intros term. specialize (Hone term).
    destruct (decide (t = term)) as [->|Hne].
    + rewrite filter_cons_True in Hone by done. simpl in Hone. lia.
    + by rewrite filter_cons_False in Hone.
Qed.

Lemma bump_sum token tf :
  foldr Z.add 0 (bump token tf).*2 = foldr Z.add 0 tf.*2 + 1.
Proof.
  induction tf as [|[t n] tf IH]; [done|]. cbn [bump].
  case_bool_decide; rewrite !fmap_cons; cbn [foldr snd]; [lia|].
  rewrite IH. lia.
Qed.

Lemma count_terms_sum_from tokens tf :
  foldr Z.add 0
        (fold_left (fun term_freq token => bump token term_freq) tokens tf).*2
  = foldr Z.add 0 tf.*2 + Z.of_nat (length tokens).
Proof.
  revert tf. induction tokens as [|token tokens IH]; intros tf; simpl; [lia|].
  rewrite IH, bump_sum. lia.
Qed.
End TableFacts.

(** X8. The table that the first loop of [add_document] builds has one
    entry for each distinct token, holding the number of its occurrences,
    and the frequencies add up to the number of tokens. *)
Theorem count_terms_is_the_frequency_table (tokens : list pystr) :
  NoDup (count_terms tokens).*1
  /\ (forall term n,
        (term, n) ∈ count_terms tokens
        <-> term ∈ tokens /\ n = tf_in term tokens)
  /\ foldr Z.add 0 (count_terms tokens).*2 = Z.of_nat (length tokens).
Proof.
  split; [|split].
  - apply NoDup_keys. intros term. rewrite count_terms_entries.
    unfold entries_of. destruct (decide (term ∈ tokens)); simpl; lia.
  - intros term n. split.
    + intros Hin.
      assert ((term, n) ∈ entries_of term tokens) as He.
      { rewrite <- count_terms_entries. by apply list_elem_of_filter. }
      apply entries_of_elem in He as [Hterm [= ->]]. done.
    + intros [Hterm ->].
      assert ((term, tf_in term tokens) ∈ entries_of term tokens) as He
        by (by apply entries_of_elem).
      rewrite <- count_terms_entries in He.
      by apply list_elem_of_filter in He as [_ ?].
  - unfold count_terms. by rewrite count_terms_sum_from.
Qed.

(** X9. After any sequence of [add_document] calls, the posting list of a
    term names the documents that contain it, in the order in which they
    were added and once for each call, each with the number of occurrences
    of the term in its tokens, which is at least 1. *)
Theorem postings_follow_the_documents (docs : list Doc) (term : pystr) :
  get_postings (build docs) term
  = (fun d => (d_id d, tf_in term (d_tokens d)))
      <$> filter (fun d => term ∈ d_tokens d) docs
  /\ Forall (fun p => 1 <= p.2) (get_postings (build docs) term).
Proof.
  split; [apply build_postings|].
  rewrite build_postings. apply Forall_fmap, Forall_forall.
  intros d [Hterm _]%list_elem_of_filter. simpl. by apply tf_in_elem.
Qed.

(** X10. After any sequence of [add_document] calls, also with repeated
    identifiers: the document count is the number of calls, the document
    frequency of a term is the length of its posting list and at most the
    document count, and the indexed terms are the tokens of the documents. *)
Theorem counters_count_the_calls (docs : list Doc) (term : pystr) :
  doc_count (build docs) = Z.of_nat (length docs)
  /\ get_document_frequency (build docs) term
     = Z.of_nat (length (get_postings (build docs) term))
  /\ get_document_frequency (build docs) term <= doc_count (build docs)
  /\ (indexed (build docs) term <-> exists d, d ∈ docs /\ term ∈ d_tokens d).
Proof.
  split; [apply build_count|]. split; [|split; [apply build_df_bounds|]].
  - by rewrite build_df, build_postings, length_fmap.
  - pose proof (build_postings docs term) as Hp. unfold get_postings in Hp.
    split.
    + intros [l Hl]. rewrite Hl in Hp. simpl in Hp.
      pose proof (build_postings_nonempty docs term l Hl) as Hne.
      destruct (docs_with term docs) as [|d ds] eqn:Hw; [by subst l|].
      exists d.
      assert (d ∈ docs_with term docs) as Hd by (rewrite Hw; by left).
      apply list_elem_of_filter in Hd as [? ?]. done.
    + intros (d & Hd & Hterm). unfold indexed.
      destruct (index (build docs) !! term) as [l|] eqn:Hl; [by eexists|].
      simpl in Hp.
      assert (d ∈ docs_with term docs) as Hin
        by (by apply list_elem_of_filter).
      destruct (docs_with term docs); [by apply elem_of_nil in Hin|done].
Qed.

(** ** Finalizing more than once *)

Section Extend.
Implicit Types (idx : InvertedIndex) (docs : list Doc).

Lemma add_postings_with_avg avg doc_id tf idx :
  fold_left (add_posting doc_id) tf (with_avg avg idx)
  = with_avg avg (fold_left (add_posting doc_id) tf idx).
Proof.
  revert idx. induction tf as [|[term freq] tf IH]; intros idx; [done|].
  simpl. rewrite <- IH. done.
Qed.

Lemma add_document_with_avg avg idx doc_id tokens metadata :
  add_document (with_avg avg idx) doc_id tokens metadata
  = with_avg avg (add_document idx doc_id tokens metadata).
Proof. unfold add_document. by rewrite add_postings_with_avg. Qed.

Lemma extend_with_avg avg idx docs :
  extend (with_avg avg idx) docs = with_avg avg (extend idx docs).
Proof.
  revert idx. induction docs as [|d docs IH]; intros idx; [done|].
  simpl. by rewrite add_document_with_avg, IH.
Qed.

Lemma extend_count idx docs :
  doc_count (extend idx docs) = doc_count idx + Z.of_nat (length docs).
Proof.
  revert idx. induction docs as [|d docs IH]; intros idx; simpl; [lia|].
  rewrite IH, add_document_count. lia.
Qed.

Lemma extend_avg idx docs :
  avg_doc_length (extend idx docs) = avg_doc_length idx.
Proof.
  revert idx. induction docs as [|d docs IH]; intros idx; [done|].
  simpl. by rewrite IH, add_document_avg.
Qed.

Lemma finalize_with_avg idx :
  finalize idx = with_avg (avg_doc_length (finalize idx)) idx.
Proof. done. Qed.

Lemma build_app docs docs' : build (docs ++ docs') = extend (build docs) docs'.
Proof. unfold build, extend. apply fold_left_app. Qed.
End Extend.

Lemma finalize_extend_finalize (idx : InvertedIndex) (docs : list Doc) :
  finalize (extend (finalize idx) docs) = finalize (extend idx docs).
Proof.
  rewrite (finalize_with_avg idx), extend_with_avg.
  pose proof (extend_count idx docs) as Hc.
  pose proof (extend_avg idx docs) as Ha.
  unfold finalize, with_avg. simpl. rewrite Ha.
  destruct (0 <? doc_count (extend idx docs)) eqn:Hpos; [done|].
  destruct (0 <? doc_count idx) eqn:Hpos'; [|done].
  apply Z.ltb_ge in Hpos. apply Z.ltb_lt in Hpos'. lia.
Qed.

(** X11. [finalize] may run at any time and more than once: only the last
    run counts. Finalizing, adding more documents and finalizing again
    gives the index that adding all documents and finalizing once gives;
    so a corpus indexed in two batches, finalized after each, gives the
    index of the whole corpus. *)
Theorem finalize_between_additions (idx : InvertedIndex)
    (docs docs' : list Doc) :
  finalize (extend (finalize idx) docs) = finalize (extend idx docs)
  /\ finalize (extend (finalize (build docs)) docs')
     = finalize (build (docs ++ docs')).
Proof.
  split; [apply finalize_extend_finalize|].
  by rewrite build_app, finalize_extend_finalize.
Qed.

(** X12. Files saved under different paths do not disturb each other, a
    second save under the same path replaces the first, and a retriever
    built from a saved file holds the saved index; a path that was never
    written raises [FileNotFoundError]. *)
Theorem saved_files_are_kept_apart {Bytes : Type}
    (pickle_dumps : gmap string Pickled -> Bytes)
    (pickle_loads : Bytes -> option (gmap string Pickled))
    (idx idx' : InvertedIndex) (path path' : pystr) (fs : gmap pystr Bytes)
    (self : BM25Retriever) :
  (forall data, pickle_loads (pickle_dumps data) = Some data) ->
  path <> path' ->
  load_index pickle_loads self path
             (save pickle_dumps idx' path' (save pickle_dumps idx path fs))
  = Ok (retriever (bm_k1 self) (bm_b self) idx)
  /\ load pickle_loads path
          (save pickle_dumps idx' path (save pickle_dumps idx path fs))
     = Ok idx'
  /\ (fs !! path' = None ->
      load pickle_loads path' (save pickle_dumps idx path fs)
      = Raise FileNotFoundError).
Proof.
  intros Hpickle Hne. unfold load_index, load, save. split; [|split].
  - rewrite lookup_insert_ne, lookup_insert_eq, Hpickle by done.
    by rewrite load_save_data.
  - rewrite lookup_insert_eq, Hpickle. apply load_save_data.
  - intros Hnone. by rewrite lookup_insert_ne, Hnone.
Qed.

Lemma saved_files_are_kept_apart_witness :
  load_index Some (default_retriever empty_index) (py "english_index.pkl")
             (save (fun data => data) (finalize (build two_cars))
                   (py "combined_index.pkl")
                   (save (fun data => data) (finalize (build dealers))
                         (py "english_index.pkl") ∅))
  = Ok (retriever 1.5 0.75 (finalize (build dealers))).
Proof.
  refine (proj1 (saved_files_are_kept_apart (fun data => data) Some
                   (finalize (build dealers)) (finalize (build two_cars))
                   (py "english_index.pkl") (py "combined_index.pkl") ∅
                   (default_retriever empty_index) _ _)).
  - done.
  - vm_compute. discriminate.
Defined.

(** ** URL-like runs *)

(** Case analysis on a character that a pattern compares with literals. *)
Ltac literal c :=
  destruct c as [|?p]; [by simpl|];
  repeat match goal with
         | p : positive |- _ => destruct p as [p|p|]; try (by simpl)
         end.

Section UrlFacts.
Implicit Types (s u v : pystr) (c : N).

Lemma starts_url_true s :
  starts_url s = true ->
  exists c rest,
    isspace c = false
    /\ (s = 0x68%N :: 0x74%N :: 0x74%N :: 0x70%N :: c :: rest
        \/ s = 0x77%N :: 0x77%N :: 0x77%N :: c :: rest).
Proof.
  destruct s as [|c0 s]; [done|]. literal c0.
  - destruct s as [|c1 s]; [done|]. literal c1.
    destruct s as [|c2 s]; [done|]. literal c2.
    destruct s as [|c3 s]; [done|]. simpl. intros Hc%negb_true_iff. eauto.
  - destruct s as [|c1 s]; [done|]. literal c1.
    destruct s as [|c2 s]; [done|]. literal c2.
    destruct s as [|c3 s]; [done|]. literal c3.
    destruct s as [|c4 s]; [done|]. simpl. intros Hc%negb_true_iff. eauto.
Qed.
End UrlFacts.

(** ** Text in pieces *)

Section Pieces.
Implicit Types (s u v run : pystr) (c : N) (language : pystr).

Lemma starts_url_at_space c v : isspace c = true -> starts_url (c :: v) = false.
Proof.
  intros Hc. destruct (starts_url (c :: v)) eqn:Hs; [|done].
  apply starts_url_true in Hs as (c' & rest & _ & [[= -> _]|[= -> _]]);
    vm_compute in Hc; discriminate.
Qed.

(** Whether a run begins a URL is decided before the next white space. *)
Lemma starts_url_window u c v :
  isspace c = true -> starts_url (u ++ c :: v) = starts_url u.
Proof.
  intros Hc.
  destruct (starts_url u) eqn:Hu.
  - apply starts_url_true in Hu as (c' & rest & Hc' & [-> | ->]); simpl;
      by rewrite Hc'.
  - destruct (starts_url (u ++ c :: v)) eqn:Huv; [|done].
    apply starts_url_true in Huv as (c' & rest & Hc' & Huv).
    assert (forall x, x = 0x68%N \/ x = 0x74%N \/ x = 0x70%N \/ x = 0x77%N
                      \/ x = c' -> x <> c) as Hlit.
    { intros x Hx ->. destruct Hx as [->|[->|[->|[->| ->]]]];
        try (vm_compute in Hc; discriminate). congruence. }
    destruct Huv as [Huv|Huv].
    + destruct u as [|u0 [|u1 [|u2 [|u3 [|u4 u]]]]]; simpl in Huv;
        injection Huv as ?; subst;
        try (by (exfalso; eapply Hlit; [|reflexivity]; auto 10)).
      simpl in Hu. by rewrite Hc' in Hu.
    + destruct u as [|u0 [|u1 [|u2 [|u3 u]]]]; simpl in Huv;
        injection Huv as ?; subst;
        try (by (exfalso; eapply Hlit; [|reflexivity]; auto 10)).
      simpl in Hu. by rewrite Hc' in Hu.
Qed.

Lemma strip_urls_from_pieces inside u c v :
  isspace c = true ->
  strip_urls_from inside (u ++ c :: v)
  = strip_urls_from inside u ++ c :: strip_urls_from false v.
Proof.
  intros Hc. revert inside.
  induction u as [|x u IH]; intros inside.
  - change (strip_urls_from inside ([] ++ c :: v))
      with (if inside then
              if isspace c then c :: strip_urls_from false v
              else strip_urls_from true v
            else if starts_url (c :: v) then strip_urls_from true v
                 else c :: strip_urls_from false v).
    rewrite Hc, starts_url_at_space by done. by destruct inside.
  - change (strip_urls_from inside ((x :: u) ++ c :: v))
      with (if inside then
              if isspace x then x :: strip_urls_from false (u ++ c :: v)
              else strip_urls_from true (u ++ c :: v)
            else if starts_url ((x :: u) ++ c :: v)
                 then strip_urls_from true (u ++ c :: v)
                 else x :: strip_urls_from false (u ++ c :: v)).
    change (strip_urls_from inside (x :: u))
      with (if inside then
              if isspace x then x :: strip_urls_from false u
              else strip_urls_from true u
            else if starts_url (x :: u) then strip_urls_from true u
                 else x :: strip_urls_from false u).
    rewrite starts_url_window, !IH by done.
    destruct inside; [by destruct (isspace x)|by destruct (starts_url _)].
Qed.

Lemma has_url_pieces u c v :
  isspace c = true -> has_url (u ++ c :: v) = has_url u || has_url v.
Proof.
  intros Hc. induction u as [|x u IH].
  - change (has_url ([] ++ c :: v)) with (starts_url (c :: v) || has_url v).
    by rewrite starts_url_at_space.
  - change (has_url ((x :: u) ++ c :: v))
      with (starts_url ((x :: u) ++ c :: v) || has_url (u ++ c :: v)).
    change (has_url (x :: u)) with (starts_url (x :: u) || has_url u).
    by rewrite starts_url_window, IH, orb_assoc.
Qed.

Lemma strip_emails_from_pieces run u c v :
  isspace c = true ->
  strip_emails_from run (u ++ c :: v)
  = strip_emails_from run u ++ c :: strip_emails_from [] v.
Proof.
  intros Hc. revert run. induction u as [|x u IH]; intros run; simpl.
  - by rewrite Hc.
  - destruct (isspace x); rewrite IH; [|done]. by rewrite <- app_assoc.
Qed.

Lemma split_from_pieces run u c v :
  isspace c = true ->
  split_from run (u ++ c :: v) = split_from run u ++ split_from [] v.
Proof.
  intros Hc. revert run. induction u as [|x u IH]; intros run; simpl.
  - by rewrite Hc.
  - destruct (isspace x); rewrite IH; [|done]. by rewrite <- app_assoc.
Qed.

Lemma keep_script_pieces script u c v :
  isspace c = true ->
  keep_script script (u ++ c :: v)
  = keep_script script u ++ c :: keep_script script v.
Proof.
  intros Hc. unfold keep_script, keep_bangla, keep_english.
  case_bool_decide; rewrite fmap_app, fmap_cons, Hc, orb_true_r; done.
Qed.

Lemma filter_strip_pieces (l1 l2 : list pystr) :
  strip <$> List.filter (fun t => truthy (PyStr (strip t))) (l1 ++ l2)
  = (strip <$> List.filter (fun t => truthy (PyStr (strip t))) l1)
    ++ (strip <$> List.filter (fun t => truthy (PyStr (strip t))) l2).
Proof. by rewrite List.filter_app, fmap_app. Qed.

(** With an explicit language the tokens of a text are those of its
    pieces between white space. *)
Lemma tokenize_pieces u c v language :
  isspace c = true ->
  language <> py "auto" ->
  tokenize (u ++ c :: v) language
  = tokenize u language ++ tokenize v language.
Proof.
  intros Hc Hlang. rewrite !tokenize_unfold.
  assert (forall s, script_of s language = language) as Hscript.
  { intros s. unfold script_of. by rewrite bool_decide_eq_false_2. }
  rewrite !Hscript. unfold strip_urls, strip_emails.
  rewrite strip_urls_from_pieces, strip_emails_from_pieces by done.
  rewrite keep_script_pieces by done. unfold lower.
  rewrite fmap_app, fmap_cons, (lower_char_space c Hc).
  unfold split. rewrite split_from_pieces by done.
  apply filter_strip_pieces.
Qed.

Lemma remove_stopwords_pieces (l1 l2 : list pystr) language :
  language <> py "auto" ->
  remove_stopwords (l1 ++ l2) language
  = remove_stopwords l1 language ++ remove_stopwords l2 language.
Proof.
  intros Hlang. unfold remove_stopwords.
  rewrite (bool_decide_eq_false_2 (language = py "auto")) by done.
  apply List.filter_app.
Qed.

Lemma preprocess_tokenize s language :
  preprocess (PyStr s) language
  = List.filter (fun t => 1 <? Z.of_nat (length t))
                (remove_stopwords (tokenize s language) language).
Proof.
  unfold preprocess. destruct s as [|c s]; [|done]. simpl.
  assert (tokenize [] language = []) as ->; [|done].
  rewrite tokenize_unfold. unfold keep_script. by case_bool_decide.
Qed.
End Pieces.

(** X13. With an explicit language, the tokens of two texts joined by a
    white-space character are the tokens of the first followed by the
    tokens of the second: what [build_index_from_documents] indexes for a
    title and a body are the tokens of the title, then those of the body. *)
Theorem preprocess_of_joined_texts (u v : pystr) (c : N) (language : pystr) :
  isspace c = true ->
  language <> py "auto" ->
  preprocess (PyStr (u ++ c :: v)) language
  = preprocess (PyStr u) language ++ preprocess (PyStr v) language.
Proof.
  intros Hc Hlang. rewrite !preprocess_tokenize.
  rewrite tokenize_pieces, remove_stopwords_pieces by done.
  apply List.filter_app.
Qed.

Lemma preprocess_of_joined_texts_witness :
  preprocess (PyStr (py "Cheap cars" ++ 0x20%N :: py "Deals in Dhaka"))
             (py "en")
  = preprocess (PyStr (py "Cheap cars")) (py "en")
    ++ preprocess (PyStr (py "Deals in Dhaka")) (py "en").
Proof.
  apply preprocess_of_joined_texts.
  - reflexivity.
  - vm_compute. discriminate.
Defined.

(** X14. Every token that [preprocess] returns has at least two
    characters, all of them of the script the text was filtered for, the
    Bangla block or [a-z0-9]; so it has no white space and no capital
    letter, and it is not one of the stop words of that script. *)
Theorem preprocess_tokens_are_normalized (s : pystr) (language : pystr)
    (t : pystr) :
  t ∈ preprocess (PyStr s) language ->
  (2 <= length t)%nat
  /\ Forall (fun c => alphabet_of (script_of s language) c = true) t
  /\ Forall (fun c => isspace c = false /\ lower_char c = c) t
  /\ t ∉ stopwords_for (script_of s language) language.
Proof.
  rewrite preprocess_tokenize.
  rewrite (remove_stopwords_clean (script_of s language) language _
             (tokenize_clean s language)).
  intros Ht%list_elem_of_In. apply filter_In in Ht as [Ht Hlen].
  apply filter_In in Ht as [Ht Hstop]. apply list_elem_of_In in Ht.
  pose proof (tokenize_clean s language) as Hclean.
  rewrite Forall_forall in Hclean. destruct (Hclean t Ht) as [_ Hchars].
  split; [apply Z.ltb_lt in Hlen; lia|]. split; [done|]. split.
  - eapply Forall_impl; [exact Hchars|]. intros c Hc.
    split; [by apply (alphabet_not_space (script_of s language))|].
    by apply (alphabet_lower (script_of s language)).
  - apply negb_true_iff in Hstop. unfold str_in in Hstop.
    by apply bool_decide_eq_false in Hstop.
Qed.

Lemma preprocess_tokens_are_normalized_witness :
  (2 <= length (py "dhaka"))%nat
  /\ Forall (fun c => alphabet_of
                        (script_of (py "Deals in Dhaka") (py "auto")) c = true)
            (py "dhaka")
  /\ Forall (fun c => isspace c = false /\ lower_char c = c) (py "dhaka")
  /\ py "dhaka"
     ∉ stopwords_for (script_of (py "Deals in Dhaka") (py "auto"))
                     (py "auto").
Proof.
  apply (preprocess_tokens_are_normalized (py "Deals in Dhaka") (py "auto")).
  apply (bool_decide_unpack _). vm_compute. exact I.
Defined.

Section StopWords.
Implicit Types (ws : list pystr) (language : pystr).

Lemma filter_none {A} (f : A -> bool) (l : list A) :
  Forall (fun x => f x = false) l -> List.filter f l = [].
Proof. induction 1 as [|x l Hx _ IH]; simpl; [done|]. by rewrite Hx. Qed.

Lemma has_url_join ws :
  Forall (fun w => has_url w = false) ws -> has_url (join_space ws) = false.
Proof.
  induction 1 as [|w ws Hw Hws IH]; [done|].
  destruct ws as [|w' ws]; [done|].
  change (join_space (w :: w' :: ws))
    with (w ++ 0x20%N :: join_space (w' :: ws)).
  by rewrite has_url_pieces, Hw, IH.
Qed.

Lemma english_stopwords_clean :
  Forall (fun w => clean_token is_lower_alnum w /\ has_url w = false)
         english_stopwords.
Proof. apply (bool_decide_unpack _). vm_compute. exact I. Qed.

Lemma bangla_stopwords_clean :
  Forall (fun w => clean_token is_bangla_char w /\ has_url w = false)
         bangla_stopwords.
Proof. apply (bool_decide_unpack _). vm_compute. exact I. Qed.

(** A text made of the stop words of a script has no token left. *)
Lemma stop_words_only script s language ws :
  script_of s language = script ->
  Forall (fun w => clean_token (alphabet_of script) w /\ has_url w = false)
         (stopwords_for script language) ->
  Forall (fun w => w ∈ stopwords_for script language) ws ->
  preprocess (PyStr (join_space ws)) language = [].
Proof.
  intros Hscript Hwords Hws.
  assert (Forall (fun w => clean_token (alphabet_of script) w
                           /\ has_url w = false) ws) as Hclean.
  { rewrite Forall_forall in Hwords. eapply Forall_impl; [exact Hws|].
    intros w Hw. by apply Hwords. }
  destruct (decide (ws = [])) as [->|Hne]; [done|].
  rewrite preprocess_tokenize.
  rewrite (tokenize_join s language ws Hne).
  - rewrite (remove_stopwords_clean script language).
    + rewrite (filter_none _ ws); [done|].
      eapply Forall_impl; [exact Hws|]. intros w Hw. unfold str_in.
      by rewrite bool_decide_eq_true_2.
    + eapply Forall_impl; [exact Hclean|]. by intros w [? _].
  - rewrite Hscript. eapply Forall_impl; [exact Hclean|]. by intros w [? _].
  - apply has_url_join. eapply Forall_impl; [exact Hclean|]. by intros w [_ ?].
Qed.
End StopWords.

(** X15. A text made only of stop words separated by single spaces gives
    no token: English stop words with the hint [en] or [auto], Bangla stop
    words with the hint [bn] or [auto]. *)
Theorem stop_words_give_no_token (ws : list pystr) (language : pystr) :
  (Forall (fun w => w ∈ english_stopwords) ws
   /\ (language = py "en" \/ language = py "auto"))
  \/ (Forall (fun w => w ∈ bangla_stopwords) ws
      /\ (language = py "bn" \/ language = py "auto")) ->
  preprocess (PyStr (join_space ws)) language = [].
Proof.
  intros [[Hws Hlang]|[Hws Hlang]].
  - apply (stop_words_only (py "en") [] language).
    + by destruct Hlang as [-> | ->].
    + replace (stopwords_for (py "en") language) with english_stopwords
        by (by destruct Hlang as [-> | ->]).
      apply english_stopwords_clean.
    + by destruct Hlang as [-> | ->].
  - apply (stop_words_only (py "bn") [0x995%N] language).
    + by destruct Hlang as [-> | ->].
    + replace (stopwords_for (py "bn") language) with bangla_stopwords
        by (by destruct Hlang as [-> | ->]).
      apply bangla_stopwords_clean.
    + by destruct Hlang as [-> | ->].
Qed.

Lemma stop_words_give_no_token_witness :
  preprocess (PyStr (join_space [py "the"; py "is"; py "of"])) (py "auto")
  = [].
Proof.
  apply stop_words_give_no_token. left. split; [|by right].
  apply (bool_decide_unpack _). vm_compute. exact I.
Defined.

(* --------------------------------------------------------------------- *)
(** ** The combined index                                                 *)
(* --------------------------------------------------------------------- *)

Section OrderedDicts.
Context {V : Type}.
Implicit Types (items : list (pystr * V)) (f : option V -> V).

(** The ordered dict and the map agree on what an update does. *)
Lemma odict_update_to_map key f items :
  (list_to_map (odict_update key f items) : gmap pystr V)
  = <[key := f ((list_to_map items : gmap pystr V) !! key)]>
      (list_to_map items).
Proof.
  induction items as [|[k v] items IH]; simpl; [done|].
  case_bool_decide as Hk.
  - subst k. simpl. by rewrite lookup_insert_eq, insert_insert_eq.
  - simpl. rewrite IH, lookup_insert_ne by done. by apply insert_insert_ne.
Qed.

Lemma odict_update_new key f items :
  key ∉ items.*1 -> odict_update key f items = items ++ [(key, f None)].
Proof.
  induction items as [|[k v] items IH]; simpl; [done|].
  intros [Hk Hrest]%not_elem_of_cons.
  rewrite bool_decide_eq_false_2 by done. by rewrite IH.
Qed.

Lemma odict_update_keys key f items :
  (odict_update key f items).*1
  = if decide (key ∈ items.*1) then items.*1 else items.*1 ++ [key].
Proof.
  induction items as [|[k v] items IH].
  - destruct (decide (key ∈ ([] : list (pystr * V)).*1)) as [Hin|]; [|done].
    by apply elem_of_nil in Hin.
  - cbn [odict_update]. rewrite fmap_cons. cbn [fst].
    destruct (decide (key ∈ k :: items.*1)) as [Hin|Hnin].
    + case_bool_decide as Hk; [done|]. rewrite fmap_cons, IH. cbn [fst].
      apply elem_of_cons in Hin as [?|Hin]; [congruence|].
      by rewrite decide_True.
    + apply not_elem_of_cons in Hnin as [Hne Hnin].
      rewrite bool_decide_eq_false_2 by done. rewrite fmap_cons, IH. cbn [fst].
      by rewrite decide_False.
Qed.

Lemma odict_update_NoDup key f items :
  NoDup items.*1 -> NoDup (odict_update key f items).*1.
Proof.
  intros Hnd. rewrite odict_update_keys.
  destruct (decide (key ∈ items.*1)) as [Hin|Hnin]; [done|].
  apply NoDup_app. split_and!; [done| |apply NoDup_singleton].
  intros k Hk ->%list_elem_of_singleton. done.
Qed.
End OrderedDicts.

Section Reconstruction.
Implicit Types (docs : list Doc) (d : Doc) (term doc_id : pystr).

Lemma filter_absent (x : pystr) (l : list pystr) :
  x ∉ l -> filter (fun y => y = x) l = [].
Proof.
  induction l as [|y l IH]; [done|]. intros [Hne Hnin]%not_elem_of_cons.
  rewrite filter_cons_False by congruence. by apply IH.
Qed.

(** The postings dict in insertion order holds the postings of the index,
    each term once. *)
Lemma index_items_postings doc_id tf items idx :
  list_to_map items = index idx -> NoDup items.*1 ->
  let items' :=
    fold_left
      (fun items '(term, freq) =>
         odict_update term (fun o => default [] o ++ [(doc_id, freq)]) items)
      tf items in
  list_to_map items' = index (fold_left (add_posting doc_id) tf idx)
  /\ NoDup items'.*1.
Proof.
  revert items idx. induction tf as [|[term freq] tf IH]; intros items idx Hmap Hnd.
  - done.
  - simpl. apply IH.
    + rewrite odict_update_to_map, Hmap. done.
    + by apply odict_update_NoDup.
Qed.

Lemma index_items_build docs :
  list_to_map (index_items docs) = index (build docs)
  /\ NoDup (index_items docs).*1.
Proof.
  induction docs as [|d docs [IHmap IHnd]] using rev_ind.
  - split; [done|constructor].
  - unfold index_items. rewrite fold_left_app, build_snoc. simpl.
    by apply index_items_postings.
Qed.

Lemma index_items_elem docs term postings :
  (term, postings) ∈ index_items docs ->
  get_postings (build docs) term = postings.
Proof.
  destruct (index_items_build docs) as [Hmap Hnd]. intros Hin.
  apply (elem_of_list_to_map_1 (M := gmap pystr)) in Hin; [|done].
  unfold get_postings. by rewrite <- Hmap, Hin.
Qed.

Lemma index_items_keys docs d term :
  d ∈ docs -> term ∈ d_tokens d -> term ∈ (index_items docs).*1.
Proof.
  intros Hd Hterm. destruct (index_items_build docs) as [Hmap Hnd].
  destruct (decide (term ∈ (index_items docs).*1)) as [|Hnin]; [done|].
  apply (not_elem_of_list_to_map_1 (M := gmap pystr)) in Hnin.
  pose proof (build_postings docs term) as Hpost.
  unfold get_postings in Hpost. rewrite <- Hmap, Hnin in Hpost. simpl in Hpost.
  symmetry in Hpost. apply fmap_nil_inv in Hpost.
  assert (d ∈ docs_with term docs) as Hin
    by (unfold docs_with; by apply list_elem_of_filter).
  rewrite Hpost in Hin. by apply elem_of_nil in Hin.
Qed.

(** With distinct identifiers the documents dict lists the documents in
    the order in which they were added. *)
Lemma documents_items_distinct docs :
  NoDup (d_id <$> docs) ->
  documents_items docs = (fun d => (d_id d, d_meta d)) <$> docs.
Proof.
  induction docs as [|d docs IH] using rev_ind; [done|].
  rewrite fmap_app. intros (Hnd & Hdisj & _)%NoDup_app.
  unfold documents_items. rewrite fold_left_app. simpl.
  fold (documents_items docs). rewrite IH by done.
  rewrite odict_update_new, fmap_app; [done|].
  rewrite <- list_fmap_compose. intros Hin. apply (Hdisj _ Hin). simpl. left.
Qed.

(** The postings of a term hold one entry for a document, if the term is
    in the document, and none otherwise. *)
Lemma foreign_postings docs doc_id term :
  doc_id ∉ d_id <$> docs ->
  (((fun d => (d_id d, tf_in term (d_tokens d))) <$> docs_with term docs)
     ≫= fun '(posting_doc_id, freq) =>
          if bool_decide (posting_doc_id = doc_id)
          then replicate (Z.to_nat freq) term else []) = [].
Proof.
  induction docs as [|d docs IH]; [done|]. rewrite fmap_cons.
  intros [Hne Hnin]%not_elem_of_cons. unfold docs_with. rewrite filter_cons.
  fold (docs_with term docs).
  destruct (decide (term ∈ d_tokens d)); [|by apply IH].
  rewrite fmap_cons, bind_cons. cbn beta iota.
  rewrite bool_decide_eq_false_2 by done. by apply IH.
Qed.

Lemma own_postings docs d term :
  NoDup (d_id <$> docs) -> d ∈ docs ->
  (((fun d => (d_id d, tf_in term (d_tokens d))) <$> docs_with term docs)
     ≫= fun '(posting_doc_id, freq) =>
          if bool_decide (posting_doc_id = d_id d)
          then replicate (Z.to_nat freq) term else [])
  = replicate (Z.to_nat (tf_in term (d_tokens d))) term.
Proof.
  induction docs as [|d' docs IH]; [by intros _ ?%elem_of_nil|].
  rewrite fmap_cons. intros [Hnin Hnd]%NoDup_cons Hin.
  unfold docs_with. rewrite filter_cons. fold (docs_with term docs).
  apply elem_of_cons in Hin as [<-|Hin].
  - destruct (decide (term ∈ d_tokens d)) as [Hterm|Hterm].
    + rewrite fmap_cons, bind_cons. cbn beta iota.
      rewrite bool_decide_eq_true_2 by done.
      rewrite (foreign_postings docs (d_id d) term Hnin). by rewrite app_nil_r.
    + rewrite (foreign_postings docs (d_id d) term Hnin).
      unfold tf_in. by rewrite filter_absent.
  - assert (d_id d' <> d_id d) as Hne.
    { intros Heq. apply Hnin. rewrite Heq. by apply list_elem_of_fmap_2. }
    destruct (decide (term ∈ d_tokens d')).
    + rewrite fmap_cons, bind_cons. cbn beta iota.
      rewrite bool_decide_eq_false_2 by done. by apply IH.
    + by apply IH.
Qed.

Lemma reconstruct_by_term docs d items :
  NoDup (d_id <$> docs) -> d ∈ docs ->
  (forall term postings, (term, postings) ∈ items ->
                         get_postings (build docs) term = postings) ->
  reconstruct_tokens items (d_id d)
  = items.*1 ≫= fun term =>
      replicate (Z.to_nat (tf_in term (d_tokens d))) term.
Proof.
  intros Hnd Hd. induction items as [|[term postings] items IH]; intros Hitems.
  - done.
  - unfold reconstruct_tokens. rewrite fmap_cons, !bind_cons. f_equal.
    + rewrite <- (Hitems term postings) by left.
      rewrite build_postings. by apply own_postings.
    + apply IH. intros t p Hin. apply Hitems. by right.
Qed.

(** Counting a term in the copies made for the keys of a dict. *)
Lemma count_replicate (x t : pystr) n :
  length (filter (fun y => y = x) (replicate n t))
  = if decide (t = x) then n else 0%nat.
Proof.
  induction n as [|n IH]; simpl.
  - by destruct (decide (t = x)).
  - rewrite filter_cons. destruct (decide (t = x)); simpl; by rewrite IH.
Qed.

Lemma count_by_key (x : pystr) (keys : list pystr) (n : pystr -> nat) :
  NoDup keys ->
  length (filter (fun y => y = x) (keys ≫= fun t => replicate (n t) t))
  = if decide (x ∈ keys) then n x else 0%nat.
Proof.
  induction keys as [|k keys IH]; [done|].
  intros [Hnin Hnd]%NoDup_cons.
  rewrite bind_cons, filter_app, length_app, count_replicate, IH by done.
  destruct (decide (k = x)) as [->|Hne].
  - destruct (decide (x ∈ keys)); [done|].
    destruct (decide (x ∈ x :: keys)) as [|Hn]; [lia|]. destruct Hn. left.
  - destruct (decide (x ∈ keys)) as [Hin|Hn].
    + destruct (decide (x ∈ k :: keys)) as [|Hn]; [done|]. destruct Hn.
      by right.
    + destruct (decide (x ∈ k :: keys)) as [[?|?]%elem_of_cons|];
        [congruence|done|done].
Qed.

Lemma count_occ_filter (x : pystr) (l : list pystr) :
  count_occ (@decide_rel _ _ eq _) l x = length (filter (fun y => y = x) l).
Proof.
  induction l as [|y l IH]; [done|]. simpl. rewrite filter_cons.
  destruct (decide_rel eq y x), (decide (y = x)); simpl; congruence.
Qed.

Lemma reconstruct_tokens_perm docs d :
  NoDup (d_id <$> docs) -> d ∈ docs ->
  reconstruct_tokens (index_items docs) (d_id d) ≡ₚ d_tokens d.
Proof.
  intros Hnd Hd. destruct (index_items_build docs) as [Hmap Hkeys].
  rewrite (reconstruct_by_term docs d) by eauto using index_items_elem.
  apply (Permutation_count_occ (@decide_rel _ _ eq _)). intros x.
  rewrite !count_occ_filter.
  rewrite (count_by_key x _ (fun t => Z.to_nat (tf_in t (d_tokens d)))) by done.
  unfold tf_in. rewrite Nat2Z.id.
  destruct (decide (x ∈ (index_items docs).*1)) as [|Hnin]; [done|].
  rewrite filter_absent; [done|].
  intros Hx. apply Hnin. by apply (index_items_keys docs d).
Qed.
End Reconstruction.

Section TokenOrder.
Implicit Types (idx : InvertedIndex) (term doc_id : pystr).

(** The two dicts that the second loop of [add_document] writes, entry by
    entry. *)
Lemma add_postings_index doc_id tf idx term :
  index (fold_left (add_posting doc_id) tf idx) !! term
  = if decide (filter (fun e => e.1 = term) tf = []) then index idx !! term
    else Some (get_postings idx term
               ++ ((fun e => (doc_id, e.2)) <$> filter (fun e => e.1 = term) tf)).
Proof.
  revert idx. induction tf as [|[t freq] tf IH]; intros idx; [done|].
  cbn [fold_left]. rewrite IH. unfold get_postings. cbn [add_posting index].
  destruct (decide (t = term)) as [->|Hne].
  - rewrite filter_cons_True by done. rewrite lookup_insert_eq.
    destruct (decide (_ :: _ = [])) as [|_]; [done|].
    destruct (decide (filter (fun e => e.1 = term) tf = [])) as [->|_].
    + done.
    + simpl. by rewrite <- app_assoc.
  - rewrite filter_cons_False by done. by rewrite lookup_insert_ne.
Qed.

Lemma add_postings_term_doc_freq doc_id tf idx term :
  term_doc_freq (fold_left (add_posting doc_id) tf idx) !! term
  = if decide (filter (fun e => e.1 = term) tf = [])
    then term_doc_freq idx !! term
    else Some (get_document_frequency idx term
               + Z.of_nat (length (filter (fun e => e.1 = term) tf))).
Proof.
  revert idx. induction tf as [|[t freq] tf IH]; intros idx; [done|].
  cbn [fold_left]. rewrite IH. unfold get_document_frequency.
  cbn [add_posting term_doc_freq].
  destruct (decide (t = term)) as [->|Hne].
  - rewrite filter_cons_True by done. rewrite lookup_insert_eq.
    destruct (decide (_ :: _ = [])) as [|_]; [done|].
    destruct (decide (filter (fun e => e.1 = term) tf = [])) as [->|_].
    + done.
    + simpl. f_equal. lia.
  - rewrite filter_cons_False by done. by rewrite lookup_insert_ne.
Qed.

(** [add_document] reads the tokens through their counts only: the order
    of the tokens of a document does not show in the index. *)
Lemma add_document_perm idx doc_id tokens tokens' metadata :
  tokens ≡ₚ tokens' ->
  add_document idx doc_id tokens metadata
  = add_document idx doc_id tokens' metadata.
Proof.
  intros Hperm.
  assert (forall term, entries_of term tokens = entries_of term tokens') as Hentries.
  { intros term. unfold entries_of, tf_in.
    assert (length (filter (fun t => t = term) tokens)
            = length (filter (fun t => t = term) tokens')) as ->
      by (by rewrite Hperm).
    destruct (decide (term ∈ tokens)) as [Hin|Hnin].
    - rewrite decide_True; [done|]. by rewrite <- Hperm.
    - rewrite decide_False; [done|]. by rewrite <- Hperm. }
  unfold add_document. cbv zeta. cbn [index term_doc_freq doc_lengths doc_count
    avg_doc_length documents].
  destruct (add_postings_fields doc_id (count_terms tokens) idx)
    as (-> & -> & -> & ->).
  destruct (add_postings_fields doc_id (count_terms tokens') idx)
    as (-> & -> & -> & ->).
  f_equal.
  - apply map_eq. intros term.
    by rewrite !add_postings_index, !count_terms_entries, Hentries.
  - by rewrite Hperm.
  - apply map_eq. intros term.
    by rewrite !add_postings_term_doc_freq, !count_terms_entries, Hentries.
Qed.

(** Adding the documents of a language index with the tokens read back
    from its postings is adding the documents themselves. *)
Lemma add_reconstructed_extend docs combined_index :
  NoDup (d_id <$> docs) ->
  add_reconstructed docs combined_index = extend combined_index docs.
Proof.
  intros Hnd. unfold add_reconstructed.
  rewrite documents_items_distinct by done.
  assert (forall l combined,
            l ⊆ docs ->
            fold_left
              (fun combined_index '(doc_id, metadata) =>
                 add_document combined_index doc_id
                   (reconstruct_tokens (index_items docs) doc_id) metadata)
              ((fun d => (d_id d, d_meta d)) <$> l) combined
            = extend combined l) as Hfold.
  { induction l as [|d l IH]; intros combined Hsub; [done|].
    rewrite fmap_cons. cbn [fold_left extend].
    rewrite (add_document_perm _ _ _ (d_tokens d)).
    - apply IH. intros x Hx. apply Hsub. by right.
    - apply reconstruct_tokens_perm; [done|]. apply Hsub. left. }
  by apply Hfold.
Qed.
End TokenOrder.

(* --------------------------------------------------------------------- *)
(** ** The index builders                                                 *)
(* --------------------------------------------------------------------- *)

Section Numerals.
Lemma py_inj (s t : string) : py s = py t -> s = t.
Proof.
  unfold py. intros Heq.
  assert (Inj eq eq Ascii.N_of_ascii) as Hinj.
  { intros a b Hab. rewrite <- (ascii_N_embedding a), <- (ascii_N_embedding b).
    by rewrite Hab. }
  apply (inj (fmap Ascii.N_of_ascii)) in Heq.
  rewrite <- (String.string_of_list_ascii_of_string s).
  rewrite <- (String.string_of_list_ascii_of_string t). by rewrite Heq.
Qed.

(** Different numbers have different numerals. *)
Lemma str_int_inj (i j : Z) : str_int i = str_int j -> i = j.
Proof.
  unfold str_int. intros Heq%py_inj. apply DecimalZ.to_int_inj.
  apply (f_equal DecimalString.NilEmpty.int_of_string) in Heq.
  rewrite !DecimalString.NilEmpty.isi in Heq. congruence.
Qed.
End Numerals.

Section CorpusFacts.
Variable format_list : list PyValue -> pystr.
Implicit Types (documents : list (gmap string PyValue)) (language : pystr).

Lemma corpus_length documents language :
  length (corpus_of format_list documents language) = length documents.
Proof. unfold corpus_of. apply length_imap. Qed.

Lemma corpus_elem documents language i doc :
  documents !! i = Some doc ->
  indexed_document format_list language i doc
  ∈ corpus_of format_list documents language.
Proof.
  intros Hdoc. apply list_elem_of_lookup. exists i. unfold corpus_of.
  by rewrite list_lookup_imap, Hdoc.
Qed.

Lemma corpus_ids documents language :
  d_id <$> corpus_of format_list documents language
  = (fun i => language ++ py "_" ++ str_int (Z.of_nat i))
      <$> seq 0 (length documents).
Proof.
  unfold corpus_of. rewrite fmap_imap.
  apply (imap_seq_0 documents
           (fun i => language ++ py "_" ++ str_int (Z.of_nat i))).
Qed.

(** The identifiers [f"{language}_{i}"] of a build are pairwise distinct. *)
Lemma corpus_ids_distinct documents language :
  NoDup (d_id <$> corpus_of format_list documents language).
Proof.
  rewrite corpus_ids. apply NoDup_fmap_2; [|apply NoDup_seq].
  intros i j Heq. apply app_inv_head, app_inv_head, str_int_inj in Heq. lia.
Qed.

(** Every document is stored with the metadata that [search] reads. *)
Lemma corpus_searchable documents language :
  searchable_metadata (corpus_of format_list documents language).
Proof.
  apply Forall_forall. intros d (i & Hd)%list_elem_of_lookup.
  unfold corpus_of in Hd. rewrite list_lookup_imap in Hd.
  destruct (documents !! i) as [doc|]; [|done]. injection Hd as <-.
  cbn [indexed_document d_meta]. split_and!.
  - rewrite lookup_insert_eq. by eexists.
  - rewrite lookup_insert_ne, lookup_insert_eq by done. by eexists.
  - rewrite !lookup_insert_ne, lookup_insert_eq by done. by eexists.
Qed.

(** The identifiers of the Bangla and of the English build do not meet. *)
Lemma two_language_ids_distinct documents documents' :
  NoDup (d_id <$> corpus_of format_list documents (py "bn")
                  ++ corpus_of format_list documents' (py "en")).
Proof.
  rewrite fmap_app. apply NoDup_app. split_and!; try apply corpus_ids_distinct.
  rewrite !corpus_ids.
  intros doc_id (i & -> & _)%list_elem_of_fmap (j & Heq & _)%list_elem_of_fmap.
  vm_compute in Heq. discriminate.
Qed.
End CorpusFacts.

Section SearchReturns.
Variable set_order : list pystr -> list pystr.
Hypothesis set_order_perm : forall l, set_order l ≡ₚ remove_dups l.

(** On a finalized corpus with distinct identifiers and complete metadata
    a search returns, whatever the query. *)
Lemma search_returns_on_corpus docs self query top_k language :
  NoDup (d_id <$> docs) ->
  searchable_metadata docs ->
  bm_index self = Some (finalize (build docs)) ->
  (0 <= bm_k1 self)%R ->
  (0 <= bm_b self <= 1)%R ->
  exists res,
    search set_order self query top_k language = Ok res
    /\ sr_total_results res
       = Z.of_nat (length (remove_dups
                    (candidate_insertions (finalize (build docs))
                                          (preprocess query language)))).
Proof.
  intros Hnd Hmeta Hidx Hk Hb.
  destruct (decide (preprocess query language = [])) as [Hnil|Hterms].
  - unfold search. rewrite Hidx, Hnil. eexists. split; [reflexivity|done].
  - destruct (search_on_corpus set_order set_order_perm docs self query top_k
                language Hnd Hmeta Hidx Hk Hb Hterms)
      as (scored & Hsearch & Hids & _).
    eexists. split; [exact Hsearch|]. cbn [sr_total_results]. f_equal.
    rewrite <- (length_fmap sd_doc_id), Hids. by rewrite set_order_perm.
Qed.
End SearchReturns.

(** X16. [build_index_from_documents] loses no document: the index counts
    every document of the list, and the document at position [i] is found
    under the identifier made of the language and of [i], with its own
    metadata, its own length and a posting for each of its terms; no other
    position has that identifier. *)
Theorem indexed_documents_are_kept (format_list : list PyValue -> pystr)
    (loaded : list (gmap string PyValue)) (language : pystr)
    (i : nat) (doc : gmap string PyValue) :
  loaded !! i = Some doc ->
  let idx := build_index_from_documents format_list loaded language in
  let d := indexed_document format_list language i doc in
  doc_count idx = Z.of_nat (length loaded)
  /\ documents idx !! d_id d = Some (d_meta d)
  /\ doc_lengths idx !! d_id d = Some (Z.of_nat (length (d_tokens d)))
  /\ (forall term, term ∈ d_tokens d ->
        (d_id d, tf_in term (d_tokens d)) ∈ get_postings idx term)
  /\ (forall j doc', loaded !! j = Some doc' -> j <> i ->
        d_id (indexed_document format_list language j doc') <> d_id d).
Proof.
  intros Hdoc idx d.
  pose proof (corpus_ids_distinct format_list loaded language) as Hnd.
  pose proof (corpus_elem format_list loaded language i doc Hdoc) as Hd.
  fold d in Hd. subst idx. unfold build_index_from_documents. split_and!.
  - cbn [finalize doc_count]. by rewrite build_count, corpus_length.
  - cbn [finalize documents]. by apply build_metadata_of.
  - cbn [finalize doc_lengths]. by apply build_length_of.
  - intros term Hterm.
    change (get_postings (finalize ?x) term) with (get_postings x term).
    rewrite build_postings.
    apply (list_elem_of_fmap_2
             (fun d => (d_id d, tf_in term (d_tokens d)))).
    unfold docs_with. by apply list_elem_of_filter.
  - intros j doc' Hj Hne Heq. apply Hne.
    apply app_inv_head, app_inv_head, str_int_inj in Heq. lia.
Qed.

Lemma indexed_documents_are_kept_witness :
  doc_count (build_index_from_documents (fun _ => []) sample_documents
                                        (py "en")) = 2.
Proof.
  exact (proj1 (indexed_documents_are_kept (fun _ => []) sample_documents
                  (py "en") 0 _ eq_refl)).
Defined.

(** X17. With an explicit language, the tokens that
    [build_index_from_documents] indexes for a document are the tokens of
    its title followed by the tokens of its body: no token spans the two,
    and nothing of one changes the tokens of the other. *)
Theorem indexed_tokens_are_title_then_body
    (format_list : list PyValue -> pystr) (language : pystr) (i : nat)
    (doc : gmap string PyValue) :
  language <> py "auto" ->
  d_tokens (indexed_document format_list language i doc)
  = preprocess (PyStr (format format_list (get_or_empty doc "title"))) language
    ++ preprocess (PyStr (format format_list (get_or_empty doc "body")))
                  language.
Proof.
  intros Hlang. cbn [indexed_document d_tokens].
  change (py " ") with [0x20%N]. cbn [app].
  rewrite !preprocess_tokenize.
  rewrite tokenize_pieces, remove_stopwords_pieces by done.
  apply List.filter_app.
Qed.

Lemma indexed_tokens_are_title_then_body_witness :
  d_tokens (indexed_document (fun _ => []) (py "en") 1
              (<["title" := PyInt 2024]>
               (<["body" := PyStr (py "Expensive car dealership")]> ∅)))
  = preprocess (PyStr (py "2024")) (py "en")
    ++ preprocess (PyStr (py "Expensive car dealership")) (py "en").
Proof.
  rewrite (indexed_tokens_are_title_then_body (fun _ => []) (py "en") 1
             (<["title" := PyInt 2024]>
              (<["body" := PyStr (py "Expensive car dealership")]> ∅))).
  - vm_compute. reflexivity.
  - vm_compute. discriminate.
Defined.

(** X18. A search on an index made by [build_index_from_documents] raises
    no exception, whatever the documents, the query, the cut and the
    language, as long as [k1] is not negative and [b] is between 0 and 1:
    it reports as many results as there are documents with a query
    term. *)
Theorem search_on_a_built_index_returns
    (set_order : list pystr -> list pystr)
    (format_list : list PyValue -> pystr)
    (loaded : list (gmap string PyValue)) (index_language : pystr)
    (self : BM25Retriever) (query : PyValue) (top_k : Z) (language : pystr) :
  (forall l, set_order l ≡ₚ remove_dups l) ->
  bm_index self
  = Some (build_index_from_documents format_list loaded index_language) ->
  (0 <= bm_k1 self)%R ->
  (0 <= bm_b self <= 1)%R ->
  exists res,
    search set_order self query top_k language = Ok res
    /\ sr_total_results res
       = Z.of_nat (length (remove_dups
                    (candidate_insertions
                       (build_index_from_documents format_list loaded
                                                   index_language)
                       (preprocess query language)))).
Proof.
  intros Hperm Hidx Hk Hb.
  apply (search_returns_on_corpus set_order Hperm
           (corpus_of format_list loaded index_language)); try done.
  - apply corpus_ids_distinct.
  - apply corpus_searchable.
Qed.

Lemma search_on_a_built_index_returns_witness :
  exists res,
    search remove_dups
           (default_retriever
              (build_index_from_documents (fun _ => []) sample_documents
                                          (py "en")))
           (PyStr (py "cheap car")) 10 (py "en") = Ok res
    /\ sr_total_results res
       = Z.of_nat (length (remove_dups
                    (candidate_insertions
                       (build_index_from_documents (fun _ => [])
                                                   sample_documents (py "en"))
                       (preprocess (PyStr (py "cheap car")) (py "en"))))).
Proof.
  refine (search_on_a_built_index_returns remove_dups (fun _ => [])
            sample_documents (py "en")
            (default_retriever
               (build_index_from_documents (fun _ => []) sample_documents
                                           (py "en")))
            (PyStr (py "cheap car")) 10 (py "en")
            (fun l => reflexivity _) eq_refl _ _).
  - simpl. lra.
  - simpl. lra.
Defined.

(** X19. The tokens that [build_combined_index] reads back from the
    postings of a language index are the tokens of the document in another
    order, grouped by term: each term as often as in the document. This
    needs the identifiers of the index to be distinct. *)
Theorem tokens_read_back_from_the_postings (docs : list Doc) (d : Doc) :
  NoDup (d_id <$> docs) ->
  d ∈ docs ->
  reconstruct_tokens (index_items docs) (d_id d) ≡ₚ d_tokens d
  /\ forall term,
       tf_in term (reconstruct_tokens (index_items docs) (d_id d))
       = tf_in term (d_tokens d).
Proof.
  intros Hnd Hd.
  pose proof (reconstruct_tokens_perm docs d Hnd Hd) as Hperm.
  split; [done|]. intros term. unfold tf_in. by rewrite Hperm.
Qed.

Lemma tokens_read_back_from_the_postings_witness :
  reconstruct_tokens (index_items dealers) (py "en_0")
  ≡ₚ preprocess (PyStr (py "cheap car deals in dhaka")) (py "en").
Proof.
  refine (proj1 (tokens_read_back_from_the_postings dealers
                   (english_doc "0" 0 "cheap car deals in dhaka")
                   dealers_NoDup _)).
  apply list_elem_of_here.
Defined.

(** X20. The combined index of [build_combined_index] is the index of the
    Bangla documents followed by the English documents, built in one go:
    reading the tokens back from the postings loses nothing that the index
    records. Its posting list of a term is the Bangla posting list followed
    by the English one, and its counts are the sums of the two. *)
Theorem combined_index_is_the_joint_build {Bytes : Type}
    (format_list : list PyValue -> pystr)
    (pickle_dumps : gmap string Pickled -> Bytes)
    (path_join : pystr -> pystr -> pystr)
    (bangla_docs english_docs : list (gmap string PyValue))
    (output_dir : pystr) (fs : gmap pystr Bytes) :
  let bangla_index :=
    build_index_from_documents format_list bangla_docs (py "bn") in
  let english_index :=
    build_index_from_documents format_list english_docs (py "en") in
  let combined_index :=
    finalize (build (corpus_of format_list bangla_docs (py "bn")
                     ++ corpus_of format_list english_docs (py "en"))) in
  (build_combined_index format_list pickle_dumps path_join
                        bangla_docs english_docs output_dir fs).1
  = (bangla_index, english_index, combined_index)
  /\ doc_count combined_index
     = doc_count bangla_index + doc_count english_index
  /\ (forall term,
        get_postings combined_index term
        = get_postings bangla_index term ++ get_postings english_index term)
  /\ (forall term,
        get_document_frequency combined_index term
        = get_document_frequency bangla_index term
          + get_document_frequency english_index term).
Proof.
  cbv zeta. split_and!.
  - unfold build_combined_index. cbn [fst]. f_equal.
    rewrite !add_reconstructed_extend by apply corpus_ids_distinct.
    by rewrite build_app.
  - unfold build_index_from_documents. cbn [finalize doc_count].
    rewrite !build_count, length_app. lia.
  - intros term. unfold build_index_from_documents.
    change (get_postings (finalize ?x) term) with (get_postings x term).
    rewrite !build_postings. unfold docs_with.
    by rewrite filter_app, fmap_app.
  - intros term. unfold build_index_from_documents.
    change (get_document_frequency (finalize ?x) term)
      with (get_document_frequency x term).
    rewrite !build_df. unfold docs_with. rewrite filter_app, length_app. lia.
Qed.

(** X21. A search on the combined index raises no exception either: the
    identifiers of the two languages never meet. *)
Theorem search_on_the_combined_index_returns {Bytes : Type}
    (set_order : list pystr -> list pystr)
    (format_list : list PyValue -> pystr)
    (pickle_dumps : gmap string Pickled -> Bytes)
    (path_join : pystr -> pystr -> pystr)
    (bangla_docs english_docs : list (gmap string PyValue))
    (output_dir : pystr) (fs : gmap pystr Bytes)
    (self : BM25Retriever) (query : PyValue) (top_k : Z) (language : pystr) :
  (forall l, set_order l ≡ₚ remove_dups l) ->
  bm_index self
  = Some (build_combined_index format_list pickle_dumps path_join
            bangla_docs english_docs output_dir fs).1.2 ->
  (0 <= bm_k1 self)%R ->
  (0 <= bm_b self <= 1)%R ->
  exists res, search set_order self query top_k language = Ok res.
Proof.
  intros Hperm Hidx Hk Hb.
  destruct (search_returns_on_corpus set_order Hperm
              (corpus_of format_list bangla_docs (py "bn")
               ++ corpus_of format_list english_docs (py "en"))
              self query top_k language) as (res & Hres & _); try done.
  - apply two_language_ids_distinct.
  - apply Forall_app. split; apply corpus_searchable.
  - rewrite Hidx. unfold build_combined_index. cbn [fst snd]. do 2 f_equal.
    rewrite !add_reconstructed_extend by apply corpus_ids_distinct.
    by rewrite build_app.
  - by exists res.
Qed.

Lemma search_on_the_combined_index_returns_witness :
  exists res,
    search remove_dups
           (default_retriever
              (build_combined_index (fun _ => []) (fun data => data)
                 (fun dir name => dir ++ py "/" ++ name)
                 [] sample_documents (py "indexes") ∅).1.2)
           (PyStr (py "cheap car")) 10 (py "auto") = Ok res.
Proof.
  refine (search_on_the_combined_index_returns remove_dups (fun _ => [])
            (fun data => data) (fun dir name => dir ++ py "/" ++ name)
            [] sample_documents (py "indexes") ∅
            (default_retriever
               (build_combined_index (fun _ => []) (fun data => data)
                  (fun dir name => dir ++ py "/" ++ name)
                  [] sample_documents (py "indexes") ∅).1.2)
            (PyStr (py "cheap car")) 10 (py "auto")
            (fun l => reflexivity _) eq_refl _ _).
  - simpl. lra.
  - simpl. lra.
Defined.

(** X22. [build_combined_index] leaves three files from which the three
    indices it returns load again, when the three paths are different; no
    other file is touched. [pickle] is assumed to load what it dumped. *)
Theorem combined_build_writes_three_files {Bytes : Type}
    (format_list : list PyValue -> pystr)
    (pickle_dumps : gmap string Pickled -> Bytes)
    (pickle_loads : Bytes -> option (gmap string Pickled))
    (path_join : pystr -> pystr -> pystr)
    (bangla_docs english_docs : list (gmap string PyValue))
    (output_dir : pystr) (fs : gmap pystr Bytes) :
  (forall data, pickle_loads (pickle_dumps data) = Some data) ->
  let bangla_path := path_join output_dir (py "bangla_index.pkl") in
  let english_path := path_join output_dir (py "english_index.pkl") in
  let combined_path := path_join output_dir (py "combined_index.pkl") in
  bangla_path <> english_path ->
  bangla_path <> combined_path ->
  english_path <> combined_path ->
  let built := build_combined_index format_list pickle_dumps path_join
                 bangla_docs english_docs output_dir fs in
  load pickle_loads bangla_path built.2 = Ok built.1.1.1
  /\ load pickle_loads english_path built.2 = Ok built.1.1.2
  /\ load pickle_loads combined_path built.2 = Ok built.1.2
  /\ forall path, path <> bangla_path -> path <> english_path ->
                  path <> combined_path -> built.2 !! path = fs !! path.
Proof.
  intros Hpickle bangla_path english_path combined_path Hbe Hbc Hec built.
  subst built. unfold build_combined_index, load, save. cbn [fst snd].
  fold bangla_path english_path combined_path. split_and!.
  - rewrite !lookup_insert_ne, lookup_insert_eq, Hpickle by done.
    apply load_save_data.
  - rewrite lookup_insert_ne, lookup_insert_eq, Hpickle by done.
    apply load_save_data.
  - rewrite lookup_insert_eq, Hpickle. apply load_save_data.
  - intros path Hb He Hc. by rewrite !lookup_insert_ne.
Qed.

Lemma combined_build_writes_three_files_witness :
  load Some (py "indexes/combined_index.pkl")
       (build_combined_index (fun _ => []) (fun data => data)
          (fun dir name => dir ++ py "/" ++ name)
          [] sample_documents (py "indexes") ∅).2
  = Ok (build_combined_index (fun _ => []) (fun data => data)
          (fun dir name => dir ++ py "/" ++ name)
          [] sample_documents (py "indexes") ∅).1.2.
Proof.
  refine (proj1 (proj2 (proj2
            (combined_build_writes_three_files (fun _ => [])
               (fun data => data) Some
               (fun dir name => dir ++ py "/" ++ name)
               [] sample_documents (py "indexes") ∅ _ _ _ _)))).
  - done.
  - vm_compute. discriminate.
  - vm_compute. discriminate.
  - vm_compute. discriminate.
Defined.
